(** * The exit endpoint of llarp (llarp/handlers/exit.cpp)

    A shallow embedding of [llarp::handlers::ExitEndpoint]: the address
    pool, the identity map, the session registry, the packet pump and the
    DNS hook, followed by the properties of each.

    Conventions.
    - [huint32_t], [llarp_time_t] and [size_t] are [Z], with the wrap-around
      of the unsigned arithmetic written where the code computes.
    - Hash containers that the code only looks up ([m_KeyToIP], [m_IPToKey],
      [m_Paths], [m_ChosenExits], [m_SNodeSessions]) are [gmap]s; the set
      [m_SNodeKeys] is a [gset].  Containers whose iteration order decides a
      result ([m_IPActivity], [m_ActiveExits]) are lists in iteration order.
    - An [Endpoint] owned by [m_ActiveExits] carries its address, and
      [m_ChosenExits] holds such addresses: the raw pointers of the code.
    - Functions that read the router clock take the reading as [now]. *)

From stdpp Require Import gmap strings list fin_maps.
From Stdlib Require Import ZArith Lia.

Local Open Scope Z_scope.

(** ** Machine integers *)

Abbreviation huint32_t := Z.
Abbreviation llarp_time_t := Z.
Abbreviation PubKey := N.
Abbreviation RouterID := N.
Abbreviation PathID_t := N.
Abbreviation ptr := N.

Definition UINT32_MOD : Z := 2 ^ 32.
Definition SIZE_MOD : Z := 2 ^ 64.

(** [std::numeric_limits< llarp_time_t >::max()] for the 64-bit unsigned
    time type. *)
Definition llarp_time_max : llarp_time_t := 2 ^ 64 - 1.

(** [std::string::npos]. *)
Definition npos : Z := SIZE_MOD - 1.

(** A default-constructed [PubKey] is the all-zero buffer. *)
Definition zero_pk : PubKey := 0%N.

Definition nullptr : ptr := 0%N.

(** ** Standard containers *)

Section containers.
Context {K : Type} `{Countable K} {V : Type}.

(** [m[k]]: the value at [k], default-inserted when absent. *)
Definition subscript (d : V) (k : K) (m : gmap K V) : V * gmap K V :=
  match m !! k with
  | Some v => (v, m)
  | None => (d, <[k := d]> m)
  end.

(** [m.emplace(k, v).second] and the map after it: nothing is overwritten. *)
Definition emplace (k : K) (v : V) (m : gmap K V) : bool * gmap K V :=
  match m !! k with
  | Some _ => (false, m)
  | None => (true, <[k := v]> m)
  end.
End containers.

(** ** Sessions *)

(** Modelled from the spec: [llarp::exit::Endpoint], the ExitSession of the
    spec, is declared in llarp/exit, outside the sources.  The record keeps
    the address of the object, the four values AllocateNewExit passes to the
    constructor (pubkey, path id, direction, address) and [createdAt]; the
    rest of a session (counters, liveness estimate) is a link state [EL]
    that only the collaborator interface below can inspect or change. *)
Record Endpoint (EL : Type) := mkEndpoint {
  ep_addr : ptr;
  ep_PubKey : PubKey;
  ep_LocalPath : PathID_t;
  ep_inbound : bool;
  ep_ip : huint32_t;
  createdAt : llarp_time_t;
  ep_link : EL
}.
Arguments mkEndpoint {EL}.
Arguments ep_addr {EL}.
Arguments ep_PubKey {EL}.
Arguments ep_LocalPath {EL}.
Arguments ep_inbound {EL}.
Arguments ep_ip {EL}.
Arguments createdAt {EL}.
Arguments ep_link {EL}.

(** Modelled from the spec: [llarp::exit::SNodeSession], declared in
    llarp/exit, outside the sources.  The record keeps the values
    ObtainServiceNodeIP passes to the constructor: the remote key, the address
    bound into the packet callback, and the constants 2, 1 and true. *)
Record SNodeSession (SL : Type) := mkSNodeSession {
  sn_remote : RouterID;
  sn_from : huint32_t;
  sn_numpaths : Z;
  sn_hoplen : Z;
  sn_bundleRC : bool;
  sn_link : SL
}.
Arguments mkSNodeSession {SL}.
Arguments sn_remote {SL}.
Arguments sn_from {SL}.
Arguments sn_numpaths {SL}.
Arguments sn_hoplen {SL}.
Arguments sn_bundleRC {SL}.
Arguments sn_link {SL}.

Definition with_ep_link {EL} (e : Endpoint EL) (l : EL) : Endpoint EL :=
  mkEndpoint (ep_addr e) (ep_PubKey e) (ep_LocalPath e) (ep_inbound e)
             (ep_ip e) (createdAt e) l.

Definition with_sn_link {SL} (x : SNodeSession SL) (l : SL) : SNodeSession SL :=
  mkSNodeSession (sn_remote x) (sn_from x) (sn_numpaths x) (sn_hoplen x)
                 (sn_bundleRC x) l.

(** Modelled from the spec: a parsed IPv4 packet of the inbound queue
    ([llarp::net::IPv4Packet], declared outside the sources), as far as Flush
    reads it: [dst()] and [Buffer()]. *)
Record Pkt_t := mkPkt {
  pkt_dst : huint32_t;
  pkt_Buffer : list Z
}.

(** ** Collaborators

    The members of the link layer, the path subsystem and the DNS library
    that exit.cpp calls.  Queries read a session; calls that may change a
    session return its next link state. *)

Class Collaborators (EL SL : Type) := {
  ep_link_new : PubKey → PathID_t → bool → huint32_t → EL;
  ep_IsExpired : Endpoint EL → llarp_time_t → bool;
  ep_LooksDead : Endpoint EL → llarp_time_t → bool;
  ep_Tick : Endpoint EL → llarp_time_t → EL;
  ep_QueueInboundTraffic : Endpoint EL → list Z → bool * EL;
  ep_Flush : Endpoint EL → bool * EL;
  sn_link_new : RouterID → huint32_t → SL;
  sn_IsExpired : SNodeSession SL → llarp_time_t → bool;
  sn_Tick : SNodeSession SL → llarp_time_t → SL;
  sn_QueueUpstreamTraffic : SNodeSession SL → Pkt_t → Z → bool * SL;
  sn_Flush : SNodeSession SL → bool * SL;
  ExitPadSize : Z;
  TransitHopPreviousIsRouter : PathID_t → RouterID → bool;
  DecodePTR : string → option huint32_t;
  RouterID_FromString : string → option RouterID;
  RouterID_ToString : RouterID → string;
  router_pubkey : RouterID;
  ExpandV4 : huint32_t → Z;
  netmask_ipv6_bits : Z → Z
}.

(** ** llarp::IPRange (llarp/net/ip_range.hpp) *)

Record IPRange := mkIPRange {
  addr : Z;
  netmask_bits : Z
}.

Module IPRangeOps.
(** [Contains(const Addr_t& ip)]. *)
Definition Contains (r : IPRange) (ip : Z) : bool :=
  bool_decide (Z.land (addr r) (netmask_bits r) = Z.land ip (netmask_bits r)).

Section v4.
Context {EL SL : Type} `{!Collaborators EL SL}.

Definition IsV4 (r : IPRange) : bool :=
  Contains (mkIPRange 0x0000ffff00000000 (netmask_ipv6_bits 96)) (addr r).

(** [Contains(const huint32_t& ip)]. *)
Definition Contains_v4 (r : IPRange) (ip : huint32_t) : bool :=
  if negb (IsV4 r) then false else Contains r (ExpandV4 ip).
End v4.
End IPRangeOps.

(** Modelled from the spec: the range that exit.cpp works with is the 32-bit
    [IPRange] of net.hpp, outside the sources: exit.cpp includes net.hpp and
    stores [huint32_t] values in [addr] and [netmask_bits].  The spec's
    [ourRange.contains(ip)] for a CIDR range: the address agrees with the
    address of the range under the netmask. *)
Definition Contains_ipv4 (r : IPRange) (ip : huint32_t) : bool :=
  bool_decide (Z.land (addr r) (netmask_bits r) = Z.land ip (netmask_bits r)).

(** ** Log *)

Inductive LogLevel := LogInfo | LogWarn | LogError.

Inductive LogEntry :=
| DroppingNoSession (dst : huint32_t)
| DroppedNoWorkingEndpoints (pk : PubKey)
| DroppedOverloaded (pk : PubKey)
| ExitSessionDroppedPackets (pk : PubKey)
| FailedToFlushSNodeTraffic (pk : RouterID)
| Kicking (pk : PubKey)
| Mapping (pk : PubKey) (ip : huint32_t)
| FailedToMapKey (pk : PubKey) (ip : huint32_t)
| FailedToMapIP (ip : huint32_t) (pk : PubKey).

Definition level (e : LogEntry) : LogLevel :=
  match e with
  | DroppingNoSession _ | DroppedNoWorkingEndpoints _ | DroppedOverloaded _
  | ExitSessionDroppedPackets _ | FailedToFlushSNodeTraffic _ => LogWarn
  | Kicking _ | Mapping _ _ => LogInfo
  | FailedToMapKey _ _ | FailedToMapIP _ _ => LogError
  end.

(** ** The endpoint *)

(** Modelled from the spec: the members of [ExitEndpoint] are declared in
    handlers/exit.hpp, outside the sources; their names are the ones
    exit.cpp uses, their types the ones the data model of the spec gives
    (maps, a set, a multimap, a FIFO).  [heap_next] is the address the next
    [make_unique] returns, and [m_Log] collects what the endpoint logs. *)
Record ExitEndpoint (EL SL : Type) := mkExit {
  m_KeyToIP : gmap PubKey huint32_t;
  m_IPToKey : gmap huint32_t PubKey;
  m_SNodeKeys : gset PubKey;
  m_SNodeSessions : gmap RouterID (SNodeSession SL);
  m_ActiveExits : list (PubKey * Endpoint EL);
  m_ChosenExits : gmap PubKey ptr;
  m_Paths : gmap PathID_t PubKey;
  m_IPActivity : list (huint32_t * llarp_time_t);
  m_IfAddr : huint32_t;
  m_HigestAddr : huint32_t;
  m_NextAddr : huint32_t;
  m_OurRange : IPRange;
  m_PermitExit : bool;
  m_InetToNetwork : list Pkt_t;
  heap_next : ptr;
  m_Log : list LogEntry
}.
Arguments mkExit {EL SL}.
Arguments m_KeyToIP {EL SL}.
Arguments m_IPToKey {EL SL}.
Arguments m_SNodeKeys {EL SL}.
Arguments m_SNodeSessions {EL SL}.
Arguments m_ActiveExits {EL SL}.
Arguments m_ChosenExits {EL SL}.
Arguments m_Paths {EL SL}.
Arguments m_IPActivity {EL SL}.
Arguments m_IfAddr {EL SL}.
Arguments m_HigestAddr {EL SL}.
Arguments m_NextAddr {EL SL}.
Arguments m_OurRange {EL SL}.
Arguments m_PermitExit {EL SL}.
Arguments m_InetToNetwork {EL SL}.
Arguments heap_next {EL SL}.
Arguments m_Log {EL SL}.

Section setters.
Context {EL SL : Type}.
Implicit Types s : ExitEndpoint EL SL.

Definition set_KeyToIP (x : gmap PubKey huint32_t) s : ExitEndpoint EL SL :=
  mkExit x (m_IPToKey s) (m_SNodeKeys s) (m_SNodeSessions s)
    (m_ActiveExits s) (m_ChosenExits s) (m_Paths s) (m_IPActivity s)
    (m_IfAddr s) (m_HigestAddr s) (m_NextAddr s) (m_OurRange s)
    (m_PermitExit s) (m_InetToNetwork s) (heap_next s) (m_Log s).

Definition set_IPToKey (x : gmap huint32_t PubKey) s : ExitEndpoint EL SL :=
  mkExit (m_KeyToIP s) x (m_SNodeKeys s) (m_SNodeSessions s)
    (m_ActiveExits s) (m_ChosenExits s) (m_Paths s) (m_IPActivity s)
    (m_IfAddr s) (m_HigestAddr s) (m_NextAddr s) (m_OurRange s)
    (m_PermitExit s) (m_InetToNetwork s) (heap_next s) (m_Log s).

Definition set_SNodeKeys (x : gset PubKey) s : ExitEndpoint EL SL :=
  mkExit (m_KeyToIP s) (m_IPToKey s) x (m_SNodeSessions s)
    (m_ActiveExits s) (m_ChosenExits s) (m_Paths s) (m_IPActivity s)
    (m_IfAddr s) (m_HigestAddr s) (m_NextAddr s) (m_OurRange s)
    (m_PermitExit s) (m_InetToNetwork s) (heap_next s) (m_Log s).

Definition set_SNodeSessions (x : gmap RouterID (SNodeSession SL)) s
  : ExitEndpoint EL SL :=
  mkExit (m_KeyToIP s) (m_IPToKey s) (m_SNodeKeys s) x
    (m_ActiveExits s) (m_ChosenExits s) (m_Paths s) (m_IPActivity s)
    (m_IfAddr s) (m_HigestAddr s) (m_NextAddr s) (m_OurRange s)
    (m_PermitExit s) (m_InetToNetwork s) (heap_next s) (m_Log s).

Definition set_ActiveExits (x : list (PubKey * Endpoint EL)) s
  : ExitEndpoint EL SL :=
  mkExit (m_KeyToIP s) (m_IPToKey s) (m_SNodeKeys s) (m_SNodeSessions s)
    x (m_ChosenExits s) (m_Paths s) (m_IPActivity s)
    (m_IfAddr s) (m_HigestAddr s) (m_NextAddr s) (m_OurRange s)
    (m_PermitExit s) (m_InetToNetwork s) (heap_next s) (m_Log s).

Definition set_ChosenExits (x : gmap PubKey ptr) s : ExitEndpoint EL SL :=
  mkExit (m_KeyToIP s) (m_IPToKey s) (m_SNodeKeys s) (m_SNodeSessions s)
    (m_ActiveExits s) x (m_Paths s) (m_IPActivity s)
    (m_IfAddr s) (m_HigestAddr s) (m_NextAddr s) (m_OurRange s)
    (m_PermitExit s) (m_InetToNetwork s) (heap_next s) (m_Log s).

Definition set_Paths (x : gmap PathID_t PubKey) s : ExitEndpoint EL SL :=
  mkExit (m_KeyToIP s) (m_IPToKey s) (m_SNodeKeys s) (m_SNodeSessions s)
    (m_ActiveExits s) (m_ChosenExits s) x (m_IPActivity s)
    (m_IfAddr s) (m_HigestAddr s) (m_NextAddr s) (m_OurRange s)
    (m_PermitExit s) (m_InetToNetwork s) (heap_next s) (m_Log s).

Definition set_IPActivity (x : list (huint32_t * llarp_time_t)) s
  : ExitEndpoint EL SL :=
  mkExit (m_KeyToIP s) (m_IPToKey s) (m_SNodeKeys s) (m_SNodeSessions s)
    (m_ActiveExits s) (m_ChosenExits s) (m_Paths s) x
    (m_IfAddr s) (m_HigestAddr s) (m_NextAddr s) (m_OurRange s)
    (m_PermitExit s) (m_InetToNetwork s) (heap_next s) (m_Log s).

Definition set_NextAddr (x : huint32_t) s : ExitEndpoint EL SL :=
  mkExit (m_KeyToIP s) (m_IPToKey s) (m_SNodeKeys s) (m_SNodeSessions s)
    (m_ActiveExits s) (m_ChosenExits s) (m_Paths s) (m_IPActivity s)
    (m_IfAddr s) (m_HigestAddr s) x (m_OurRange s)
    (m_PermitExit s) (m_InetToNetwork s) (heap_next s) (m_Log s).

Definition set_InetToNetwork (x : list Pkt_t) s : ExitEndpoint EL SL :=
  mkExit (m_KeyToIP s) (m_IPToKey s) (m_SNodeKeys s) (m_SNodeSessions s)
    (m_ActiveExits s) (m_ChosenExits s) (m_Paths s) (m_IPActivity s)
    (m_IfAddr s) (m_HigestAddr s) (m_NextAddr s) (m_OurRange s)
    (m_PermitExit s) x (heap_next s) (m_Log s).

Definition set_heap_next (x : ptr) s : ExitEndpoint EL SL :=
  mkExit (m_KeyToIP s) (m_IPToKey s) (m_SNodeKeys s) (m_SNodeSessions s)
    (m_ActiveExits s) (m_ChosenExits s) (m_Paths s) (m_IPActivity s)
    (m_IfAddr s) (m_HigestAddr s) (m_NextAddr s) (m_OurRange s)
    (m_PermitExit s) (m_InetToNetwork s) x (m_Log s).

(** Log lines are appended. *)
Definition log (e : LogEntry) s : ExitEndpoint EL SL :=
  mkExit (m_KeyToIP s) (m_IPToKey s) (m_SNodeKeys s) (m_SNodeSessions s)
    (m_ActiveExits s) (m_ChosenExits s) (m_Paths s) (m_IPActivity s)
    (m_IfAddr s) (m_HigestAddr s) (m_NextAddr s) (m_OurRange s)
    (m_PermitExit s) (m_InetToNetwork s) (heap_next s) (m_Log s ++ [e]).
End setters.

(** ** Address pool and identity map *)

(** [m_IPActivity[ip] = t]: the entry is overwritten where it stands; a new
    entry takes a place in the iteration order that the container chooses,
    here the last one.  The standard leaves the order of an unordered map
    open, and an implementation may as well hand out the newest entry first:
    what is proved of the scan over this table is proved for the table in
    any order. *)
Fixpoint activity_assign (ip : huint32_t) (t : llarp_time_t)
    (l : list (huint32_t * llarp_time_t)) : list (huint32_t * llarp_time_t) :=
  match l with
  | [] => [(ip, t)]
  | (i, u) :: r =>
      if decide (i = ip) then (i, t) :: r else (i, u) :: activity_assign ip t r
  end.

Fixpoint activity_find (ip : huint32_t)
    (l : list (huint32_t * llarp_time_t)) : option llarp_time_t :=
  match l with
  | [] => None
  | (i, u) :: r => if decide (i = ip) then Some u else activity_find ip r
  end.

(** The scan of AllocateNewAddress over [m_IPActivity]: [found] and [min] are
    the loop's two variables. *)
Fixpoint oldest_scan (l : list (huint32_t * llarp_time_t))
    (found : huint32_t) (min : llarp_time_t) : huint32_t * llarp_time_t :=
  match l with
  | [] => (found, min)
  | (ip, t) :: r =>
      if bool_decide (t < min) then oldest_scan r ip t
      else oldest_scan r found min
  end.

Section endpoint.
Context {EL SL : Type} `{!Collaborators EL SL}.
#[local] Abbreviation State := (ExitEndpoint EL SL).
Implicit Types s : State.

Definition HasLocalMappedAddrFor (pk : PubKey) s : bool :=
  bool_decide (is_Some (m_KeyToIP s !! pk)).

Definition MarkIPActive (ip : huint32_t) (now : llarp_time_t) s : State :=
  set_IPActivity (activity_assign ip now (m_IPActivity s)) s.

(** [equal_range(pk)] erased entry by entry. *)
Definition erase_exits (pk : PubKey) (l : list (PubKey * Endpoint EL))
  : list (PubKey * Endpoint EL) :=
  filter (λ x, x.1 ≠ pk) l.

Definition KickIdentOffExit (pk : PubKey) s : State :=
  let s0 := log (Kicking pk) s in
  let '(ip, k1) := subscript 0 pk (m_KeyToIP s0) in
  let s1 := set_KeyToIP (delete pk k1) s0 in
  let s2 := set_IPToKey (delete ip (m_IPToKey s1)) s1 in
  set_ActiveExits (erase_exits pk (m_ActiveExits s2)) s2.

Definition AllocateNewAddress s : huint32_t * State :=
  if bool_decide (m_NextAddr s < m_HigestAddr s) then
    let n := (m_NextAddr s + 1) mod UINT32_MOD in
    (n, set_NextAddr n s)
  else
    let '(found, _) := oldest_scan (m_IPActivity s) 0 llarp_time_max in
    let '(pk, i1) := subscript zero_pk found (m_IPToKey s) in
    (found, KickIdentOffExit pk (set_IPToKey i1 s)).

Definition GetIPForIdent (pk : PubKey) (now : llarp_time_t) s
  : huint32_t * State :=
  if negb (HasLocalMappedAddrFor pk s) then
    let '(found, s1) := AllocateNewAddress s in
    let '(ok1, k1) := emplace pk found (m_KeyToIP s1) in
    if negb ok1 then (found, log (FailedToMapKey pk found) s1)
    else
      let s2 := set_KeyToIP k1 s1 in
      let '(ok2, i1) := emplace found pk (m_IPToKey s2) in
      if negb ok2 then (found, log (FailedToMapIP found pk) s2)
      else
        let s3 := set_IPToKey i1 s2 in
        let s4 := if HasLocalMappedAddrFor pk s3
                  then log (Mapping pk found) s3
                  else log (FailedToMapKey pk found) s3 in
        (found, MarkIPActive found now s4)
  else
    let '(found, k1) := subscript 0 pk (m_KeyToIP s) in
    (found, MarkIPActive found now (set_KeyToIP k1 s)).

(** The [ifaddr] branch of SetOption, after the CIDR text has been split
    and parsed: [host] is [ifaddr.xtohl()] and [mask] is
    [netmask_ipv4_bits(m_Tun.netmask)], both 32-bit values.  [~mask] is the
    32-bit complement. *)
Definition SetOption_ifaddr (host mask : huint32_t) s : State :=
  mkExit (m_KeyToIP s) (m_IPToKey s) (m_SNodeKeys s) (m_SNodeSessions s)
    (m_ActiveExits s) (m_ChosenExits s) (m_Paths s) (m_IPActivity s)
    host (Z.lor host (Z.lxor mask (UINT32_MOD - 1))) host
    (mkIPRange host mask)
    (m_PermitExit s) (m_InetToNetwork s) (heap_next s) (m_Log s).

(** ** Session registry *)

Definition new_snode_session (other : RouterID) (ip : huint32_t)
  : SNodeSession SL :=
  mkSNodeSession other ip 2 1 true (sn_link_new other ip).

Definition ObtainServiceNodeIP (other : RouterID) (now : llarp_time_t) s
  : huint32_t * State :=
  let '(ip, s1) := GetIPForIdent other now s in
  if bool_decide (other ∉ m_SNodeKeys s1) then
    let s2 := set_SNodeKeys ({[other]} ∪ m_SNodeKeys s1) s1 in
    (ip, set_SNodeSessions
           (emplace other (new_snode_session other ip) (m_SNodeSessions s2)).2
           s2)
  else (ip, s1).

(** Modelled from the spec: the constructor of [llarp::exit::Endpoint],
    called as [std::make_unique< llarp::exit::Endpoint >(pk, path,
    !wantInternet, ip, this)].  The new session takes the next free address
    and its [createdAt] is the clock reading ("created-at"). *)
Definition new_endpoint (a : ptr) (pk : PubKey) (path : PathID_t)
    (rewriteIP : bool) (ip : huint32_t) (now : llarp_time_t) : Endpoint EL :=
  mkEndpoint a pk path rewriteIP ip now (ep_link_new pk path rewriteIP ip).

Definition AllocateNewExit (pk : PubKey) (path : PathID_t)
    (wantInternet : bool) (now : llarp_time_t) s : bool * State :=
  if wantInternet && negb (m_PermitExit s) then (false, s)
  else
    let '(ip, s1) := GetIPForIdent pk now s in
    let s2 := if TransitHopPreviousIsRouter path pk
              then set_SNodeKeys ({[pk]} ∪ m_SNodeKeys s1) s1
              else s1 in
    let e := new_endpoint (heap_next s2) pk path (negb wantInternet) ip now in
    let s3 := set_heap_next (heap_next s2 + 1)%N
                (set_ActiveExits ((pk, e) :: m_ActiveExits s2) s2) in
    let s4 := set_Paths (<[path := pk]> (m_Paths s3)) s3 in
    (HasLocalMappedAddrFor pk s4, s4).
End endpoint.

(** ** Packet pump and tick *)

Section pump.
Context {EL SL : Type} `{!Collaborators EL SL}.
#[local] Abbreviation State := (ExitEndpoint EL SL).
Implicit Types s : State.

(** The object a raw [Endpoint*] points to: the session of [m_ActiveExits]
    that lives at that address, if one still does. *)
Fixpoint exit_at (p : ptr) (l : list (PubKey * Endpoint EL))
  : option (Endpoint EL) :=
  match l with
  | [] => None
  | (_, e) :: r => if decide (ep_addr e = p) then Some e else exit_at p r
  end.

(** A call through the pointer leaves the session at that address in its
    next link state. *)
Definition exit_store (p : ptr) (l' : EL) (l : list (PubKey * Endpoint EL))
  : list (PubKey * Endpoint EL) :=
  map (λ x, if decide (ep_addr x.2 = p) then (x.1, with_ep_link x.2 l') else x) l.

(** The snode attempt of the lambda in Flush: whether the packet was queued
    on a session this endpoint made, and the endpoint after the attempt. *)
Definition try_snode_session (pk : PubKey) (pkt : Pkt_t) s : bool * State :=
  if bool_decide (pk ∈ m_SNodeKeys s) then
    match m_SNodeSessions s !! pk with
    | Some x =>
        let '(ok, l) := sn_QueueUpstreamTraffic x pkt ExitPadSize in
        (ok, set_SNodeSessions (<[pk := with_sn_link x l]> (m_SNodeSessions s)) s)
    | None => (false, s)
    end
  else (false, s).

(** The lambda that Flush hands to [m_InetToNetwork.Process].  [None] is the
    dereference of a pointer of [m_ChosenExits] whose session has been erased,
    which C++ leaves undefined. *)
Definition HandleInetPacket (pkt : Pkt_t) s : option State :=
  match m_IPToKey s !! pkt_dst pkt with
  | None => Some (log (DroppingNoSession (pkt_dst pkt)) s)
  | Some pk =>
      let '(sent, s1) := try_snode_session pk pkt s in
      if sent then Some s1
      else
        let '(ep, c1) := subscript nullptr pk (m_ChosenExits s1) in
        let s2 := set_ChosenExits c1 s1 in
        if decide (ep = nullptr) then
          Some (log (DroppedNoWorkingEndpoints pk) s2)
        else
          match exit_at ep (m_ActiveExits s2) with
          | None => None
          | Some e =>
              let '(ok, l) := ep_QueueInboundTraffic e (pkt_Buffer pkt) in
              let s3 := set_ActiveExits (exit_store ep l (m_ActiveExits s2)) s2 in
              Some (if ok then s3 else log (DroppedOverloaded pk) s3)
          end
  end.

Fixpoint Process (q : list Pkt_t) s : option State :=
  match q with
  | [] => Some s
  | pkt :: r =>
      match HandleInetPacket pkt s with
      | Some s' => Process r s'
      | None => None
      end
  end.

Definition flush_exit (x : PubKey * Endpoint EL)
  : (PubKey * Endpoint EL) * list LogEntry :=
  let '(ok, l) := ep_Flush x.2 in
  ((x.1, with_ep_link x.2 l),
   if ok then [] else [ExitSessionDroppedPackets x.1]).

Definition flush_snode (x : RouterID * SNodeSession SL) : list LogEntry :=
  if (sn_Flush x.2).1 then [] else [FailedToFlushSNodeTraffic x.1].

Definition flush_sessions s : State :=
  let exits := map flush_exit (m_ActiveExits s) in
  let s1 := set_ActiveExits (map fst exits) s in
  let s2 := foldl (λ a e, log e a) s1 (concat (map snd exits)) in
  let warns := concat (map flush_snode (map_to_list (m_SNodeSessions s2))) in
  let s3 := set_SNodeSessions
              ((λ x, with_sn_link x (sn_Flush x).2) <$> m_SNodeSessions s2) s2 in
  foldl (λ a e, log e a) s3 warns.

Definition Flush s : option State :=
  match Process (m_InetToNetwork s) (set_InetToNetwork [] s) with
  | Some s1 => Some (flush_sessions s1)
  | None => None
  end.

Definition tick_exit (now : llarp_time_t) (x : PubKey * Endpoint EL)
  : PubKey * Endpoint EL :=
  (x.1, with_ep_link x.2 (ep_Tick x.2 now)).

(** The second loop of Tick over [m_ActiveExits]: [done] holds the entries
    already visited (and ticked), [l] the entries from the iterator on.  A
    chosen pointer is read through [exit_at] over the whole container. *)
Fixpoint pick_and_tick (now : llarp_time_t)
    (done l : list (PubKey * Endpoint EL)) (chosen : gmap PubKey ptr)
  : option (gmap PubKey ptr * list (PubKey * Endpoint EL)) :=
  match l with
  | [] => Some (chosen, done)
  | (k, e) :: r =>
      let pick := if negb (ep_LooksDead e now)
                  then <[k := ep_addr e]> chosen else chosen in
      let next :=
        match chosen !! k with
        | Some p =>
            match exit_at p (done ++ l) with
            | None => None
            | Some c =>
                Some (if bool_decide (createdAt c < createdAt e)
                      then pick else chosen)
            end
        | None => Some pick
        end in
      match next with
      | Some chosen' =>
          pick_and_tick now (done ++ [tick_exit now (k, e)]) r chosen'
      | None => None
      end
  end.

Definition Tick (now : llarp_time_t) s : option State :=
  let sn := filter (λ kx, sn_IsExpired kx.2 now = false) (m_SNodeSessions s) in
  let s1 := set_SNodeSessions sn s in
  let ae := filter (λ x, ep_IsExpired x.2 now = false) (m_ActiveExits s1) in
  match pick_and_tick now [] ae ∅ with
  | Some (chosen, ae') =>
      Some (set_ActiveExits ae' (set_ChosenExits chosen s1))
  | None => None
  end.
End pump.

(** ** DNS hook *)

(** [std::string::find]: the first position at which [pat] occurs. *)
Fixpoint str_find (pat s : string) : option nat :=
  if String.prefix pat s then Some 0%nat
  else match s with
       | EmptyString => None
       | String _ r => S <$> str_find pat r
       end.

(** The [size_t] that [find] returns. *)
Definition string_find (pat s : string) : Z :=
  match str_find pat s with
  | Some i => Z.of_nat i
  | None => npos
  end.

Definition string_size (s : string) : Z := Z.of_nat (String.length s).

(** A name ends in a suffix. *)
Definition ends_in (suffix name : string) : Prop :=
  ∃ base, name = base +:+ suffix.

(** Modelled from the spec: the query types [A] and [PTR] of llarp/dns,
    declared outside the sources, with their numbers of RFC 1035. *)
Definition qTypeA : Z := 1.
Definition qTypePTR : Z := 12.

(** Modelled from the spec: a DNS message ([llarp::dns::Message], declared
    outside the sources) as far as the hook reads and extends it: the
    questions, and the answers added to it. *)
Record Question := mkQuestion {
  qname : string;
  qtype : Z
}.

(** What HandleHookedDNSMessage adds to a message: [AddAReply(name, ttl)]
    ([None] for the defaulted ttl), [AddINReply(ip)], [AddNXReply()]. *)
Inductive Answer :=
| AReply (name : string) (ttl : option Z)
| INReply (ip : huint32_t)
| NXReply.

Record Message := mkMessage {
  questions : list Question;
  answers : list Answer
}.

Definition add_answer (a : Answer) (m : Message) : Message :=
  mkMessage (questions m) (answers m ++ [a]).

Section dns.
Context {EL SL : Type} `{!Collaborators EL SL}.
#[local] Abbreviation State := (ExitEndpoint EL SL).
Implicit Types s : State.

Definition ShouldHookDNSMessage (msg : Message) s : bool :=
  match questions msg with
  | [] => false
  | q :: _ =>
      if bool_decide (qtype q = qTypePTR) then
        match DecodePTR (qname q) with
        | None => false
        | Some ip => Contains_ipv4 (m_OurRange s) ip
        end
      else if bool_decide (qtype q = qTypeA) then
        bool_decide (string_find ".snode." (qname q)
                     = (string_size (qname q) - 7) mod SIZE_MOD)
      else false
  end.

(** The result is the returned flag, the endpoint afterwards and the message
    passed to [reply], if [reply] was called.  [None] stands for
    [msg.questions[0]] on a message without a question. *)
Definition HandleHookedDNSMessage (msg : Message) (now : llarp_time_t) s
  : option (bool * State * option Message) :=
  match questions msg with
  | [] => None
  | q :: _ =>
      if bool_decide (qtype q = qTypePTR) then
        match DecodePTR (qname q) with
        | None => Some (false, s, None)
        | Some ip =>
            if bool_decide (ip = m_IfAddr s) then
              Some (true, s,
                    Some (add_answer
                            (AReply (RouterID_ToString router_pubkey) (Some 300))
                            msg))
            else
              match m_IPToKey s !! ip with
              | Some them =>
                  if bool_decide (them ∈ m_SNodeKeys s) then
                    Some (true, s,
                          Some (add_answer
                                  (AReply (RouterID_ToString them) None) msg))
                  else Some (true, s, Some (add_answer NXReply msg))
              | None => Some (true, s, Some (add_answer NXReply msg))
              end
        end
      else if bool_decide (qtype q = qTypeA) then
        match RouterID_FromString (qname q) with
        | Some r =>
            if bool_decide (r ∉ m_SNodeKeys s) then
              let '(ip, s1) := ObtainServiceNodeIP r now s in
              Some (true, s1, Some (add_answer (INReply ip) msg))
            else
              match m_KeyToIP s !! r with
              | Some ip => Some (true, s, Some (add_answer (INReply ip) msg))
              | None => Some (true, s, Some (add_answer NXReply msg))
              end
        | None => Some (true, s, Some (add_answer NXReply msg))
        end
      else Some (true, s, Some msg)
  end.
End dns.

(** ** State predicates *)

Section predicates.
Context {EL SL : Type}.
Implicit Types s : ExitEndpoint EL SL.

(** An address the endpoint has a record of: bound to a key, or holding an
    activity timestamp.  [m_IPActivity] is never erased from, so it keeps
    every address that was ever marked. *)
Definition known_address (ip : huint32_t) s : Prop :=
  (∃ k, m_KeyToIP s !! k = Some ip)
  ∨ is_Some (m_IPToKey s !! ip)
  ∨ (∃ t, (ip, t) ∈ m_IPActivity s).

(** The pool as SetOption leaves it and as allocation keeps it: the counter
    runs from the gateway address up to the highest address, and no recorded
    address lies beyond the counter. *)
Definition pool_ok s : Prop :=
  0 ≤ m_IfAddr s
  ∧ m_IfAddr s ≤ m_NextAddr s
  ∧ m_NextAddr s ≤ m_HigestAddr s
  ∧ m_HigestAddr s < UINT32_MOD
  ∧ ∀ ip, known_address ip s → ip ≤ m_NextAddr s.

(** The addresses of the sessions that [m_ActiveExits] owns. *)
Definition addrs (l : list (PubKey * Endpoint EL)) : list ptr :=
  map (λ x, ep_addr x.2) l.

(** The identity map and the activity table in step: the two maps are each
    other's inverse, the addresses that hold a timestamp are the mapped ones,
    every timestamp is below the maximum that the eviction scan starts from,
    and an exhausted pool has an entry to evict. *)
Definition paired s : Prop :=
  (∀ k ip, m_KeyToIP s !! k = Some ip ↔ m_IPToKey s !! ip = Some k)
  ∧ (∀ ip, is_Some (activity_find ip (m_IPActivity s))
           ↔ is_Some (m_IPToKey s !! ip))
  ∧ (∀ ip t, (ip, t) ∈ m_IPActivity s → t < llarp_time_max)
  ∧ (m_IPActivity s = [] → m_NextAddr s < m_HigestAddr s).

(** The session registry in order: the sessions of [m_ActiveExits] live at
    distinct addresses below the next free one, and every key that
    [m_SNodeSessions] holds a session for is in [m_SNodeKeys]. *)
Definition registry_ok s : Prop :=
  NoDup (addrs (m_ActiveExits s))
  ∧ (∀ a, a ∈ addrs (m_ActiveExits s) → (a < heap_next s)%N)
  ∧ (∀ r, is_Some (m_SNodeSessions s !! r) → r ∈ m_SNodeKeys s).

(** A step that creates no session of [m_ActiveExits] and no unmarked
    session of [m_SNodeSessions]. *)
Definition registry_step s s' : Prop :=
  addrs (m_ActiveExits s') `sublist_of` addrs (m_ActiveExits s)
  ∧ (heap_next s ≤ heap_next s')%N
  ∧ m_SNodeKeys s ⊆ m_SNodeKeys s'
  ∧ (∀ r, is_Some (m_SNodeSessions s' !! r) →
          is_Some (m_SNodeSessions s !! r) ∨ r ∈ m_SNodeKeys s').

(** No identity, no address and no session is recorded yet. *)
Definition unused s : Prop :=
  m_KeyToIP s = ∅ ∧ m_IPToKey s = ∅ ∧ m_IPActivity s = []
  ∧ m_ActiveExits s = [] ∧ m_SNodeSessions s = ∅ ∧ m_ChosenExits s = ∅.
End predicates.

(** ** Pump predicates *)

Section pump_predicates.
Context {EL SL : Type} `{!Collaborators EL SL}.
Implicit Types s : ExitEndpoint EL SL.


(** Every non-null pointer of [m_ChosenExits] points at a session that
    [m_ActiveExits] still owns. *)
Definition chosen_live s : Prop :=
  ∀ k p, m_ChosenExits s !! k = Some p → p ≠ nullptr →
         is_Some (exit_at p (m_ActiveExits s)).

(** What the choosing loop of Tick has established for the key [k] once it
    has visited the entries [seen]: no pointer while every visited session of
    [k] looks dead, otherwise a pointer to a visited session of [k] that does
    not look dead and is at least as recent as every other such session. *)
Definition chosen_for (now : llarp_time_t) (seen : list (PubKey * Endpoint EL))
    (chosen : gmap PubKey ptr) (k : PubKey) : Prop :=
  match chosen !! k with
  | None => ∀ e, (k, e) ∈ seen → ep_LooksDead e now = true
  | Some p =>
      ∃ e, (k, e) ∈ seen ∧ ep_addr e = p ∧ ep_LooksDead e now = false
           ∧ ∀ e', (k, e') ∈ seen → ep_LooksDead e' now = false →
                   createdAt e' ≤ createdAt e
  end.
End pump_predicates.

(** ** Runs of the endpoint *)

Section runs.
Context {EL SL : Type} `{!Collaborators EL SL}.
Implicit Types s : ExitEndpoint EL SL.

(** OnInetPacket, given what [pkt.Load(buf)] made of the buffer: a packet
    that parsed joins the queue. *)
Definition OnInetPacket (loaded : option Pkt_t) s : ExitEndpoint EL SL :=
  match loaded with
  | Some pkt => set_InetToNetwork (m_InetToNetwork s ++ [pkt]) s
  | None => s
  end.

(** A sequence of GetIPForIdent calls, each with its key and the clock
    reading it saw. *)
Fixpoint GetIPForIdent_each (calls : list (PubKey * llarp_time_t)) s
  : ExitEndpoint EL SL :=
  match calls with
  | [] => s
  | (pk, now) :: r => GetIPForIdent_each r (GetIPForIdent pk now s).2
  end.

(** The part of the endpoint that the address pool and the identity map
    work on. *)
Definition pool_view s :=
  (m_KeyToIP s, m_IPToKey s, m_IPActivity s,
   m_IfAddr s, m_HigestAddr s, m_NextAddr s).

(** The endpoints that arise from a configured, unused endpoint through the
    operations above. *)
Inductive reachable : ExitEndpoint EL SL → Prop :=
| reach_configured host mask s :
    unused s → 0 ≤ host < UINT32_MOD → 0 ≤ mask < UINT32_MOD →
    reachable (SetOption_ifaddr host mask s)
| reach_GetIPForIdent pk now s :
    reachable s → reachable (GetIPForIdent pk now s).2
| reach_AllocateNewExit pk path want now s :
    reachable s → reachable (AllocateNewExit pk path want now s).2
| reach_ObtainServiceNodeIP r now s :
    reachable s → reachable (ObtainServiceNodeIP r now s).2
| reach_KickIdentOffExit pk s :
    reachable s → reachable (KickIdentOffExit pk s)
| reach_HandleHookedDNSMessage msg now s ok s' out :
    reachable s → HandleHookedDNSMessage msg now s = Some (ok, s', out) →
    reachable s'
| reach_OnInetPacket loaded s :
    reachable s → reachable (OnInetPacket loaded s)
| reach_Flush s s' :
    reachable s → Flush s = Some s' → reachable s'
| reach_Tick now s s' :
    reachable s → Tick now s = Some s' → reachable s'.
End runs.

(** ** A sample link layer

    A small instance of the collaborator interface on which the endpoint can
    be run: a session is alive and unexpired up to fixed deadlines, counts its
    ticks, and queues packets up to a capacity. *)

Module Sample.
Record link := mkLink {
  dead_from : llarp_time_t;
  expired_from : llarp_time_t;
  ticks : Z;
  queued : list (list Z);
  capacity : nat
}.

Definition fresh_link : link := mkLink 1000 2000 0 [] 2.

Definition link_tick (l : link) : link :=
  mkLink (dead_from l) (expired_from l) (ticks l + 1) (queued l) (capacity l).

Definition link_queue (l : link) (buf : list Z) : bool * link :=
  if bool_decide (length (queued l) < capacity l)%nat
  then (true, mkLink (dead_from l) (expired_from l) (ticks l)
                     (queued l ++ [buf]) (capacity l))
  else (false, l).

Definition link_flush (l : link) : bool * link :=
  (true, mkLink (dead_from l) (expired_from l) (ticks l) [] (capacity l)).

Definition decode_ptr (name : string) : option huint32_t :=
  if String.eqb name "2.0.0.10.in-addr.arpa." then Some 0x0A000002 else None.

Definition key_of_name (name : string) : option RouterID :=
  if String.eqb name "aaaa.snode." then Some 7%N
  else if String.eqb name "bbbb.snode." then Some 8%N
  else None.

#[export] Instance collaborators : Collaborators link link := {|
  ep_link_new := λ _ _ _ _, fresh_link;
  ep_IsExpired := λ e now, bool_decide (expired_from (ep_link e) ≤ now);
  ep_LooksDead := λ e now, bool_decide (dead_from (ep_link e) ≤ now);
  ep_Tick := λ e _, link_tick (ep_link e);
  ep_QueueInboundTraffic := λ e buf, link_queue (ep_link e) buf;
  ep_Flush := λ e, link_flush (ep_link e);
  sn_link_new := λ _ _, fresh_link;
  sn_IsExpired := λ x now, bool_decide (expired_from (sn_link x) ≤ now);
  sn_Tick := λ x _, link_tick (sn_link x);
  sn_QueueUpstreamTraffic := λ x pkt _, link_queue (sn_link x) (pkt_Buffer pkt);
  sn_Flush := λ x, link_flush (sn_link x);
  ExitPadSize := 464;
  TransitHopPreviousIsRouter := λ _ _, false;
  DecodePTR := decode_ptr;
  RouterID_FromString := key_of_name;
  RouterID_ToString := λ _, "aaaa.snode.";
  router_pubkey := 7%N;
  ExpandV4 := λ ip, Z.lor 0x0000ffff00000000 ip;
  netmask_ipv6_bits := λ n, 2 ^ 128 - 2 ^ (128 - n)
|}.

Definition St := ExitEndpoint link link.

(** A freshly constructed endpoint. *)
Definition blank : St :=
  mkExit ∅ ∅ ∅ ∅ [] ∅ ∅ [] 0 0 0 (mkIPRange 0 0) false [] 1%N [].

(** [ifaddr=10.0.0.1/30]. *)
Definition lan30 : St := SetOption_ifaddr 0x0A000001 0xFFFFFFFC blank.

Definition PK_A : PubKey := 1%N.
Definition PK_B : PubKey := 2%N.
Definition PK_C : PubKey := 3%N.

(** Two clients on 10.0.0.1/30, each with a session: the pool is exhausted. *)
Definition two_clients : St :=
  (AllocateNewExit PK_B 21%N false 2
     (AllocateNewExit PK_A 20%N false 1 lan30).2).2.

(** A client with a session on path 20 and an outbound session to service
    node 7;
    then the same endpoint after a tick, which builds m_ChosenExits; then
    after two packets more for the client, which fill its session. *)
Definition before_tick : St :=
  (ObtainServiceNodeIP 7%N 2 (AllocateNewExit PK_A 20%N false 1 lan30).2).2.

Definition after_tick : St := default blank (Tick 3 before_tick).

(** Two clients with their sessions chosen by a tick; a third client
    arrives at time 4 and the first, the least recently active, is kicked;
    the first comes back at time 5 and the second is kicked: the first now
    holds 10.0.0.3. *)
Definition two_ticked : St := default blank (Tick 3 two_clients).

Definition third_client : St :=
  (AllocateNewExit PK_C 22%N false 4 two_ticked).2.

Definition first_returns : St :=
  (AllocateNewExit PK_A 23%N false 5 third_client).2.

Definition pkt_first : Pkt_t := mkPkt 0x0A000003 [1].

Definition pkt_unmapped : Pkt_t := mkPkt 0x0A000009 [9].
Definition pkt_snode : Pkt_t := mkPkt 0x0A000003 [3].
Definition pkt_client : Pkt_t := mkPkt 0x0A000002 [2].


(** One client with two sessions, created at 10 and at 20. *)
Definition two_sessions : St :=
  (AllocateNewExit PK_A 21%N false 20
     (AllocateNewExit PK_A 20%N false 10 lan30).2).2.


Definition query_A (name : string) : Message :=
  mkMessage [mkQuestion name qTypeA] [].

Definition query_PTR (name : string) : Message :=
  mkMessage [mkQuestion name qTypePTR] [].

(** An endpoint whose range is the SIIT image of 10.0.0.1/30. *)
Definition lan30_siit : St :=
  mkExit ∅ ∅ ∅ ∅ [] ∅ ∅ [] 0x0A000001 0x0A000003 0x0A000001
    (mkIPRange (ExpandV4 0x0A000001) (netmask_ipv6_bits 126))
    false [] 1%N [].

(** Two clients take the two addresses of 10.0.0.1/30 at times 1 and 2; the
    first is kicked; a third client asks for an address at time 3. *)
Definition both_mapped : St :=
  (GetIPForIdent PK_B 2 (GetIPForIdent PK_A 1 lan30).2).2.

Definition first_kicked : St := KickIdentOffExit PK_A both_mapped.

Definition third_mapped : St := (GetIPForIdent PK_C 3 first_kicked).2.

(** The exhausted pool with both addresses last marked at the same time, in
    the two orders in which the activity table may hand out its entries. *)
Definition tie_low_first : St :=
  (GetIPForIdent PK_B 5 (GetIPForIdent PK_A 5 lan30).2).2.

Definition tie_high_first : St :=
  set_IPActivity (reverse (m_IPActivity tie_low_first)) tie_low_first.

(** [ifaddr=10.0.0.1/32]: a range without a client address. *)
Definition lan32 : St := SetOption_ifaddr 0x0A000001 0xFFFFFFFF blank.
End Sample.

(** ** Path index and session removal *)

Section path_index.
Context {EL SL : Type} `{!Collaborators EL SL}.
Implicit Types s : ExitEndpoint EL SL.

(** [m_ActiveExits.find(pk)]: an entry under the key; of several, the one
    that iteration meets first. *)
Fixpoint find_exit (pk : PubKey) (l : list (PubKey * Endpoint EL))
  : option (Endpoint EL) :=
  match l with
  | [] => None
  | (k, e) :: r => if decide (k = pk) then Some e else find_exit pk r
  end.

(** The returned [Endpoint*] is the session's address, or [nullptr]. *)
Definition FindEndpointByPath (path : PathID_t) s : ptr :=
  match m_Paths s !! path with
  | None => nullptr
  | Some pk =>
      match find_exit pk (m_ActiveExits s) with
      | Some e => if decide (ep_PubKey e = pk) then ep_addr e else nullptr
      | None => nullptr
      end
  end.

Definition UpdateEndpointPath (remote : PubKey) (next : PathID_t) s
  : bool * ExitEndpoint EL SL :=
  match m_Paths s !! next with
  | Some _ => (false, s)
  | None => (true, set_Paths (<[next := remote]> (m_Paths s)) s)
  end.

Definition DelEndpointInfo (path : PathID_t) s : ExitEndpoint EL SL :=
  set_Paths (delete path (m_Paths s)) s.

(** The loop of RemoveExit over [equal_range(ep->PubKey())]: the first entry
    under the key whose [LocalPath()] is that of [ep] is erased, and the loop
    ends there. *)
Fixpoint erase_first_exit (pk : PubKey) (path : PathID_t)
    (l : list (PubKey * Endpoint EL)) : list (PubKey * Endpoint EL) :=
  match l with
  | [] => []
  | (k, e) :: r =>
      if decide (k = pk ∧ ep_LocalPath e = path) then r
      else (k, e) :: erase_first_exit pk path r
  end.

Definition RemoveExit (ep : Endpoint EL) s : ExitEndpoint EL SL :=
  set_ActiveExits
    (erase_first_exit (ep_PubKey ep) (ep_LocalPath ep) (m_ActiveExits s)) s.

(** Every session is filed under its own key and lives at a non-null
    address. *)
Definition exits_keyed s : Prop :=
  ∀ k e, (k, e) ∈ m_ActiveExits s → ep_PubKey e = k ∧ ep_addr e ≠ nullptr.
End path_index.


(** ** Further state predicates *)

Section more_predicates.
Context {EL SL : Type}.
Implicit Types s : ExitEndpoint EL SL.

(** Every address the endpoint has a record of lies above the gateway
    address. *)
Definition above_gateway s : Prop :=
  ∀ ip, known_address ip s → m_IfAddr s < ip.

(** What identifies a session of [m_ActiveExits]: everything but its link
    state. *)
Definition exit_ident (x : PubKey * Endpoint EL) :=
  (x.1, ep_addr x.2, ep_PubKey x.2, ep_LocalPath x.2, ep_inbound x.2,
   ep_ip x.2, createdAt x.2).

(** What the packet handlers and the session flushes may change, and no
    more: link states, null entries of [m_ChosenExits] for keys that had
    none, and the log. *)
Definition flush_frame s s' : Prop :=
  pool_view s' = pool_view s
  ∧ m_InetToNetwork s' = m_InetToNetwork s
  ∧ m_Paths s' = m_Paths s ∧ m_SNodeKeys s' = m_SNodeKeys s
  ∧ m_PermitExit s' = m_PermitExit s
  ∧ dom (m_SNodeSessions s') = dom (m_SNodeSessions s)
  ∧ map exit_ident (m_ActiveExits s') = map exit_ident (m_ActiveExits s)
  ∧ (∀ k, m_ChosenExits s' !! k = m_ChosenExits s !! k
          ∨ (m_ChosenExits s !! k = None
             ∧ m_ChosenExits s' !! k = Some nullptr)).
End more_predicates.


(** ** Ranges and versions (net/ip_range.hpp, router_version.hpp) *)

Definition UINT128_MOD : Z := 2 ^ 128.

Module IPRangeMore.
Import IPRangeOps.

Section highest.
(** [bits::count_bits_128], declared outside the sources. *)
Variable count_bits_128 : Z → Z.

(** [HighestAddr()], in 128-bit arithmetic.  The shift is taken within
    128 bits; with no mask bit counted the source shifts by the full width,
    which it leaves to the integer type. *)
Definition HighestAddr (r : IPRange) : Z :=
  ((Z.land (addr r) (netmask_bits r)
    + Z.shiftl 1 (128 - count_bits_128 (netmask_bits r)) mod UINT128_MOD)
     mod UINT128_MOD - 1) mod UINT128_MOD.

(** [Contains(const IPRange& other)]. *)
Definition Contains_range (r other : IPRange) : bool :=
  Contains r (addr other) && Contains r (HighestAddr other).
End highest.

(** [operator<]. *)
Definition lt (a b : IPRange) : bool :=
  bool_decide (Z.land (addr a) (netmask_bits a)
               < Z.land (addr b) (netmask_bits b))
  || bool_decide (netmask_bits a < netmask_bits b).

(** The netmask of an [n]-bit prefix, and the first address of a range. *)
Definition prefix_mask (n : Z) : Z := 2 ^ 128 - 2 ^ (128 - n).
Definition base (r : IPRange) : Z := Z.land (addr r) (netmask_bits r).
End IPRangeMore.

(** [Version_t] is [std::array< uint16_t, 3 >], compared in dictionary
    order. *)
Record RouterVersion := mkRouterVersion {
  m_Version : Z * Z * Z;
  m_ProtoVersion : Z
}.

Definition Version_lt (a b : Z * Z * Z) : bool :=
  let '(a0, a1, a2) := a in
  let '(b0, b1, b2) := b in
  bool_decide (a0 < b0)
  || (bool_decide (a0 = b0)
      && (bool_decide (a1 < b1)
          || (bool_decide (a1 = b1) && bool_decide (a2 < b2)))).

(** [RouterVersion::operator<]. *)
Definition RouterVersion_lt (a b : RouterVersion) : bool :=
  bool_decide (m_ProtoVersion a < m_ProtoVersion b)
  || Version_lt (m_Version a) (m_Version b).


(** ** Chunked writes (ev/ev.cpp) *)

(** How a run of llarp_tcp_conn_async_write is seen to end: it returns a
    flag, or, [NoFuel], the loop was still running when the bound of the
    recursion below was reached. *)
Inductive write_end := Wrote (ok : bool) | NoFuel.

Record write_run (C : Type) := mkRun {
  run_end : write_end;
  run_conn : C;
  run_calls : list (list Z * Z);
  run_closed : bool
}.
Arguments mkRun {C}.
Arguments run_end {C}.
Arguments run_conn {C}.
Arguments run_calls {C}.
Arguments run_closed {C}.

(** The bytes of the buffer among the [n] bytes at [base + cur].  The loop
    itself never compares [cur] with the end of the buffer: once a call has
    reported more bytes than were left, the later calls are handed addresses
    beyond it, where the buffer has no bytes to give. *)
Definition bytes_at (data : list Z) (cur n : Z) : list Z :=
  if bool_decide (0 ≤ cur < Z.of_nat (length data)) then
    take (Z.to_nat n) (drop (Z.to_nat cur) data)
  else [].

(** The bytes that the calls took: of each chunk, as many as the call
    returned. *)
Definition accepted (calls : list (list Z * Z)) : list Z :=
  concat (map (λ call, take (Z.to_nat call.2) call.1) calls).

Section tcp.
(** A connection with its [write] and [close] callbacks, and the constant
    [EV_WRITE_BUF_SZ] of ev.h.  [run_calls] lists the chunks handed to
    [write] with what each call returned. *)
Context {C : Type}.
Variable EV_WRITE_BUF_SZ : Z.
Variable write : C → list Z → Z * C.
Variable close : C → C.

Fixpoint write_loop (fuel : nat) (data : list Z) (cur sz : Z) (c : C)
    (calls : list (list Z * Z)) : write_run C :=
  if bool_decide (EV_WRITE_BUF_SZ < sz) then
    match fuel with
    | O => mkRun NoFuel c calls false
    | S fuel' =>
        let chunk := bytes_at data cur EV_WRITE_BUF_SZ in
        let '(amount, c1) := write c chunk in
        if bool_decide (amount ≤ 0) then
          mkRun (Wrote false) (close c1) (calls ++ [(chunk, amount)]) true
        else
          write_loop fuel' data (cur + amount)
            ((sz - amount) mod SIZE_MOD) c1 (calls ++ [(chunk, amount)])
    end
  else
    let chunk := bytes_at data cur sz in
    let '(amount, c1) := write c chunk in
    mkRun (Wrote (bool_decide (0 < amount))) c1
          (calls ++ [(chunk, amount)]) false.

(** The function with one turn of the loop for each byte of the buffer,
    which is as many as a callback that reports no more bytes than it was
    given can use.  What the loop does with another callback is read off
    [write_loop] at any number of turns. *)
Definition llarp_tcp_conn_async_write (c : C) (data : list Z) : write_run C :=
  write_loop (length data) data 0 (Z.of_nat (length data)) c [].

(** A [write] that reports no more bytes than it was given. *)
Definition well_behaved : Prop :=
  ∀ c chunk, (write c chunk).1 ≤ Z.of_nat (length chunk).

End tcp.


(** ** Configuration and start (exit.cpp SetOption, Start;
       ev.cpp llarp_ev_add_tun) *)

(** Modelled from the spec: the configuration of the tun device
    ([llarp_tun_io], declared in ev.h outside the sources) as far as the
    endpoint fills it; the two character arrays hold C strings. *)
Record llarp_tun_io := mkTun {
  tun_ifaddr : string;
  tun_netmask : Z;
  tun_ifname : string
}.

Inductive ConfigLog :=
| LocalDnsSetTo (host : string) (port : Z)
| AddingUpstreamDns (host : string) (port : Z)
| IfaddrNotCidr (v : string)
| SetIfaddrRange (ifaddr : string) (netmask : Z) (lo hi : huint32_t)
| SetIfname (name : string)
| InvalidIfaddrOnTun (ifaddr : string)
| InvalidIfnameOnTun (ifname : string).

(** What Start calls outside the endpoint. *)
Inductive StartCall :=
| TunListen (tun : llarp_tun_io)
| ResolverStart (local : string * Z) (upstream : list (string * Z)).

(** What the configuration code takes from outside the sources:
    [IsTrueValue], [std::atoi], [llarp::Addr(host).xtohl()],
    [netmask_ipv4_bits], the sizes of the two character arrays of
    [llarp_tun_io], [tun_listen] of the event loop and [Start] of the
    resolver. *)
Class Platform := {
  IsTrueValue : string → bool;
  atoi : string → Z;
  Addr_xtohl : string → huint32_t;
  netmask_ipv4_bits : Z → huint32_t;
  sizeof_ifaddr : nat;
  sizeof_ifname : nat;
  tun_listen : llarp_tun_io → bool;
  Resolver_Start : string * Z → list (string * Z) → bool
}.

(** [c_str()] as a C function reads it: up to the first zero character. *)
Fixpoint c_str (s : string) : string :=
  match s with
  | EmptyString => EmptyString
  | String c r => if Ascii.eqb c Ascii.zero then EmptyString
                  else String c (c_str r)
  end.

(** [strncpy(dst, src, n)] into a zeroed array of [n + 1] characters. *)
Definition strncpy (src : string) (n : nat) : string :=
  String.substring 0 n (c_str src).

(** [v.substr(0, pos)] and [v.substr(pos)]. *)
Definition substr_to (pos : nat) (v : string) : string :=
  String.substring 0 pos v.

Definition substr_from (pos : nat) (v : string) : string :=
  String.substring pos (String.length v - pos) v.

(** Modelled from the spec: the endpoint with the further members that
    SetOption and Start work on, declared in handlers/exit.hpp outside the
    sources; a resolver address is its host and port. *)
Record Handler (EL SL : Type) := mkHandler {
  endpoint : ExitEndpoint EL SL;
  m_ShouldInitTun : bool;
  m_Tun : llarp_tun_io;
  m_LocalResolverAddr : string * Z;
  m_UpstreamResolvers : list (string * Z);
  m_ConfigLog : list ConfigLog
}.
Arguments mkHandler {EL SL}.
Arguments endpoint {EL SL}.
Arguments m_ShouldInitTun {EL SL}.
Arguments m_Tun {EL SL}.
Arguments m_LocalResolverAddr {EL SL}.
Arguments m_UpstreamResolvers {EL SL}.
Arguments m_ConfigLog {EL SL}.

Section configuration.
Context {EL SL : Type} `{!Platform}.
#[local] Abbreviation State := (ExitEndpoint EL SL).
Implicit Types h : Handler EL SL.

(** The members as the constructor leaves them. *)
Definition constructed (s : State) : Handler EL SL :=
  mkHandler s true (mkTun "" 0 "") ("127.0.0.1", 53) [] [].

Definition set_PermitExit (x : bool) (s : State) : State :=
  mkExit (m_KeyToIP s) (m_IPToKey s) (m_SNodeKeys s) (m_SNodeSessions s)
    (m_ActiveExits s) (m_ChosenExits s) (m_Paths s) (m_IPActivity s)
    (m_IfAddr s) (m_HigestAddr s) (m_NextAddr s) (m_OurRange s)
    x (m_InetToNetwork s) (heap_next s) (m_Log s).

Definition config_log (e : ConfigLog) h : Handler EL SL :=
  mkHandler (endpoint h) (m_ShouldInitTun h) (m_Tun h)
    (m_LocalResolverAddr h) (m_UpstreamResolvers h) (m_ConfigLog h ++ [e]).

(** The resolver address and port that the two dns options read from their
    value; the port is a [uint16_t]. *)
Definition host_port (v : string) : string * Z :=
  match str_find ":" v with
  | Some pos => (substr_to pos v, atoi (substr_from (S pos) v) mod 2 ^ 16)
  | None => (v, 53)
  end.

Definition SetOption (k v : string) h : bool * Handler EL SL :=
  if bool_decide (k = "type") && bool_decide (v = "null") then
    (true, mkHandler (endpoint h) false (m_Tun h) (m_LocalResolverAddr h)
             (m_UpstreamResolvers h) (m_ConfigLog h))
  else if bool_decide (k = "exit") then
    (true, mkHandler (set_PermitExit (IsTrueValue v) (endpoint h))
             (m_ShouldInitTun h) (m_Tun h) (m_LocalResolverAddr h)
             (m_UpstreamResolvers h) (m_ConfigLog h))
  else
    let h1 :=
      if bool_decide (k = "local-dns") then
        let a := host_port v in
        config_log (LocalDnsSetTo a.1 a.2)
          (mkHandler (endpoint h) (m_ShouldInitTun h) (m_Tun h) a
             (m_UpstreamResolvers h) (m_ConfigLog h))
      else h in
    let h2 :=
      if bool_decide (k = "upstream-dns") then
        let a := host_port v in
        config_log (AddingUpstreamDns a.1 a.2)
          (mkHandler (endpoint h1) (m_ShouldInitTun h1) (m_Tun h1)
             (m_LocalResolverAddr h1) (m_UpstreamResolvers h1 ++ [a])
             (m_ConfigLog h1))
      else h1 in
    let ifaddr_done :=
      if bool_decide (k = "ifaddr") then
        match str_find "/" v with
        | None => None
        | Some pos =>
            let nmask_str := substr_from (1 + pos) v in
            let host_str := substr_to pos v in
            let tun := mkTun (strncpy host_str (sizeof_ifaddr - 1))
                         (atoi nmask_str) (tun_ifname (m_Tun h2)) in
            let s := SetOption_ifaddr (Addr_xtohl host_str)
                       (netmask_ipv4_bits (tun_netmask tun)) (endpoint h2) in
            Some (config_log
                    (SetIfaddrRange (tun_ifaddr tun) (tun_netmask tun)
                       (m_IfAddr s) (m_HigestAddr s))
                    (mkHandler s (m_ShouldInitTun h2) tun
                       (m_LocalResolverAddr h2) (m_UpstreamResolvers h2)
                       (m_ConfigLog h2)))
        end
      else Some h2 in
    match ifaddr_done with
    | None => (false, config_log (IfaddrNotCidr v) h2)
    | Some h3 =>
        let h4 :=
          if bool_decide (k = "ifname") then
            let tun := mkTun (tun_ifaddr (m_Tun h3)) (tun_netmask (m_Tun h3))
                         (strncpy v (sizeof_ifname - 1)) in
            config_log (SetIfname (tun_ifname tun))
              (mkHandler (endpoint h3) (m_ShouldInitTun h3) tun
                 (m_LocalResolverAddr h3) (m_UpstreamResolvers h3)
                 (m_ConfigLog h3))
          else h3 in
        if bool_decide (k = "exit-whitelist") then (true, h4)
        else if bool_decide (k = "exit-blacklist") then (true, h4)
        else (true, h4)
    end.

(** llarp_ev_add_tun, as built for a system other than Windows: the flag,
    the error it logs and whether [tun_listen] was called. *)
Definition llarp_ev_add_tun (tun : llarp_tun_io)
  : bool * list ConfigLog * list StartCall :=
  if bool_decide (tun_ifaddr tun = "") || bool_decide (tun_ifaddr tun = "auto")
  then (false, [InvalidIfaddrOnTun (tun_ifaddr tun)], [])
  else if bool_decide (tun_ifname tun = "")
          || bool_decide (tun_ifname tun = "auto")
  then (false, [InvalidIfnameOnTun (tun_ifname tun)], [])
  else (tun_listen tun, [], [TunListen tun]).

(** Start: the flag, the handler afterwards and the calls made outside. *)
Definition Start h : bool * Handler EL SL * list StartCall :=
  if m_ShouldInitTun h then
    let '(ok, logs, calls) := llarp_ev_add_tun (m_Tun h) in
    let h1 := mkHandler (endpoint h) (m_ShouldInitTun h) (m_Tun h)
                (m_LocalResolverAddr h) (m_UpstreamResolvers h)
                (m_ConfigLog h ++ logs) in
    if negb ok then (false, h1, calls)
    else
      let ups := if bool_decide (length (m_UpstreamResolvers h1) = 0%nat)
                 then m_UpstreamResolvers h1 ++ [("8.8.8.8", 53)]
                 else m_UpstreamResolvers h1 in
      let h2 := mkHandler (endpoint h1) (m_ShouldInitTun h1) (m_Tun h1)
                  (m_LocalResolverAddr h1) ups (m_ConfigLog h1) in
      (Resolver_Start (m_LocalResolverAddr h2) (m_UpstreamResolvers h2), h2,
       calls ++ [ResolverStart (m_LocalResolverAddr h2)
                   (m_UpstreamResolvers h2)])
  else (true, h, []).

End configuration.


(** ** Further sample inputs *)

Module MoreSamples.
Import Sample IPRangeMore.

(** One client with its session on path 20, and that session as
    AllocateNewExit made it. *)
Definition one_client : St := (AllocateNewExit PK_A 20%N false 1 lan30).2.

Definition its_session : Endpoint link :=
  new_endpoint 1%N PK_A 20%N true 0x0A000002 1.

(** The session of [after_tick]: ticked once. *)
Definition ticked_session : Endpoint link :=
  with_ep_link its_session (link_tick fresh_link).

Definition three_calls : list (PubKey * llarp_time_t) :=
  [(PK_A, 1); (PK_B, 2); (PK_C, 3)].

(** 10.0.0.1/30 with the gateway address in the SIIT range, after a forward
    query for service node 7. *)
Definition siit_snode : St := (ObtainServiceNodeIP 7%N 1 lan30_siit).2.

(** The number of bits set among the low 128. *)
Definition popcount_128 (x : Z) : Z :=
  Z.of_nat (length (filter (λ i, Z.testbit x (Z.of_nat i) = true) (seq 0 128))).

(** The addresses 4 to 7, 0 to 7 (given by the address 5) and 6 to 7. *)
Definition block_4_7 : IPRange := mkIPRange 4 (prefix_mask 126).
Definition block_0_7_at_5 : IPRange := mkIPRange 5 (prefix_mask 125).
Definition block_6_7 : IPRange := mkIPRange 6 (prefix_mask 127).

(** A connection that takes three bytes of each chunk at most and keeps the
    bytes it took. *)
Definition take_three (c : list Z) (chunk : list Z) : Z * list Z :=
  (Z.of_nat (length (take 3 chunk)), c ++ take 3 chunk).

Definition ten_bytes : list Z := [1; 2; 3; 4; 5; 6; 7; 8; 9; 10].

(** A connection that reports 2^62 bytes whatever it is given. *)
Definition report_huge (c : list Z) (chunk : list Z) : Z * list Z :=
  (2 ^ 62, c).

(** A decimal [atoi]: leading white space, an optional sign, then digits
    up to the first character that is none. *)
Fixpoint atoi_from (acc : Z) (s : string) : Z :=
  match s with
  | EmptyString => acc
  | String c r =>
      let n := Z.of_nat (Ascii.nat_of_ascii c) in
      if bool_decide (48 ≤ n ≤ 57) then atoi_from (acc * 10 + (n - 48)) r
      else acc
  end.

Fixpoint skip_space (s : string) : string :=
  match s with
  | EmptyString => s
  | String c r =>
      let n := Z.of_nat (Ascii.nat_of_ascii c) in
      if bool_decide (n = 32 ∨ 9 ≤ n ≤ 13) then skip_space r else s
  end.

Definition atoi_signed (s : string) : Z :=
  match skip_space s with
  | EmptyString => 0
  | String c r =>
      let n := Z.of_nat (Ascii.nat_of_ascii c) in
      if bool_decide (n = 45) then - atoi_from 0 r
      else if bool_decide (n = 43) then atoi_from 0 r
      else atoi_from 0 (String c r)
  end.

#[export] Instance platform : Platform := {|
  IsTrueValue := λ v, bool_decide (v = "true");
  atoi := atoi_signed;
  Addr_xtohl := λ host, if bool_decide (host = "10.0.0.1") then 0x0A000001 else 0;
  netmask_ipv4_bits := λ n, 2 ^ 32 - 2 ^ (32 - n);
  sizeof_ifaddr := 128;
  sizeof_ifname := 17;
  tun_listen := λ _, true;
  Resolver_Start := λ _ _, true
|}.

Definition fresh_handler : Handler link link := constructed blank.

(** Two packets queued after the tick, one for an unmapped address and one
    for the client, and the endpoint after the flush. *)
Definition queued_two : St :=
  OnInetPacket (Some pkt_client) (OnInetPacket (Some pkt_unmapped) after_tick).

Definition flushed_two : St := default blank (Flush queued_two).


Definition three_loads : list (option Pkt_t) :=
  [Some pkt_client; None; Some pkt_snode].

End MoreSamples.


(** * Properties *)

(** ** Containers *)

Section container_facts.
Context {K : Type} `{Countable K} {V : Type}.
Implicit Types m : gmap K V.

Lemma subscript_delete d k m : delete k (subscript d k m).2 = delete k m.
Proof.
  unfold subscript. destruct (m !! k) eqn:E; simpl; [done|].
  by rewrite delete_insert_eq.
Qed.

Lemma subscript_present d k m v : m !! k = Some v → subscript d k m = (v, m).
Proof. intros E. unfold subscript. by rewrite E. Qed.

Lemma subscript_absent d k m : m !! k = None → subscript d k m = (d, <[k := d]> m).
Proof. intros E. unfold subscript. by rewrite E. Qed.

Lemma emplace_absent k v m : m !! k = None → emplace k v m = (true, <[k := v]> m).
Proof. intros E. unfold emplace. by rewrite E. Qed.

Lemma emplace_present k v w m : m !! k = Some w → emplace k v m = (false, m).
Proof. intros E. unfold emplace. by rewrite E. Qed.
End container_facts.

(** ** Identity map *)

Section identity_map.
Context {EL SL : Type} `{!Collaborators EL SL}.
#[local] Abbreviation State := (ExitEndpoint EL SL).
Implicit Types s : State.

Lemma HasLocalMappedAddrFor_true pk s :
  HasLocalMappedAddrFor pk s = true ↔ is_Some (m_KeyToIP s !! pk).
Proof. unfold HasLocalMappedAddrFor. apply bool_decide_eq_true. Qed.

Lemma HasLocalMappedAddrFor_false pk s :
  HasLocalMappedAddrFor pk s = false ↔ m_KeyToIP s !! pk = None.
Proof.
  unfold HasLocalMappedAddrFor. rewrite bool_decide_eq_false.
  by rewrite eq_None_not_Some.
Qed.

Lemma KickIdentOffExit_unfold pk s :
  KickIdentOffExit pk s =
  set_ActiveExits (erase_exits pk (m_ActiveExits s))
    (set_IPToKey (delete (default 0 (m_KeyToIP s !! pk)) (m_IPToKey s))
       (set_KeyToIP (delete pk (m_KeyToIP s)) (log (Kicking pk) s))).
Proof.
  unfold KickIdentOffExit. simpl. destruct (m_KeyToIP s !! pk) eqn:E.
  - by rewrite (subscript_present _ _ _ _ E).
  - rewrite (subscript_absent _ _ _ E). simpl. by rewrite delete_insert_eq.
Qed.

Lemma AllocateNewAddress_KeyToIP s :
  ∃ pk', m_KeyToIP (AllocateNewAddress s).2 = m_KeyToIP s
       ∨ m_KeyToIP (AllocateNewAddress s).2 = delete pk' (m_KeyToIP s).
Proof.
  unfold AllocateNewAddress. case_bool_decide.
  - exists zero_pk. by left.
  - destruct (oldest_scan _ _ _) as [found mn].
    destruct (subscript zero_pk found (m_IPToKey s)) as [pk i1].
    exists pk. right. by rewrite KickIdentOffExit_unfold.
Qed.

Lemma AllocateNewAddress_keeps_unmapped pk s :
  m_KeyToIP s !! pk = None → m_KeyToIP (AllocateNewAddress s).2 !! pk = None.
Proof.
  intros E. destruct (AllocateNewAddress_KeyToIP s) as [pk' [-> | ->]]; [done|].
  destruct (decide (pk' = pk)) as [->|Hne].
  - apply lookup_delete_eq.
  - by rewrite lookup_delete_ne.
Qed.

(** The assertion that closes GetIPForIdent, [assert(HasLocalMappedAddrFor(pk))],
    holds on every path, the two early returns included: the key is mapped to
    the address that is returned. *)
Lemma GetIPForIdent_mapped pk now s :
  m_KeyToIP (GetIPForIdent pk now s).2 !! pk = Some (GetIPForIdent pk now s).1.
Proof.
  unfold GetIPForIdent.
  destruct (HasLocalMappedAddrFor pk s) eqn:Hm; simpl.
  - apply HasLocalMappedAddrFor_true in Hm as [ip Hip].
    rewrite (subscript_present _ _ _ _ Hip). simpl. done.
  - apply HasLocalMappedAddrFor_false in Hm.
    pose proof (AllocateNewAddress_keeps_unmapped pk s Hm) as Hk.
    destruct (AllocateNewAddress s) as [found s1]. simpl in Hk.
    rewrite (emplace_absent _ _ _ Hk). simpl.
    destruct (emplace found pk (m_IPToKey s1)) as [ok2 i1]. 
    destruct ok2; simpl.
    + destruct (HasLocalMappedAddrFor pk _); simpl; apply lookup_insert_eq.
    + apply lookup_insert_eq.
Qed.

Lemma GetIPForIdent_HasLocalMappedAddrFor pk now s :
  HasLocalMappedAddrFor pk (GetIPForIdent pk now s).2 = true.
Proof.
  apply HasLocalMappedAddrFor_true. rewrite GetIPForIdent_mapped. eauto.
Qed.

(** A mapped key is answered from the map, which stays as it is. *)
Lemma GetIPForIdent_known pk now s ip :
  m_KeyToIP s !! pk = Some ip →
  GetIPForIdent pk now s = (ip, MarkIPActive ip now s).
Proof.
  intros Hip. unfold GetIPForIdent.
  assert (HasLocalMappedAddrFor pk s = true) as ->
    by (apply HasLocalMappedAddrFor_true; eauto).
  simpl. rewrite (subscript_present _ _ _ _ Hip).
  by destruct s.
Qed.
End identity_map.

(** ** Kicking and admission *)

Section registry.
Context {EL SL : Type} `{!Collaborators EL SL}.
#[local] Abbreviation State := (ExitEndpoint EL SL).
Implicit Types s : State.

Lemma AllocateNewAddress_evict s :
  ¬ m_NextAddr s < m_HigestAddr s →
  AllocateNewAddress s =
  let found := (oldest_scan (m_IPActivity s) 0 llarp_time_max).1 in
  let pi := subscript zero_pk found (m_IPToKey s) in
  (found, KickIdentOffExit pi.1 (set_IPToKey pi.2 s)).
Proof.
  intros Hge. unfold AllocateNewAddress.
  rewrite bool_decide_eq_false_2 by done.
  destruct (oldest_scan _ _ _) as [found mn]. simpl.
  by destruct (subscript zero_pk found (m_IPToKey s)).
Qed.

Lemma AllocateNewAddress_evict_bound s pk :
  ¬ m_NextAddr s < m_HigestAddr s →
  m_IPToKey s !! (AllocateNewAddress s).1 = Some pk →
  (AllocateNewAddress s).2 = KickIdentOffExit pk s.
Proof.
  intros Hge. rewrite (AllocateNewAddress_evict s Hge). simpl. intros Hb.
  rewrite (subscript_present _ _ _ _ Hb). simpl. by destruct s.
Qed.

(** C5.  KickIdentOffExit(pk) erases pk from m_KeyToIP, erases the address pk
    was mapped to from m_IPToKey, and erases every entry of m_ActiveExits
    under the key pk; m_SNodeKeys and m_SNodeSessions are left exactly as they
    were.  When AllocateNewAddress reclaims an address (m_NextAddr is not
    below m_HigestAddr), the endpoint it leaves is the one this kick produces
    for the key bound to the reclaimed address. *)
Theorem KickIdentOffExit_effect pk s :
  let s' := KickIdentOffExit pk s in
  m_KeyToIP s' !! pk = None
  ∧ (∀ k, k ≠ pk → m_KeyToIP s' !! k = m_KeyToIP s !! k)
  ∧ (∀ ip, m_KeyToIP s !! pk = Some ip →
       m_IPToKey s' !! ip = None
       ∧ ∀ j, j ≠ ip → m_IPToKey s' !! j = m_IPToKey s !! j)
  ∧ (∀ x, x ∈ m_ActiveExits s' ↔ x ∈ m_ActiveExits s ∧ x.1 ≠ pk)
  ∧ m_SNodeKeys s' = m_SNodeKeys s
  ∧ m_SNodeSessions s' = m_SNodeSessions s
  ∧ (¬ m_NextAddr s < m_HigestAddr s →
     ∀ bound, m_IPToKey s !! (AllocateNewAddress s).1 = Some bound →
       (AllocateNewAddress s).2 = KickIdentOffExit bound s).
Proof.
  intros s'. subst s'. rewrite KickIdentOffExit_unfold. simpl.
  split; [apply lookup_delete_eq|].
  split; [intros k Hk; by rewrite lookup_delete_ne|].
  split.
  { intros ip Hip. rewrite Hip. simpl. split; [apply lookup_delete_eq|].
    intros j Hj. by rewrite lookup_delete_ne. }
  split.
  { intros x. unfold erase_exits. by rewrite list_elem_of_filter, (comm and). }
  split; [done|]. split; [done|].
  intros Hge bound Hb. by apply AllocateNewAddress_evict_bound.
Qed.

Lemma AllocateNewExit_refused pk path now s :
  m_PermitExit s = false → AllocateNewExit pk path true now s = (false, s).
Proof. intros Hp. unfold AllocateNewExit. by rewrite Hp. Qed.

Lemma AllocateNewExit_accepted pk path wantInternet now s :
  wantInternet && negb (m_PermitExit s) = false →
  AllocateNewExit pk path wantInternet now s =
  let gi := GetIPForIdent pk now s in
  let s2 := if TransitHopPreviousIsRouter path pk
            then set_SNodeKeys ({[pk]} ∪ m_SNodeKeys gi.2) gi.2 else gi.2 in
  let e := new_endpoint (heap_next s2) pk path (negb wantInternet) gi.1 now in
  (true,
   set_Paths (<[path := pk]> (m_Paths s2))
     (set_heap_next (heap_next s2 + 1)%N
        (set_ActiveExits ((pk, e) :: m_ActiveExits s2) s2))).
Proof.
  intros Hg. unfold AllocateNewExit. rewrite Hg.
  pose proof (GetIPForIdent_HasLocalMappedAddrFor pk now s) as Hm.
  destruct (GetIPForIdent pk now s) as [ip s1]. simpl in *.
  f_equal. unfold HasLocalMappedAddrFor in *. simpl.
  by destruct (TransitHopPreviousIsRouter path pk).
Qed.

(** C6.  AllocateNewExit(pk, path, wantInternet) returns false and leaves the
    endpoint as it was when wantInternet is set and m_PermitExit is not.  In
    every other case it returns true, which is the value of
    HasLocalMappedAddrFor(pk) afterwards: pk is mapped to the address
    GetIPForIdent gave, m_ActiveExits has gained exactly one session, built
    from pk, path, inbound = !wantInternet and that address, and m_Paths
    maps path to pk.  With m_PermitExit false, a call with wantInternet false
    succeeds. *)
Theorem AllocateNewExit_spec pk path wantInternet now s :
  (wantInternet = true → m_PermitExit s = false →
     AllocateNewExit pk path wantInternet now s = (false, s))
  ∧ (wantInternet && negb (m_PermitExit s) = false →
     ∃ ip s1 s',
       GetIPForIdent pk now s = (ip, s1)
       ∧ AllocateNewExit pk path wantInternet now s = (true, s')
       ∧ HasLocalMappedAddrFor pk s' = true
       ∧ m_KeyToIP s' !! pk = Some ip
       ∧ m_ActiveExits s' =
           (pk, new_endpoint (heap_next s1) pk path (negb wantInternet) ip now)
           :: m_ActiveExits s1
       ∧ ep_inbound
           (new_endpoint (heap_next s1) pk path (negb wantInternet) ip now)
         = negb wantInternet
       ∧ m_Paths s' !! path = Some pk)
  ∧ (m_PermitExit s = false →
     (AllocateNewExit pk path false now s).1 = true).
Proof.
  split; [|split].
  - intros -> Hp. by apply AllocateNewExit_refused.
  - intros Hg. rewrite (AllocateNewExit_accepted _ _ _ _ _ Hg).
    pose proof (GetIPForIdent_mapped pk now s) as Hm.
    destruct (GetIPForIdent pk now s) as [ip s1]. simpl in *.
    eexists ip, s1, _. split; [done|]. split; [done|].
    assert (∀ t : State, m_KeyToIP t = m_KeyToIP s1 →
              HasLocalMappedAddrFor pk t = true) as Hh.
    { intros t Ht. apply HasLocalMappedAddrFor_true. rewrite Ht, Hm. eauto. }
    destruct (TransitHopPreviousIsRouter path pk); simpl;
      (split; [by apply Hh|]); (split; [done|]); (split; [done|]);
      (split; [done|]); apply lookup_insert_eq.
  - intros Hp. by rewrite AllocateNewExit_accepted.
Qed.
End registry.

(** ** Address pool *)

Lemma oldest_scan_keep l found min :
  (∀ x, x ∈ l → min ≤ x.2) → oldest_scan l found min = (found, min).
Proof.
  induction l as [|[i u] r IH]; intros Hall; simpl; [done|].
  rewrite bool_decide_eq_false_2.
  - apply IH. intros x Hx. apply Hall. by right.
  - specialize (Hall (i, u)). simpl in Hall.
    assert (min ≤ u) by (apply Hall; left). lia.
Qed.

(** The scan settles on the first entry, in iteration order, that carries the
    least timestamp. *)
Lemma oldest_scan_first l1 ip t l2 found min :
  (∀ x, x ∈ l1 → t < x.2) → (∀ x, x ∈ l2 → t ≤ x.2) → t < min →
  oldest_scan (l1 ++ (ip, t) :: l2) found min = (ip, t).
Proof.
  revert found min. induction l1 as [|[i u] r IH]; intros found min H1 H2 Hlt.
  - simpl. rewrite bool_decide_eq_true_2 by done. by apply oldest_scan_keep.
  - simpl. assert (t < u) by (apply (H1 (i, u)); left).
    assert (∀ x, x ∈ r → t < x.2) by (intros x Hx; apply H1; by right).
    case_bool_decide; by apply IH.
Qed.

Lemma oldest_scan_origin l found min :
  (oldest_scan l found min).1 = found
  ∨ ∃ t, ((oldest_scan l found min).1, t) ∈ l.
Proof.
  revert found min. induction l as [|[i u] r IH]; intros found min; simpl.
  - by left.
  - case_bool_decide.
    + destruct (IH i u) as [-> | [t Ht]].
      * right. exists u. left.
      * right. exists t. by right.
    + destruct (IH found min) as [-> | [t Ht]].
      * by left.
      * right. exists t. by right.
Qed.

Lemma activity_assign_elem ip t l x :
  x ∈ activity_assign ip t l → x = (ip, t) ∨ x ∈ l.
Proof.
  induction l as [|[i u] r IH]; simpl.
  - intros Hx. apply list_elem_of_singleton in Hx. by left.
  - case_decide as Hi.
    + intros [-> | Hx]%elem_of_cons; [left; by subst|]. right. by right.
    + intros [-> | Hx]%elem_of_cons; [right; left|].
      destruct (IH Hx) as [-> | Hr]; [by left|]. right. by right.
Qed.

Lemma activity_assign_find ip t l :
  activity_find ip (activity_assign ip t l) = Some t.
Proof.
  induction l as [|[i u] r IH]; simpl.
  - by rewrite decide_True.
  - case_decide as Hi; simpl.
    + by rewrite decide_True.
    + by rewrite decide_False.
Qed.

Lemma activity_assign_find_ne ip t l j :
  j ≠ ip → activity_find j (activity_assign ip t l) = activity_find j l.
Proof.
  intros Hj. induction l as [|[i u] r IH]; simpl.
  - by rewrite decide_False.
  - case_decide as Hi; simpl.
    + subst i. by rewrite !decide_False.
    + case_decide; [done|apply IH].
Qed.

Lemma activity_find_elem ip t l : activity_find ip l = Some t → (ip, t) ∈ l.
Proof.
  induction l as [|[i u] r IH]; simpl; [done|].
  case_decide as Hi.
  - intros [= ->]. subst. left.
  - intros Hf. right. by apply IH.
Qed.

Lemma activity_elem_find ip t l :
  (ip, t) ∈ l → is_Some (activity_find ip l).
Proof.
  induction l as [|[i u] r IH]; simpl.
  - by intros ?%elem_of_nil.
  - intros [[= <- <-] | Hx]%elem_of_cons.
    + rewrite decide_True by done. eauto.
    + case_decide; eauto.
Qed.

Section pool.
Context {EL SL : Type} `{!Collaborators EL SL}.
#[local] Abbreviation State := (ExitEndpoint EL SL).
Implicit Types s : State.

Lemma SetOption_ifaddr_bounds host mask s :
  0 ≤ host < UINT32_MOD → 0 ≤ mask < UINT32_MOD →
  let s' := SetOption_ifaddr host mask s in
  m_IfAddr s' = host ∧ m_NextAddr s' = host
  ∧ host ≤ m_HigestAddr s' ∧ m_HigestAddr s' < UINT32_MOD.
Proof.
  intros Hh Hm. simpl. split; [done|]. split; [done|].
  set (x := Z.lxor mask (UINT32_MOD - 1)).
  assert (0 ≤ x) as Hx0.
  { apply Z.lxor_nonneg. unfold UINT32_MOD. split; intros; lia. }
  split.
  - pose proof (Z.sub_lor_l_same_l x host) as Hs.
    assert (0 ≤ Z.land x (Z.lnot host)) by (apply Z.land_nonneg; by left).
    lia.
  - assert (0 ≤ Z.lor host x) as Hl0 by (apply Z.lor_nonneg; lia).
    destruct (decide (Z.lor host x = 0)) as [->|Hnz]; [by unfold UINT32_MOD|].
    unfold UINT32_MOD. apply Z.log2_lt_pow2; [lia|].
    rewrite Z.log2_lor by lia.
    assert (Z.log2 host < 32).
    { destruct (decide (host = 0)) as [->|]; [done|].
      apply Z.log2_lt_pow2; unfold UINT32_MOD in *; lia. }
    assert (Z.log2 x < 32).
    { pose proof (Z.log2_lxor mask (UINT32_MOD - 1)) as Hlx.
      unfold x. 
      assert (Z.log2 mask < 32).
      { destruct (decide (mask = 0)) as [->|]; [done|].
        apply Z.log2_lt_pow2; unfold UINT32_MOD in *; lia. }
      assert (Z.log2 (UINT32_MOD - 1) = 31) as H31 by reflexivity.
      unfold UINT32_MOD in *. lia. }
    lia.
Qed.

Lemma SetOption_ifaddr_pool_ok host mask s :
  0 ≤ host < UINT32_MOD → 0 ≤ mask < UINT32_MOD → unused s →
  pool_ok (SetOption_ifaddr host mask s).
Proof.
  intros Hh Hm (Hk & Hi & Ha & _).
  destruct (SetOption_ifaddr_bounds host mask s Hh Hm) as (E1 & E2 & E3 & E4).
  unfold pool_ok. rewrite E1, E2. repeat split; try lia.
  intros ip [[k Hkk] | [Hii | [t Ht]]]; simpl in *.
  - by rewrite Hk in Hkk.
  - rewrite Hi in Hii. by destruct Hii.
  - rewrite Ha in Ht. by apply elem_of_nil in Ht.
Qed.

(** A step that moves no pool bound and records no address beyond the counter
    keeps the pool in order. *)
Lemma pool_ok_step s s' :
  pool_ok s →
  m_IfAddr s' = m_IfAddr s → m_HigestAddr s' = m_HigestAddr s →
  m_NextAddr s' = m_NextAddr s →
  (∀ ip, known_address ip s' → known_address ip s ∨ ip ≤ m_NextAddr s) →
  pool_ok s'.
Proof.
  intros (H0 & H1 & H2 & H3 & H4) E1 E2 E3 Hk.
  unfold pool_ok. rewrite E1, E2, E3. repeat split; try done.
  intros ip Hip. destruct (Hk ip Hip); auto.
Qed.

Lemma KickIdentOffExit_pool_ok pk s : pool_ok s → pool_ok (KickIdentOffExit pk s).
Proof.
  intros Hok. apply (pool_ok_step s); try done;
    rewrite KickIdentOffExit_unfold; try done.
  intros ip [[k Hk] | [Hi | Ha]]; left; simpl in *.
  - left. exists k. apply lookup_delete_Some in Hk. tauto.
  - right; left. destruct Hi as [v Hv]. apply lookup_delete_Some in Hv.
    exists v. tauto.
  - right; right. done.
Qed.

Lemma AllocateNewAddress_pool_ok s :
  pool_ok s →
  pool_ok (AllocateNewAddress s).2
  ∧ (AllocateNewAddress s).1 ≤ m_NextAddr (AllocateNewAddress s).2.
Proof.
  intros Hok. pose proof Hok as (H0 & H1 & H2 & H3 & H4).
  destruct (decide (m_NextAddr s < m_HigestAddr s)) as [Hlt|Hge].
  - unfold AllocateNewAddress. rewrite bool_decide_eq_true_2 by done. simpl.
    rewrite Z.mod_small by (unfold UINT32_MOD in *; lia).
    split; [|lia]. unfold pool_ok. simpl. repeat split; try lia.
    intros ip Hip. assert (ip ≤ m_NextAddr s) by (apply H4; exact Hip). lia.
  - rewrite (AllocateNewAddress_evict s Hge). simpl.
    set (found := (oldest_scan (m_IPActivity s) 0 llarp_time_max).1).
    assert (0 = found ∨ ∃ t, (found, t) ∈ m_IPActivity s) as Hf.
    { destruct (oldest_scan_origin (m_IPActivity s) 0 llarp_time_max)
        as [E | E]; [left; by rewrite <- E | by right]. }
    assert (found ≤ m_NextAddr s) as Hle.
    { destruct Hf as [<- | [t Ht]]; [lia|].
      apply H4. right; right. eauto. }
    assert (pool_ok (set_IPToKey (subscript zero_pk found (m_IPToKey s)).2 s))
      as Hok1.
    { apply (pool_ok_step s); try done.
      intros ip [[k Hk] | [Hi | Ha]]; simpl in *.
      - left; left; eauto.
      - unfold subscript in Hi. destruct (m_IPToKey s !! found) eqn:E; simpl in Hi.
        + left; right; left; done.
        + destruct (decide (ip = found)) as [->|Hne]; [by right|].
          rewrite lookup_insert_ne in Hi by done. left; right; left; done.
      - left; right; right; done. }
    split; [by apply KickIdentOffExit_pool_ok|].
    by rewrite KickIdentOffExit_unfold.
Qed.
(** C3 (amended).  While m_NextAddr is below m_HigestAddr, AllocateNewAddress
    returns ++m_NextAddr: in a pool in order, an address above m_IfAddr, at
    most m_HigestAddr, of which the endpoint has no record.  Otherwise, when
    the least timestamp of m_IPActivity is below the maximum time value, it
    returns the address of the first entry, in the iteration order of
    m_IPActivity, that carries the least timestamp, after kicking the key
    that m_IPToKey binds to that address. *)
Theorem AllocateNewAddress_spec s :
  (m_NextAddr s < m_HigestAddr s → pool_ok s →
     (AllocateNewAddress s).1 = m_NextAddr s + 1
     ∧ m_NextAddr (AllocateNewAddress s).2 = m_NextAddr s + 1
     ∧ m_IfAddr s < (AllocateNewAddress s).1 ≤ m_HigestAddr s
     ∧ ¬ known_address (AllocateNewAddress s).1 s)
  ∧ (¬ m_NextAddr s < m_HigestAddr s →
     ∀ l1 ip t l2,
       m_IPActivity s = l1 ++ (ip, t) :: l2 →
       (∀ x, x ∈ l1 → t < x.2) → (∀ x, x ∈ l2 → t ≤ x.2) →
       t < llarp_time_max →
       (AllocateNewAddress s).1 = ip
       ∧ ∀ pk, m_IPToKey s !! ip = Some pk →
           (AllocateNewAddress s).2 = KickIdentOffExit pk s).
Proof.
  split.
  - intros Hlt (H0 & H1 & H2 & H3 & H4).
    unfold AllocateNewAddress. rewrite bool_decide_eq_true_2 by done. simpl.
    rewrite Z.mod_small by (unfold UINT32_MOD in *; lia).
    repeat split; try lia.
    intros Hk. apply H4 in Hk. lia.
  - intros Hge l1 ip t l2 Hl Hl1 Hl2 Ht.
    assert ((AllocateNewAddress s).1 = ip) as Hip.
    { rewrite (AllocateNewAddress_evict s Hge). simpl.
      by rewrite Hl, (oldest_scan_first l1 ip t l2). }
    split; [done|]. intros pk Hpk.
    apply AllocateNewAddress_evict_bound; [done|]. by rewrite Hip.
Qed.
End pool.

(** ** The pool stays in order *)

Section pool_runs.
Context {EL SL : Type} `{!Collaborators EL SL}.
#[local] Abbreviation State := (ExitEndpoint EL SL).
Implicit Types s : State.

Lemma pool_ok_view s s' : pool_view s' = pool_view s → pool_ok s → pool_ok s'.
Proof.
  unfold pool_view. intros [= E1 E2 E3 E4 E5 E6] Hok.
  apply (pool_ok_step s); try done.
  intros ip Hip. left. unfold known_address in *. by rewrite E1, E2, E3 in Hip.
Qed.

Lemma pool_view_logs (es : list LogEntry) s :
  pool_view (foldl (λ a e, log e a) s es) = pool_view s.
Proof.
  revert s. induction es as [|e es IH]; intros s; simpl; [done|].
  by rewrite IH.
Qed.

Lemma MarkIPActive_pool_ok ip now s :
  pool_ok s → ip ≤ m_NextAddr s → pool_ok (MarkIPActive ip now s).
Proof.
  intros Hok Hle. apply (pool_ok_step s); try done.
  intros j [Hk | [Hi | [t Ht]]]; simpl in *.
  - left; by left.
  - left; right; by left.
  - apply activity_assign_elem in Ht as [[= -> ->] | Ht]; [by right|].
    left; right; right; eauto.
Qed.

Lemma GetIPForIdent_pool_ok pk now s :
  pool_ok s → pool_ok (GetIPForIdent pk now s).2.
Proof.
  intros Hok. unfold GetIPForIdent.
  destruct (HasLocalMappedAddrFor pk s) eqn:Hm; simpl.
  - apply HasLocalMappedAddrFor_true in Hm as [ip Hip].
    rewrite (subscript_present _ _ _ _ Hip). simpl.
    apply MarkIPActive_pool_ok.
    + by apply (pool_ok_view s).
    + simpl. destruct Hok as (_ & _ & _ & _ & H4). apply H4. left. eauto.
  - destruct (AllocateNewAddress_pool_ok s Hok) as [Hok1 Hle].
    destruct (AllocateNewAddress s) as [found s1]. simpl in *.
    assert (∀ t : State,
              m_IfAddr t = m_IfAddr s1 → m_HigestAddr t = m_HigestAddr s1 →
              m_NextAddr t = m_NextAddr s1 → m_IPActivity t = m_IPActivity s1 →
              (∀ k ip, m_KeyToIP t !! k = Some ip →
                       m_KeyToIP s1 !! k = Some ip ∨ ip = found) →
              (∀ ip, is_Some (m_IPToKey t !! ip) →
                     is_Some (m_IPToKey s1 !! ip) ∨ ip = found) →
              pool_ok t) as Hgen.
    { intros t E1 E2 E3 E4 Hk Hi. apply (pool_ok_step s1); try done.
      intros ip [[k Hkk] | [Hii | Ha]].
      - destruct (Hk _ _ Hkk) as [? | ->]; [left; left; eauto | by right].
      - destruct (Hi _ Hii) as [? | ->]; [left; right; by left | by right].
      - left; right; right. by rewrite <- E4. }
    assert (∀ (m : gmap PubKey huint32_t) k ip,
              (emplace pk found m).2 !! k = Some ip →
              m !! k = Some ip ∨ ip = found) as Hek.
    { intros m k ip. unfold emplace. destruct (m !! pk) eqn:E; simpl; [by left|].
      intros [[_ <-] | [_ ?]]%lookup_insert_Some; [by right | by left]. }
    assert (∀ (m : gmap huint32_t PubKey) ip,
              is_Some ((emplace found pk m).2 !! ip) →
              is_Some (m !! ip) ∨ ip = found) as Hei.
    { intros m ip. unfold emplace. destruct (m !! found) eqn:E; simpl; [by left|].
      intros [v [[<- _] | [_ ?]]%lookup_insert_Some]; [by right | left; eauto]. }
    destruct (emplace pk found (m_KeyToIP s1)) as [ok1 k1] eqn:Ek.
    assert (k1 = (emplace pk found (m_KeyToIP s1)).2) as -> by by rewrite Ek.
    destruct ok1; simpl.
    + destruct (emplace found pk (m_IPToKey s1)) as [ok2 i1] eqn:Ei.
      assert (i1 = (emplace found pk (m_IPToKey s1)).2) as -> by by rewrite Ei.
      destruct ok2; simpl.
      * clear Hm.
        apply MarkIPActive_pool_ok.
        -- destruct (HasLocalMappedAddrFor pk _); apply Hgen; simpl; auto.
        -- by destruct (HasLocalMappedAddrFor pk _).
      * apply Hgen; simpl; auto.
    + apply Hgen; simpl; auto.
Qed.

Lemma ObtainServiceNodeIP_pool_view r now s :
  pool_view (ObtainServiceNodeIP r now s).2 = pool_view (GetIPForIdent r now s).2.
Proof.
  unfold ObtainServiceNodeIP. destruct (GetIPForIdent r now s) as [ip s1].
  by case_bool_decide.
Qed.

Lemma AllocateNewExit_pool_view pk path want now s :
  pool_view (AllocateNewExit pk path want now s).2 = pool_view s
  ∨ pool_view (AllocateNewExit pk path want now s).2
    = pool_view (GetIPForIdent pk now s).2.
Proof.
  unfold AllocateNewExit. destruct (want && negb (m_PermitExit s)); [by left|].
  right. destruct (GetIPForIdent pk now s) as [ip s1]. simpl.
  by destruct (TransitHopPreviousIsRouter path pk).
Qed.

Lemma try_snode_session_pool_view pk pkt s :
  pool_view (try_snode_session pk pkt s).2 = pool_view s.
Proof.
  unfold try_snode_session. case_bool_decide; [|done].
  destruct (m_SNodeSessions s !! pk); [|done].
  by destruct (sn_QueueUpstreamTraffic _ _ _).
Qed.

Lemma HandleInetPacket_pool_view pkt s s' :
  HandleInetPacket pkt s = Some s' → pool_view s' = pool_view s.
Proof.
  unfold HandleInetPacket. destruct (m_IPToKey s !! pkt_dst pkt) as [pk|].
  - pose proof (try_snode_session_pool_view pk pkt s) as Hv.
    destruct (try_snode_session pk pkt s) as [sent s1]. simpl in Hv.
    destruct sent; [by intros [= <-]|].
    destruct (subscript nullptr pk (m_ChosenExits s1)) as [ep c1].
    case_decide; [by intros [= <-]|]. simpl.
    destruct (exit_at ep (m_ActiveExits s1)) as [e|]; [|done].
    destruct (ep_QueueInboundTraffic e (pkt_Buffer pkt)) as [ok l].
    destruct ok; by intros [= <-].
  - by intros [= <-].
Qed.

Lemma Process_pool_view q s s' : Process q s = Some s' → pool_view s' = pool_view s.
Proof.
  revert s. induction q as [|pkt q IH]; intros s; simpl.
  - by intros [= <-].
  - destruct (HandleInetPacket pkt s) as [s1|] eqn:E; [|done].
    intros Hp. rewrite (IH _ Hp). by apply HandleInetPacket_pool_view in E.
Qed.

Lemma Flush_pool_view s s' : Flush s = Some s' → pool_view s' = pool_view s.
Proof.
  unfold Flush.
  destruct (Process _ _) as [s1|] eqn:E; [|done]. intros [= <-].
  apply Process_pool_view in E. unfold flush_sessions.
  assert (∀ x (t : State), pool_view (set_SNodeSessions x t) = pool_view t)
    as Hs by done.
  assert (∀ x (t : State), pool_view (set_ActiveExits x t) = pool_view t)
    as Ha by done.
  by rewrite pool_view_logs, Hs, pool_view_logs, Ha.
Qed.

Lemma Tick_pool_view now s s' : Tick now s = Some s' → pool_view s' = pool_view s.
Proof.
  unfold Tick. destruct (pick_and_tick _ _ _ _) as [[c l]|]; [|done].
  by intros [= <-].
Qed.

Lemma HandleHookedDNSMessage_pool_view msg now s ok s' out :
  HandleHookedDNSMessage msg now s = Some (ok, s', out) →
  pool_view s' = pool_view s
  ∨ ∃ r, pool_view s' = pool_view (GetIPForIdent r now s).2.
Proof.
  unfold HandleHookedDNSMessage. destruct (questions msg) as [|q ?]; [done|].
  repeat case_bool_decide;
    repeat match goal with
           | |- context [match ?x with _ => _ end] => destruct x eqn:?
           end;
    try (intros [= <- <- <-]; by left); try done.
  intros [= <- <- <-]. right. eexists.
  erewrite <- ObtainServiceNodeIP_pool_view.
  match goal with H : ObtainServiceNodeIP _ _ _ = _ |- _ => by rewrite H end.
Qed.

(** Every endpoint that a run reaches has its pool in order. *)
Lemma reachable_pool_ok s : reachable s → pool_ok s.
Proof.
  induction 1 as [host mask s Hu Hh Hm | pk now s _ IH | pk path want now s _ IH
                 | r now s _ IH | pk s _ IH | msg now s ok s' out _ IH Hd
                 | loaded s _ IH | s s' _ IH Hf | now s s' _ IH Ht].
  - by apply SetOption_ifaddr_pool_ok.
  - by apply GetIPForIdent_pool_ok.
  - destruct (AllocateNewExit_pool_view pk path want now s) as [E | E].
    + by apply (pool_ok_view s).
    + apply (pool_ok_view _ _ E). by apply GetIPForIdent_pool_ok.
  - apply (pool_ok_view _ _ (ObtainServiceNodeIP_pool_view r now s)).
    by apply GetIPForIdent_pool_ok.
  - by apply KickIdentOffExit_pool_ok.
  - destruct (HandleHookedDNSMessage_pool_view _ _ _ _ _ _ Hd) as [E | [r E]].
    + by apply (pool_ok_view s).
    + apply (pool_ok_view _ _ E). by apply GetIPForIdent_pool_ok.
  - apply (pool_ok_view s); [|done]. by destruct loaded.
  - apply (pool_ok_view s); [|done]. by apply Flush_pool_view.
  - apply (pool_ok_view s); [|done]. by apply Tick_pool_view in Ht.
Qed.
End pool_runs.

(** ** The identity map stays paired without a separate kick *)

Lemma activity_assign_dom ip t l j :
  is_Some (activity_find j (activity_assign ip t l))
  ↔ j = ip ∨ is_Some (activity_find j l).
Proof.
  destruct (decide (j = ip)) as [->|Hj].
  - rewrite activity_assign_find. split; eauto.
  - rewrite activity_assign_find_ne by done. split; [by right|].
    by intros [? | ?].
Qed.

Lemma activity_assign_nonempty ip t l : activity_assign ip t l ≠ [].
Proof. destruct l as [|[i u] r]; simpl; [done|]. by case_decide. Qed.

(** With every timestamp below the starting minimum, the scan of a table
    that is not empty ends on one of its entries. *)
Lemma oldest_scan_picks l found min :
  l ≠ [] → (∀ ip t, (ip, t) ∈ l → t < min) →
  ∃ t, ((oldest_scan l found min).1, t) ∈ l.
Proof.
  destruct l as [|[i u] r]; [done|]. intros _ Hall. simpl.
  rewrite bool_decide_eq_true_2 by (apply (Hall i); left).
  destruct (oldest_scan_origin r i u) as [-> | [t Ht]].
  - exists u. left.
  - exists t. by right.
Qed.

Section pairing.
Context {EL SL : Type} `{!Collaborators EL SL}.
#[local] Abbreviation State := (ExitEndpoint EL SL).
Implicit Types s : State.

Lemma SetOption_ifaddr_paired host mask s :
  unused s → host < Z.lor host (Z.lxor mask (UINT32_MOD - 1)) →
  paired (SetOption_ifaddr host mask s).
Proof.
  intros (Hk & Hi & Ha & _) Hroom. unfold paired. simpl.
  rewrite Hk, Hi, Ha. split; [|split; [|split]].
  - intros k ip. by rewrite !lookup_empty.
  - intros ip. simpl. rewrite lookup_empty. split; by intros [? ?].
  - by intros ip t ?%elem_of_nil.
  - done.
Qed.

(** What AllocateNewAddress hands to GetIPForIdent: an address that no key
    holds any more, in maps that are still inverses. *)
Lemma AllocateNewAddress_paired pk s :
  paired s → pool_ok s → m_KeyToIP s !! pk = None →
  let found := (AllocateNewAddress s).1 in
  let s1 := (AllocateNewAddress s).2 in
  (∀ k ip, m_KeyToIP s1 !! k = Some ip ↔ m_IPToKey s1 !! ip = Some k)
  ∧ m_KeyToIP s1 !! pk = None
  ∧ m_IPToKey s1 !! found = None
  ∧ m_IPActivity s1 = m_IPActivity s
  ∧ (∀ ip, ip = found ∨ is_Some (activity_find ip (m_IPActivity s))
           ↔ ip = found ∨ is_Some (m_IPToKey s1 !! ip)).
Proof.
  intros (P1 & P2 & P3 & P4) Hok Hpk. simpl.
  destruct (decide (m_NextAddr s < m_HigestAddr s)) as [Hlt|Hge].
  - pose proof Hok as (H0 & H1 & H2 & H3 & H4).
    unfold AllocateNewAddress. rewrite bool_decide_eq_true_2 by done. simpl.
    rewrite Z.mod_small by (unfold UINT32_MOD in *; lia).
    split; [done|]. split; [done|]. split.
    { apply eq_None_not_Some. intros Hsome.
      assert (m_NextAddr s + 1 ≤ m_NextAddr s); [|lia].
      apply H4. right; by left. }
    split; [done|]. intros ip. by rewrite P2.
  - rewrite (AllocateNewAddress_evict s Hge). simpl.
    set (found := (oldest_scan (m_IPActivity s) 0 llarp_time_max).1).
    assert (m_IPActivity s ≠ []) as Hne by (intros E; apply Hge, P4, E).
    destruct (oldest_scan_picks _ 0 llarp_time_max Hne P3) as [t Ht].
    fold found in Ht.
    assert (is_Some (m_IPToKey s !! found)) as [old Hold].
    { apply P2. by apply (activity_elem_find _ t). }
    assert (m_KeyToIP s !! old = Some found) as Hko by by apply P1.
    rewrite (subscript_present _ _ _ _ Hold). simpl.
    rewrite KickIdentOffExit_unfold. simpl. rewrite Hko. simpl.
    split; [|split; [|split; [|split]]].
    + intros k ip. rewrite !lookup_delete_Some, P1. split.
      * intros [Hk Hip]. split; [|done]. intros <-. rewrite Hold in Hip.
        by injection Hip.
      * intros [Hi Hip]. split; [|done]. intros <-.
        apply P1 in Hip. rewrite Hko in Hip. by injection Hip.
    + destruct (decide (old = pk)) as [->|]; [apply lookup_delete_eq|].
      by rewrite lookup_delete_ne.
    + apply lookup_delete_eq.
    + done.
    + intros ip. rewrite P2. destruct (decide (ip = found)) as [->|Hi].
      * split; by left.
      * by rewrite lookup_delete_ne.
Qed.

Lemma GetIPForIdent_paired pk now s :
  paired s → pool_ok s → now < llarp_time_max →
  paired (GetIPForIdent pk now s).2.
Proof.
  intros Hp Hok Hnow. pose proof Hp as (P1 & P2 & P3 & P4).
  unfold GetIPForIdent.
  destruct (HasLocalMappedAddrFor pk s) eqn:Hm; simpl.
  - apply HasLocalMappedAddrFor_true in Hm as [ip Hip].
    rewrite (subscript_present _ _ _ _ Hip). unfold paired. simpl.
    split; [done|]. split; [|split].
    + intros j. rewrite activity_assign_dom, P2. split; [|by right].
      intros [-> | ?]; [|done]. apply P1 in Hip. eauto.
    + intros j t [[= -> ->] | Hj]%activity_assign_elem; [done | eauto].
    + intros E. by apply activity_assign_nonempty in E.
  - apply HasLocalMappedAddrFor_false in Hm.
    destruct (AllocateNewAddress_paired pk s Hp Hok Hm)
      as (Q1 & Qk & Qi & Qa & Q2).
    destruct (AllocateNewAddress s) as [found s1]. simpl in *.
    rewrite (emplace_absent _ _ _ Qk). simpl.
    rewrite (emplace_absent _ _ _ Qi). simpl.
    assert (paired
              (MarkIPActive found now
                 (set_IPToKey (<[found := pk]> (m_IPToKey s1))
                    (set_KeyToIP (<[pk := found]> (m_KeyToIP s1)) s1)))) as Hgoal.
    { unfold paired. simpl. rewrite Qa. split; [|split; [|split]].
      - intros k ip. rewrite !lookup_insert_Some. split.
        + intros [[<- <-] | [Hk Hip]]; [by left|]. right.
          apply Q1 in Hip. split; [|done]. intros <-. by rewrite Qi in Hip.
        + intros [[<- <-] | [Hi Hip]]; [by left|]. right.
          apply Q1 in Hip. split; [|done]. intros <-. by rewrite Qk in Hip.
      - intros j. rewrite activity_assign_dom, lookup_insert_is_Some.
        specialize (Q2 j). split.
        + intros Hj. destruct (decide (found = j)) as [|Hne]; [by left|].
          right. split; [done|].
          destruct Q2 as [Q2 _]. destruct Q2 as [? | ?]; [| congruence | done].
          destruct Hj; [by left | by right].
        + intros [<- | [Hne Hj]]; [by left|].
          destruct Q2 as [_ Q2]. destruct Q2 as [? | ?]; [by right | | ];
            [by left | by right].
      - intros j t [[= -> ->] | Hj]%activity_assign_elem; [done | eauto].
      - intros E. by apply activity_assign_nonempty in E. }
    destruct (HasLocalMappedAddrFor pk _); exact Hgoal.
Qed.

(** For every sequence of GetIPForIdent calls on an endpoint configured with
    room for a client, under a clock that stays below the maximum time
    value: the two maps are inverses, and the addresses with an activity
    timestamp are the mapped ones. *)
Lemma GetIPForIdent_each_paired calls s :
  paired s → pool_ok s → Forall (λ c, c.2 < llarp_time_max) calls →
  paired (GetIPForIdent_each calls s) ∧ pool_ok (GetIPForIdent_each calls s).
Proof.
  revert s. induction calls as [|[pk now] r IH]; intros s Hp Hok Hall; simpl.
  - done.
  - apply Forall_cons in Hall as [Hnow Hall]. apply IH; [| |done].
    + by apply GetIPForIdent_paired.
    + by apply GetIPForIdent_pool_ok.
Qed.

Lemma GetIPForIdent_each_inverse calls host mask s0 pk ip :
  unused s0 → 0 ≤ host < UINT32_MOD → 0 ≤ mask < UINT32_MOD →
  host < Z.lor host (Z.lxor mask (UINT32_MOD - 1)) →
  Forall (λ c, c.2 < llarp_time_max) calls →
  let s := GetIPForIdent_each calls (SetOption_ifaddr host mask s0) in
  m_KeyToIP s !! pk = Some ip → m_IPToKey s !! ip = Some pk.
Proof.
  intros Hu Hh Hm Hroom Hall s Hpk.
  destruct (GetIPForIdent_each_paired calls (SetOption_ifaddr host mask s0))
    as [(P1 & _) _]; [by apply SetOption_ifaddr_paired
                     | by apply SetOption_ifaddr_pool_ok | done |].
  by apply P1.
Qed.

(** MarkIPActive stamps the address with the clock reading, so a clock that
    does not run backwards never lowers a timestamp. *)
Lemma MarkIPActive_timestamp ip now s :
  activity_find ip (m_IPActivity (MarkIPActive ip now s)) = Some now
  ∧ ∀ j, j ≠ ip →
         activity_find j (m_IPActivity (MarkIPActive ip now s))
         = activity_find j (m_IPActivity s).
Proof.
  simpl. split; [apply activity_assign_find|].
  intros j Hj. by apply activity_assign_find_ne.
Qed.
End pairing.

(** ** Packet pump *)

Section pump_facts.
Context {EL SL : Type} `{!Collaborators EL SL}.
#[local] Abbreviation State := (ExitEndpoint EL SL).
Implicit Types s : State.


Lemma try_snode_session_frame pk pkt s :
  let s1 := (try_snode_session pk pkt s).2 in
  m_ActiveExits s1 = m_ActiveExits s ∧ m_ChosenExits s1 = m_ChosenExits s
  ∧ m_Log s1 = m_Log s ∧ m_IPToKey s1 = m_IPToKey s.
Proof.
  unfold try_snode_session. case_bool_decide; [|done].
  destruct (m_SNodeSessions s !! pk); [|done].
  by destruct (sn_QueueUpstreamTraffic _ _ _).
Qed.

Lemma exit_at_store q p l' (l : list (PubKey * Endpoint EL)) :
  is_Some (exit_at q (exit_store p l' l)) ↔ is_Some (exit_at q l).
Proof.
  induction l as [|[k e] r IH]; simpl; [done|].
  destruct (decide (ep_addr e = p)) as [Hp|Hp]; simpl.
  - destruct (decide (ep_addr e = q)); [split; eauto | done].
  - destruct (decide (ep_addr e = q)); [split; eauto | done].
Qed.

Lemma HandleInetPacket_keeps_live pkt s :
  chosen_live s →
  ∃ s', HandleInetPacket pkt s = Some s' ∧ chosen_live s'.
Proof.
  intros Hlive. unfold HandleInetPacket.
  destruct (m_IPToKey s !! pkt_dst pkt) as [pk|]; [|by eexists].
  destruct (try_snode_session_frame pk pkt s) as (Ea & Ec & _ & _).
  destruct (try_snode_session pk pkt s) as [sent s1]. simpl in Ea, Ec.
  assert (chosen_live s1) as Hlive1.
  { unfold chosen_live. by rewrite Ea, Ec. }
  destruct sent; [by eexists|].
  unfold subscript. destruct (m_ChosenExits s1 !! pk) as [p|] eqn:Ep.
  - case_decide as Hp.
    + eexists. split; [done|]. unfold chosen_live in *. simpl. done.
    + simpl. destruct (Hlive1 _ _ Ep Hp) as [e He]. rewrite He.
      destruct (ep_QueueInboundTraffic e (pkt_Buffer pkt)) as [ok l].
      eexists. split; [done|].
      assert (chosen_live
                (set_ActiveExits (exit_store p l (m_ActiveExits s1)) s1)).
      { unfold chosen_live in *. simpl. intros k q Hq Hn.
        apply exit_at_store. eauto. }
      by destruct ok.
  - rewrite decide_True by done. eexists. split; [done|].
    unfold chosen_live in *. simpl. intros k q Hq Hn.
    apply lookup_insert_Some in Hq as [[_ <-] | [_ Hq]]; [done|eauto].
Qed.





Lemma Process_total q s : chosen_live s → is_Some (Process q s).
Proof.
  revert s. induction q as [|pkt q IH]; intros s Hlive; simpl; [eauto|].
  destruct (HandleInetPacket_keeps_live pkt s Hlive) as (s' & -> & Hl').
  by apply IH.
Qed.

Lemma Flush_total s : chosen_live s → is_Some (Flush s).
Proof.
  intros Hlive. unfold Flush.
  destruct (Process_total (m_InetToNetwork s) (set_InetToNetwork [] s))
    as [s1 ->]; [done | eauto].
Qed.

End pump_facts.

(** ** Tick *)

Section tick_facts.
Context {EL SL : Type} `{!Collaborators EL SL}.
#[local] Abbreviation State := (ExitEndpoint EL SL).
Implicit Types s : State.
Implicit Types l done : list (PubKey * Endpoint EL).

Lemma addrs_tick now l : addrs (map (tick_exit now) l) = addrs l.
Proof. unfold addrs. rewrite map_map. by apply map_ext. Qed.

Lemma exit_at_is_Some p l :
  is_Some (exit_at p l) ↔ ∃ x, x ∈ l ∧ ep_addr x.2 = p.
Proof.
  induction l as [|[k e] r IH]; simpl.
  - split; [by intros [? ?] | by intros (x & ?%elem_of_nil & _)].
  - case_decide as Hp.
    + split; [|eauto]. intros _. exists (k, e). split; [left | done].
    + rewrite IH. split.
      * intros (x & Hx & Ha). exists x. split; [by right | done].
      * intros (x & [-> | Hx]%elem_of_cons & Ha); [done | eauto].
Qed.

Lemma exit_at_elem p l e : exit_at p l = Some e → ∃ k, (k, e) ∈ l ∧ ep_addr e = p.
Proof.
  induction l as [|[k e0] r IH]; simpl; [done|].
  case_decide as Hp.
  - intros [= <-]. exists k. split; [left | done].
  - intros He. destruct (IH He) as (k' & Hin & Ha). exists k'. split; [by right | done].
Qed.

(** Distinct sessions live at distinct addresses, so a pointer reads back the
    session it was taken from. *)
Lemma exit_at_NoDup l k e :
  NoDup (addrs l) → (k, e) ∈ l → exit_at (ep_addr e) l = Some e.
Proof.
  induction l as [|[k0 e0] r IH]; simpl.
  - by intros _ ?%elem_of_nil.
  - intros [Hnotin Hnd]%NoDup_cons [[= <- <-] | Hin]%elem_of_cons.
    + by rewrite decide_True.
    + case_decide as Hp; [|by apply IH].
      exfalso. apply Hnotin. rewrite Hp. unfold addrs.
      apply list_elem_of_fmap. by exists (k, e).
Qed.

(** The loop visits every entry once: it returns, the container it leaves
    is the one it started on with each remaining entry ticked, and every
    pointer it has chosen is the address of an entry of that container. *)
Lemma pick_and_tick_runs now done l chosen :
  (∀ k p, chosen !! k = Some p → ∃ x, x ∈ done ∧ ep_addr x.2 = p) →
  ∃ chosen',
    pick_and_tick now done l chosen
    = Some (chosen', done ++ map (tick_exit now) l)
    ∧ ∀ k p, chosen' !! k = Some p →
             ∃ x, x ∈ done ++ map (tick_exit now) l ∧ ep_addr x.2 = p.
Proof.
  revert done chosen. induction l as [|[k e] r IH]; intros done chosen Hin; simpl.
  - rewrite app_nil_r. eauto.
  - assert (∀ c' : gmap PubKey ptr,
              (∀ k' p, c' !! k' = Some p →
                       chosen !! k' = Some p ∨ p = ep_addr e) →
              ∃ chosen',
                pick_and_tick now (done ++ [tick_exit now (k, e)]) r c'
                = Some (chosen', done ++ tick_exit now (k, e)
                                   :: map (tick_exit now) r)
                ∧ ∀ k' p, chosen' !! k' = Some p →
                          ∃ x, x ∈ done ++ tick_exit now (k, e)
                                     :: map (tick_exit now) r
                               ∧ ep_addr x.2 = p) as Hgo.
    { intros c' Hc'.
      destruct (IH (done ++ [tick_exit now (k, e)]) c') as (c'' & Hc'' & Hin'').
      - intros k' p Hp. destruct (Hc' _ _ Hp) as [Hold | ->].
        + destruct (Hin _ _ Hold) as (x & Hx & Ha). exists x.
          split; [|done]. apply elem_of_app. by left.
        + exists (tick_exit now (k, e)). split; [|done].
          apply elem_of_app. right. left.
      - exists c''. rewrite Hc'', <- app_assoc. split; [done|].
        intros k' p Hp. destruct (Hin'' _ _ Hp) as (x & Hx & Ha).
        exists x. by rewrite <- app_assoc in Hx. }
    assert (∀ k' p,
              (if negb (ep_LooksDead e now)
               then <[k := ep_addr e]> chosen else chosen) !! k' = Some p →
              chosen !! k' = Some p ∨ p = ep_addr e) as Hpick.
    { intros k' p. destruct (negb (ep_LooksDead e now)); [|by left].
      intros [[_ <-] | [_ ?]]%lookup_insert_Some; [by right | by left]. }
    destruct (chosen !! k) as [p|] eqn:Ep.
    + destruct (Hin _ _ Ep) as (x & Hx & Ha).
      assert (is_Some (exit_at p (done ++ (k, e) :: r))) as [c Hc].
      { apply exit_at_is_Some. exists x. split; [|done].
        apply elem_of_app. by left. }
      rewrite Hc. case_bool_decide; apply Hgo; [done | by left].
    + by apply Hgo.
Qed.

Lemma Tick_runs now s :
  ∃ chosen,
    Tick now s =
    Some (set_ActiveExits
            (map (tick_exit now)
                 (filter (λ x, ep_IsExpired x.2 now = false) (m_ActiveExits s)))
            (set_ChosenExits chosen
               (set_SNodeSessions
                  (filter (λ kx, sn_IsExpired kx.2 now = false)
                          (m_SNodeSessions s)) s)))
    ∧ ∀ k p, chosen !! k = Some p →
             ∃ x, x ∈ map (tick_exit now)
                        (filter (λ x, ep_IsExpired x.2 now = false)
                                (m_ActiveExits s))
                  ∧ ep_addr x.2 = p.
Proof.
  unfold Tick. simpl.
  destruct (pick_and_tick_runs now []
              (filter (λ x, ep_IsExpired x.2 now = false) (m_ActiveExits s)) ∅)
    as (chosen & Hc & Hin); [done|].
  rewrite Hc. simpl. by exists chosen.
Qed.

(** After a tick, every pointer of m_ChosenExits points at a session that
    m_ActiveExits owns. *)
Lemma Tick_chosen_live now s s' : Tick now s = Some s' → chosen_live s'.
Proof.
  destruct (Tick_runs now s) as (chosen & -> & Hin). intros [= <-].
  unfold chosen_live. simpl. intros k p Hp _.
  apply exit_at_is_Some. eauto.
Qed.

(** The choosing loop keeps [chosen_for] for every key. *)
Lemma pick_and_tick_chooses now seen l chosen chosen' l' :
  NoDup (addrs (seen ++ l)) →
  (∀ k, chosen_for now seen chosen k) →
  pick_and_tick now (map (tick_exit now) seen) l chosen = Some (chosen', l') →
  ∀ k, chosen_for now (seen ++ l) chosen' k.
Proof.
  revert seen chosen. induction l as [|[k e] r IH]; intros seen chosen Hnd Hinv.
  - simpl. intros [= <- <-]. by rewrite app_nil_r.
  - simpl. intros Hrun.
    assert (NoDup (addrs ((seen ++ [(k, e)]) ++ r))) as Hnd'
      by by rewrite <- app_assoc.
    assert (∀ c', (∀ j, chosen_for now (seen ++ [(k, e)]) c' j) →
                  pick_and_tick now (map (tick_exit now) (seen ++ [(k, e)])) r c'
                  = Some (chosen', l') →
                  ∀ j, chosen_for now (seen ++ (k, e) :: r) chosen' j) as Hgo.
    { intros c' Hc' Hr j.
      replace (seen ++ (k, e) :: r) with ((seen ++ [(k, e)]) ++ r)
        by by rewrite <- app_assoc.
      by apply (IH _ c'). }
    rewrite map_app in Hgo. simpl in Hgo.
    (* entries of other keys do not disturb a key *)
    assert (∀ j c', j ≠ k → c' !! j = chosen !! j →
                    chosen_for now (seen ++ [(k, e)]) c' j) as Hother.
    { intros j c' Hj Hc'. specialize (Hinv j). unfold chosen_for in *.
      rewrite Hc'. destruct (chosen !! j) as [p|].
      - destruct Hinv as (c & Hc & Ha & Hd & Hmax). exists c.
        split; [apply elem_of_app; by left|]. split; [done|]. split; [done|].
        intros e' [He' | He']%elem_of_app; [by apply Hmax|].
        apply list_elem_of_singleton in He'. congruence.
      - intros e' [He' | He']%elem_of_app; [by apply Hinv|].
        apply list_elem_of_singleton in He'. congruence. }
    (* the visited entry takes the place *)
    assert ((∀ e', (k, e') ∈ seen → ep_LooksDead e' now = false →
                   createdAt e' ≤ createdAt e) →
            ep_LooksDead e now = false →
            ∀ j, chosen_for now (seen ++ [(k, e)]) (<[k := ep_addr e]> chosen) j)
      as Htake.
    { intros Hmax Halive j. destruct (decide (j = k)) as [->|Hj].
      - unfold chosen_for. rewrite lookup_insert_eq. exists e.
        split; [apply elem_of_app; right; left|]. split; [done|].
        split; [done|].
        intros e' [He' | He']%elem_of_app; [by apply Hmax|].
        apply list_elem_of_singleton in He'. injection He' as ->. lia.
      - apply Hother; [done|]. by rewrite lookup_insert_ne. }
    (* the choice stays *)
    assert ((match chosen !! k with
             | Some p => ∃ c, (k, c) ∈ seen ∧ ep_addr c = p
                              ∧ (ep_LooksDead e now = false →
                                 createdAt e ≤ createdAt c)
             | None => ep_LooksDead e now = true
             end) →
            ∀ j, chosen_for now (seen ++ [(k, e)]) chosen j) as Hstay.
    { intros Hk j. destruct (decide (j = k)) as [->|Hj]; [|by apply Hother].
      specialize (Hinv k). unfold chosen_for in *.
      destruct (chosen !! k) as [p|].
      - destruct Hinv as (c & Hc & Ha & Hd & Hmax).
        destruct Hk as (c2 & Hc2 & Ha2 & Hle).
        assert (c2 = c) as ->.
        { assert (NoDup (addrs seen)) as Hs.
          { unfold addrs in *. rewrite map_app in Hnd.
            by apply NoDup_app in Hnd as [? _]. }
          pose proof (exit_at_NoDup seen k c Hs Hc) as E1.
          pose proof (exit_at_NoDup seen k c2 Hs Hc2) as E2.
          rewrite Ha in E1. rewrite Ha2 in E2. congruence. }
        exists c. split; [apply elem_of_app; by left|].
        split; [done|]. split; [done|].
        intros e' [He' | He']%elem_of_app; [by apply Hmax|].
        apply list_elem_of_singleton in He'. injection He' as ->. done.
      - intros e' [He' | He']%elem_of_app; [by apply Hinv|].
        apply list_elem_of_singleton in He'. by injection He' as ->. }
    pose proof (Hinv k) as Hk. unfold chosen_for in Hk.
    destruct (chosen !! k) as [p|] eqn:Ep.
    + destruct Hk as (c & Hc & Ha & Hd & Hmax).
      assert (exit_at p (map (tick_exit now) seen ++ (k, e) :: r)
              = Some (tick_exit now (k, c)).2) as Hread.
      { rewrite <- Ha.
        change (ep_addr c) with (ep_addr (tick_exit now (k, c)).2).
        apply (exit_at_NoDup _ k).
        - replace ((k, e) :: r) with ([(k, e)] ++ r) by done.
          unfold addrs in *. rewrite !map_app in *.
          fold (addrs (map (tick_exit now) seen)). by rewrite addrs_tick.
        - apply elem_of_app. left.
          apply list_elem_of_fmap. by exists (k, c). }
      rewrite Hread in Hrun. simpl in Hrun.
      case_bool_decide as Hnew.
      * destruct (ep_LooksDead e now) eqn:Hdead; simpl in Hrun.
        -- apply (Hgo chosen); [|done]. apply Hstay.
           exists c. split; [done|]. split; [done|]. done.
        -- apply (Hgo (<[k := ep_addr e]> chosen)); [|done].
           apply Htake; [|done]. intros e' He' Ha'.
           specialize (Hmax e' He' Ha'). lia.
      * apply (Hgo chosen); [|done]. apply Hstay.
        exists c. split; [done|]. split; [done|]. intros _. lia.
    + destruct (ep_LooksDead e now) eqn:Hdead; simpl in Hrun.
      * apply (Hgo chosen); [|done]. by apply Hstay.
      * apply (Hgo (<[k := ep_addr e]> chosen)); [|done].
        apply Htake; [|done]. intros e' He' Ha'.
        by rewrite (Hk e' He') in Ha'.
Qed.

(** C2.  Sessions of m_ActiveExits live at distinct addresses, and a
    session's Tick does not change what its LooksDead reports.  Then, after
    Tick(now), for every key k: if some unexpired session of k did not look
    dead, m_ChosenExits[k] points at a session of k in m_ActiveExits that
    does not look dead and whose createdAt is greatest among the sessions of
    k that do not look dead; if every unexpired session of k looked dead,
    m_ChosenExits has no entry for k. *)
Theorem Tick_chooses_latest_alive now s k :
  NoDup (addrs (m_ActiveExits s)) →
  (∀ e, ep_LooksDead (with_ep_link e (ep_Tick e now)) now = ep_LooksDead e now) →
  ∃ s', Tick now s = Some s'
    ∧ ((∃ e, (k, e) ∈ m_ActiveExits s ∧ ep_IsExpired e now = false
             ∧ ep_LooksDead e now = false) →
       ∃ c, m_ChosenExits s' !! k = Some (ep_addr c)
            ∧ (k, c) ∈ m_ActiveExits s'
            ∧ ep_LooksDead c now = false
            ∧ ∀ e', (k, e') ∈ m_ActiveExits s' →
                    ep_LooksDead e' now = false →
                    createdAt e' ≤ createdAt c)
    ∧ ((∀ e, (k, e) ∈ m_ActiveExits s → ep_IsExpired e now = false →
             ep_LooksDead e now = true) →
       m_ChosenExits s' !! k = None).
Proof.
  intros Hnd Hstable.
  set (ae := filter (λ x, ep_IsExpired x.2 now = false) (m_ActiveExits s)).
  assert (NoDup (addrs ae)) as Hnd'.
  { unfold addrs, ae. revert Hnd. generalize (m_ActiveExits s).
    induction l as [|x l IH]; [done|]. simpl.
    intros [Hx Hl]%NoDup_cons. rewrite filter_cons.
    case_decide; [|by apply IH]. simpl. apply NoDup_cons. split; [|by apply IH].
    intros Hin. apply Hx. apply list_elem_of_fmap in Hin as (y & Hy & Hin).
    apply list_elem_of_filter in Hin as [_ Hin].
    apply list_elem_of_fmap. by exists y. }
  pose proof (Tick_runs now s) as (chosen & Ht & _). fold ae in Ht.
  assert (∀ j, chosen_for now ae chosen j) as Hch.
  { unfold Tick in Ht. simpl in Ht. fold ae in Ht.
    destruct (pick_and_tick now [] ae ∅) as [[c' l']|] eqn:Hrun; [|done].
    injection Ht as Hc Hl. subst c'.
    apply (pick_and_tick_chooses now [] ae ∅ chosen l'); try done.
    intros j. unfold chosen_for. rewrite lookup_empty.
    by intros e ?%elem_of_nil. }
  eexists. split; [exact Ht|]. simpl.
  assert (∀ e, (k, e) ∈ ae ↔
               (k, e) ∈ m_ActiveExits s ∧ ep_IsExpired e now = false) as Hae.
  { intros e. unfold ae. by rewrite list_elem_of_filter, (comm and). }
  specialize (Hch k). unfold chosen_for in Hch. split.
  - intros (e & He & Hexp & Halive).
    destruct (chosen !! k) as [p|].
    + destruct Hch as (c & Hc & Ha & Hd & Hmax).
      exists (tick_exit now (k, c)).2. split; [by rewrite <- Ha|].
      split; [apply list_elem_of_fmap; by exists (k, c)|].
      split; [simpl; by rewrite Hstable|].
      intros e' He' Ha'. apply list_elem_of_fmap in He' as ([k0 e0] & [= -> ->] & Hin).
      simpl in *. rewrite Hstable in Ha'. by apply Hmax.
    + rewrite (Hch e) in Halive; [done|]. by apply Hae.
  - intros Hall. destruct (chosen !! k) as [p|]; [|done].
    destruct Hch as (c & Hc & Ha & Hd & Hmax).
    apply Hae in Hc as [Hc Hexp]. by rewrite (Hall c Hc Hexp) in Hd.
Qed.
End tick_facts.

(** ** The registry stays in order *)

Section registry_runs.
Context {EL SL : Type} `{!Collaborators EL SL}.
#[local] Abbreviation State := (ExitEndpoint EL SL).
Implicit Types s : State.

Lemma addrs_filter_sublist (P : PubKey * Endpoint EL → Prop)
    `{!∀ x, Decision (P x)} (l : list (PubKey * Endpoint EL)) :
  addrs (filter P l) `sublist_of` addrs l.
Proof.
  induction l as [|x l IH]; [done|]. rewrite filter_cons. unfold addrs in *.
  case_decide; simpl; [by apply sublist_skip | by apply sublist_cons].
Qed.

Lemma addrs_exit_store p l' (l : list (PubKey * Endpoint EL)) :
  addrs (exit_store p l' l) = addrs l.
Proof.
  unfold addrs, exit_store. rewrite map_map. apply map_ext.
  intros [k e]. simpl. by case_decide.
Qed.

Lemma addrs_flush_exit (l : list (PubKey * Endpoint EL)) :
  addrs (map fst (map flush_exit l)) = addrs l.
Proof.
  unfold addrs. rewrite !map_map. apply map_ext.
  intros [k e]. unfold flush_exit. simpl. by destruct (ep_Flush e).
Qed.

Lemma registry_step_refl s : registry_step s s.
Proof. unfold registry_step. split; [done|]. split; [lia|]. split; [done|auto]. Qed.

Lemma registry_step_trans s1 s2 s3 :
  registry_step s1 s2 → registry_step s2 s3 → registry_step s1 s3.
Proof.
  intros (A1 & B1 & C1 & D1) (A2 & B2 & C2 & D2). unfold registry_step.
  split; [by etrans|]. split; [lia|]. split; [set_solver|].
  intros r Hr. destruct (D2 r Hr) as [Hr2 | ?]; [|by right].
  destruct (D1 r Hr2) as [? | ?]; [by left | right; set_solver].
Qed.

(** A step that leaves the registry fields alone. *)
Lemma registry_step_same s s' :
  m_ActiveExits s' = m_ActiveExits s → heap_next s' = heap_next s →
  m_SNodeKeys s' = m_SNodeKeys s → m_SNodeSessions s' = m_SNodeSessions s →
  registry_step s s'.
Proof.
  intros E1 E2 E3 E4. unfold registry_step. rewrite E1, E2, E3, E4.
  apply registry_step_refl.
Qed.

Lemma registry_ok_step s s' : registry_ok s → registry_step s s' → registry_ok s'.
Proof.
  intros (Hnd & Hlt & Hm) (A & B & C & D). unfold registry_ok.
  split; [by eapply sublist_NoDup|]. split.
  - intros a Ha. assert (a < heap_next s)%N; [|lia].
    apply Hlt. by eapply elem_of_sublist.
  - intros r Hr. destruct (D r Hr) as [? | ?]; [|done]. set_solver.
Qed.

Lemma registry_step_logs (es : list LogEntry) s :
  registry_step s (foldl (λ a e, log e a) s es).
Proof.
  revert s. induction es as [|e es IH]; intros s; simpl.
  - apply registry_step_refl.
  - eapply registry_step_trans; [|apply IH]. by apply registry_step_same.
Qed.

Lemma KickIdentOffExit_registry_step pk s :
  registry_step s (KickIdentOffExit pk s).
Proof.
  rewrite KickIdentOffExit_unfold. unfold registry_step. simpl.
  split; [apply addrs_filter_sublist|]. split; [lia|]. split; [done|auto].
Qed.

Lemma AllocateNewAddress_registry_step s :
  registry_step s (AllocateNewAddress s).2.
Proof.
  unfold AllocateNewAddress. case_bool_decide.
  - by apply registry_step_same.
  - destruct (oldest_scan _ _ _) as [found mn].
    destruct (subscript zero_pk found (m_IPToKey s)) as [pk i1]. simpl.
    eapply registry_step_trans; [|apply KickIdentOffExit_registry_step].
    by apply registry_step_same.
Qed.

Lemma GetIPForIdent_registry_step pk now s :
  registry_step s (GetIPForIdent pk now s).2.
Proof.
  unfold GetIPForIdent. destruct (HasLocalMappedAddrFor pk s); simpl.
  - destruct (subscript 0 pk (m_KeyToIP s)). by apply registry_step_same.
  - pose proof (AllocateNewAddress_registry_step s) as Ha.
    destruct (AllocateNewAddress s) as [found s1]. simpl in Ha.
    eapply registry_step_trans; [exact Ha|].
    destruct (emplace pk found (m_KeyToIP s1)) as [[] k1]; simpl;
      [|by apply registry_step_same].
    destruct (emplace found pk (m_IPToKey s1)) as [[] i1]; simpl;
      [|by apply registry_step_same].
    destruct (HasLocalMappedAddrFor pk _); by apply registry_step_same.
Qed.

Lemma ObtainServiceNodeIP_registry_step r now s :
  registry_step s (ObtainServiceNodeIP r now s).2.
Proof.
  unfold ObtainServiceNodeIP.
  pose proof (GetIPForIdent_registry_step r now s) as Hg.
  destruct (GetIPForIdent r now s) as [ip s1]. simpl in Hg.
  case_bool_decide; [|done]. simpl.
  eapply registry_step_trans; [exact Hg|].
  unfold registry_step. simpl. split; [done|]. split; [lia|].
  split; [set_solver|]. intros k. unfold emplace.
  destruct (m_SNodeSessions s1 !! r) eqn:E; simpl; [by left|].
  intros [<- | [_ ?]]%lookup_insert_is_Some; [right; set_solver | by left].
Qed.

Lemma AllocateNewExit_registry_ok pk path want now s :
  registry_ok s → registry_ok (AllocateNewExit pk path want now s).2.
Proof.
  intros Hok. unfold AllocateNewExit.
  destruct (want && negb (m_PermitExit s)); [done|].
  pose proof (GetIPForIdent_registry_step pk now s) as Hg.
  destruct (GetIPForIdent pk now s) as [ip s1]. simpl in Hg.
  set (s2 := if TransitHopPreviousIsRouter path pk
             then set_SNodeKeys ({[pk]} ∪ m_SNodeKeys s1) s1 else s1).
  assert (registry_ok s2) as (Hnd & Hlt & Hm).
  { apply (registry_ok_step s1); [by apply (registry_ok_step s)|].
    unfold s2. destruct (TransitHopPreviousIsRouter path pk);
      [|apply registry_step_refl].
    unfold registry_step. simpl. split; [done|]. split; [lia|].
    split; [set_solver | auto]. }
  simpl. fold s2. unfold registry_ok. simpl. split; [|split].
  - apply NoDup_cons. split; [|done].
    intros Hin. apply Hlt in Hin. lia.
  - intros a [-> | Ha]%elem_of_cons; [lia|]. apply Hlt in Ha. lia.
  - done.
Qed.

Lemma try_snode_session_registry_step pk pkt s :
  registry_step s (try_snode_session pk pkt s).2.
Proof.
  unfold try_snode_session. case_bool_decide; [|apply registry_step_refl].
  destruct (m_SNodeSessions s !! pk) as [x|] eqn:Ex; [|apply registry_step_refl].
  destruct (sn_QueueUpstreamTraffic x pkt ExitPadSize) as [ok l]. simpl.
  unfold registry_step. simpl. split; [done|]. split; [lia|]. split; [done|].
  intros r [<- | [_ ?]]%lookup_insert_is_Some; left; [eauto | done].
Qed.

Lemma HandleInetPacket_registry_step pkt s s' :
  HandleInetPacket pkt s = Some s' → registry_step s s'.
Proof.
  unfold HandleInetPacket. destruct (m_IPToKey s !! pkt_dst pkt) as [pk|].
  - pose proof (try_snode_session_registry_step pk pkt s) as Ht.
    destruct (try_snode_session pk pkt s) as [sent s1]. simpl in Ht.
    destruct sent; [by intros [= <-]|].
    destruct (subscript nullptr pk (m_ChosenExits s1)) as [ep c1].
    intros Hs. eapply registry_step_trans; [exact Ht|]. revert Hs.
    case_decide; [intros [= <-]; by apply registry_step_same|]. simpl.
    destruct (exit_at ep (m_ActiveExits s1)) as [e|]; [|done].
    destruct (ep_QueueInboundTraffic e (pkt_Buffer pkt)) as [ok l].
    assert (registry_step s1
              (set_ActiveExits (exit_store ep l (m_ActiveExits s1))
                               (set_ChosenExits c1 s1))) as Hst.
    { unfold registry_step. simpl. rewrite addrs_exit_store.
      split; [done|]. split; [lia|]. split; [done|auto]. }
    destruct ok; intros [= <-]; [done|].
    eapply registry_step_trans; [exact Hst|]. by apply registry_step_same.
  - intros [= <-]. by apply registry_step_same.
Qed.

Lemma Process_registry_step q s s' : Process q s = Some s' → registry_step s s'.
Proof.
  revert s. induction q as [|pkt q IH]; intros s; simpl.
  - intros [= <-]. apply registry_step_refl.
  - destruct (HandleInetPacket pkt s) as [s1|] eqn:E; [|done].
    intros Hp. eapply registry_step_trans; [|by apply IH].
    by apply (HandleInetPacket_registry_step pkt).
Qed.

Lemma flush_sessions_registry_step s : registry_step s (flush_sessions s).
Proof.
  unfold flush_sessions.
  set (s1 := set_ActiveExits (map fst (map flush_exit (m_ActiveExits s))) s).
  set (s2 := foldl (λ a e, log e a) s1 _).
  assert (registry_step s s1) as H1.
  { unfold registry_step, s1. simpl. rewrite addrs_flush_exit.
    split; [done|]. split; [lia|]. split; [done|auto]. }
  assert (registry_step s1 s2) as H2 by apply registry_step_logs.
  eapply registry_step_trans; [|apply registry_step_logs].
  eapply registry_step_trans; [exact H1|].
  eapply registry_step_trans; [exact H2|].
  unfold registry_step. simpl. split; [done|]. split; [lia|]. split; [done|].
  intros r. rewrite lookup_fmap, fmap_is_Some. by left.
Qed.

Lemma Flush_registry_step s s' : Flush s = Some s' → registry_step s s'.
Proof.
  unfold Flush. destruct (Process _ _) as [s1|] eqn:E; [|done]. intros [= <-].
  apply Process_registry_step in E.
  eapply registry_step_trans; [|apply flush_sessions_registry_step].
  eapply registry_step_trans; [|exact E]. by apply registry_step_same.
Qed.

Lemma Tick_registry_step now s s' : Tick now s = Some s' → registry_step s s'.
Proof.
  destruct (Tick_runs now s) as (chosen & -> & _). intros [= <-].
  unfold registry_step. simpl. rewrite addrs_tick.
  split; [apply addrs_filter_sublist|]. split; [lia|]. split; [done|].
  intros r [x Hx]. apply map_lookup_filter_Some in Hx as [Hx _]. left. eauto.
Qed.

Lemma HandleHookedDNSMessage_registry_step msg now s ok s' out :
  HandleHookedDNSMessage msg now s = Some (ok, s', out) → registry_step s s'.
Proof.
  unfold HandleHookedDNSMessage. destruct (questions msg) as [|q ?]; [done|].
  repeat case_bool_decide;
    repeat match goal with
           | |- context [match ?x with _ => _ end] => destruct x eqn:?
           end;
    try (intros [= <- <- <-]; apply registry_step_refl); try done.
  intros [= <- <- <-].
  match goal with
  | H : ObtainServiceNodeIP ?r ?n ?t = _ |- _ =>
      pose proof (ObtainServiceNodeIP_registry_step r n t) as Ho;
      by rewrite H in Ho
  end.
Qed.

(** Every endpoint that a run reaches has its registry in order. *)
Lemma reachable_registry_ok s : reachable s → registry_ok s.
Proof.
  induction 1 as [host mask s Hu Hh Hm | pk now s _ IH | pk path want now s _ IH
                 | r now s _ IH | pk s _ IH | msg now s ok s' out _ IH Hd
                 | loaded s _ IH | s s' _ IH Hf | now s s' _ IH Ht].
  - destruct Hu as (_ & _ & _ & Ha & Hs & _). unfold registry_ok. simpl.
    rewrite Ha, Hs. split; [constructor|]. split.
    + by intros a ?%elem_of_nil.
    + intros r [x Hx]. by rewrite lookup_empty in Hx.
  - eapply registry_ok_step; [done | apply GetIPForIdent_registry_step].
  - by apply AllocateNewExit_registry_ok.
  - eapply registry_ok_step; [done | apply ObtainServiceNodeIP_registry_step].
  - eapply registry_ok_step; [done | apply KickIdentOffExit_registry_step].
  - eapply registry_ok_step; [done|].
    by eapply HandleHookedDNSMessage_registry_step.
  - eapply registry_ok_step; [done|]. destruct loaded; [|apply registry_step_refl].
    by apply registry_step_same.
  - eapply registry_ok_step; [done | by apply Flush_registry_step].
  - eapply registry_ok_step; [done | by eapply Tick_registry_step].
Qed.
End registry_runs.

(** ** DNS hook *)

Lemma prefix_split pat s : String.prefix pat s = true → ∃ b, s = pat +:+ b.
Proof.
  revert s. induction pat as [|a pat IH]; intros s.
  - intros _. by exists s.
  - destruct s as [|c s]; simpl; [done|].
    destruct (Ascii.ascii_dec a c) as [->|]; [|done].
    intros Hp. destruct (IH s Hp) as [b ->]. by exists b.
Qed.

Lemma append_length (a b : string) :
  String.length (a +:+ b) = (String.length a + String.length b)%nat.
Proof. induction a as [|c a IH]; simpl; [done|]. by rewrite IH. Qed.

Lemma str_find_unfold pat s :
  str_find pat s =
  if String.prefix pat s then Some 0%nat
  else match s with
       | EmptyString => None
       | String _ r => S <$> str_find pat r
       end.
Proof. by destruct s. Qed.

(** [str_find] returns a position at which the pattern stands. *)
Lemma str_find_Some pat s i :
  str_find pat s = Some i →
  ∃ a b, s = a +:+ pat +:+ b ∧ String.length a = i.
Proof.
  revert i. induction s as [|c s IH]; intros i; rewrite str_find_unfold.
  - destruct (String.prefix pat "") eqn:Hp; [|done].
    intros [= <-]. destruct (prefix_split _ _ Hp) as [b Hb].
    exists "", b. by split.
  - destruct (String.prefix pat (String c s)) eqn:Hp.
    + intros [= <-]. destruct (prefix_split _ _ Hp) as [b Hb].
      exists "", b. by split.
    + destruct (str_find pat s) as [j|]; [|done]. simpl. intros [= <-].
      destruct (IH j eq_refl) as (a & b & -> & Ha).
      exists (String c a), b. split; [done|]. simpl. by rewrite Ha.
Qed.

Lemma length_zero (b : string) : String.length b = 0%nat → b = "".
Proof. by destruct b. Qed.

Lemma snode_suffix_test (name : string) :
  String.length name ≠ 6%nat → string_size name < SIZE_MOD →
  (string_find ".snode." name = (string_size name - 7) mod SIZE_MOD ↔
   ∃ base, name = base +:+ ".snode."
           ∧ str_find ".snode." name = Some (String.length base)).
Proof.
  intros H6 Hmax. unfold string_find, string_size, npos, SIZE_MOD in *. split.
  - destruct (str_find ".snode." name) as [i|] eqn:Hf.
    + destruct (str_find_Some _ _ _ Hf) as (a & b & Hn & Ha).
      assert (String.length name = (i + 7 + String.length b)%nat) as Hlen.
      { rewrite Hn, !append_length, Ha. simpl. lia. }
      rewrite Z.mod_small by lia. intros Hi.
      assert (String.length b = 0%nat) as Hb by lia.
      apply length_zero in Hb. subst b. cbn in Hn.
      exists a. by rewrite Ha.
    + intros Hw. exfalso.
      destruct (decide (7 ≤ Z.of_nat (String.length name))) as [Hge|Hlt].
      * rewrite Z.mod_small in Hw by lia. lia.
      * assert ((Z.of_nat (String.length name) - 7) mod 2 ^ 64
                = Z.of_nat (String.length name) - 7 + 2 ^ 64) as Hm.
        { symmetry. apply Z.mod_unique_pos with (q := -1); lia. }
        lia.
  - intros (base & Hn & Hf). rewrite Hf.
    assert (String.length name = (String.length base + 7)%nat) as Hlen.
    { rewrite Hn at 1. rewrite append_length. simpl. lia. }
    rewrite Z.mod_small by lia. lia.
Qed.

(** A type A query for any name of six characters is hooked: [find] misses
    and returns [npos], and [size() - 7] wraps around to the same value. *)
Lemma six_characters_wrap (name : string) :
  String.length name = 6%nat →
  string_find ".snode." name = (string_size name - 7) mod SIZE_MOD.
Proof.
  intros H6. unfold string_find, string_size. rewrite H6.
  destruct (str_find ".snode." name) as [i|] eqn:Hf; [|reflexivity].
  destruct (str_find_Some _ _ _ Hf) as (a & b & Hn & Ha).
  assert (String.length name = (i + 7 + String.length b)%nat) as Hlen.
  { rewrite Hn, !append_length, Ha. simpl. lia. }
  lia.
Qed.

Section dns_facts.
Context {EL SL : Type} `{!Collaborators EL SL}.
#[local] Abbreviation State := (ExitEndpoint EL SL).
Implicit Types s : State.

(** What ShouldHookDNSMessage does answer.  It returns false on a message
    without a question.  On a message whose first question has a name of
    length other than six, it returns true exactly when the question is of
    type PTR and its name decodes to an IPv4 address that m_OurRange
    contains, or the question is of type A, its name ends in the seven
    characters ".snode." (names arrive with the closing dot) and that is the
    first place ".snode." occurs in the name. *)
Lemma ShouldHookDNSMessage_spec msg s :
  (questions msg = [] → ShouldHookDNSMessage msg s = false)
  ∧ ∀ q rest, questions msg = q :: rest →
      String.length (qname q) ≠ 6%nat → string_size (qname q) < SIZE_MOD →
      (ShouldHookDNSMessage msg s = true ↔
       (qtype q = qTypePTR
        ∧ ∃ ip, DecodePTR (qname q) = Some ip
                ∧ Contains_ipv4 (m_OurRange s) ip = true)
       ∨ (qtype q = qTypeA
          ∧ ∃ base, qname q = base +:+ ".snode."
                    ∧ str_find ".snode." (qname q) = Some (String.length base))).
Proof.
  split.
  - intros Hq. unfold ShouldHookDNSMessage. by rewrite Hq.
  - intros q rest Hq H6 Hmax. unfold ShouldHookDNSMessage. rewrite Hq.
    case_bool_decide as Hptr.
    + destruct (DecodePTR (qname q)) as [ip|] eqn:Hd.
      * split.
        -- intros Hc. left. split; [done|]. by exists ip.
        -- intros [(_ & ip' & [= <-] & Hc) | [Ha _]]; [done|].
           rewrite Hptr in Ha. discriminate.
      * split; [done|].
        intros [(_ & ip' & ? & _) | [Ha _]]; [done|].
        rewrite Hptr in Ha. discriminate.
    + case_bool_decide as Ha.
      * rewrite bool_decide_eq_true, (snode_suffix_test _ H6 Hmax).
        split; [by right|]. by intros [[? _] | [_ ?]].
      * split; [done|]. by intros [[? _] | [? _]].
Qed.

Lemma ShouldHookDNSMessage_six_characters name s :
  String.length name = 6%nat →
  ShouldHookDNSMessage (mkMessage [mkQuestion name qTypeA] []) s = true.
Proof.
  intros H6. unfold ShouldHookDNSMessage. simpl.
  apply bool_decide_eq_true. by apply six_characters_wrap.
Qed.
End dns_facts.

(** ** Service node names *)

Section snode_names.
Context {EL SL : Type} `{!Collaborators EL SL}.
#[local] Abbreviation State := (ExitEndpoint EL SL).
Implicit Types s : State.

(** The identity map and the pool work without touching the snode tables. *)
Lemma AllocateNewAddress_snode_frame s :
  m_SNodeKeys (AllocateNewAddress s).2 = m_SNodeKeys s
  ∧ m_SNodeSessions (AllocateNewAddress s).2 = m_SNodeSessions s.
Proof.
  unfold AllocateNewAddress. case_bool_decide; [done|].
  destruct (oldest_scan _ _ _) as [found mn].
  destruct (subscript zero_pk found (m_IPToKey s)) as [pk i1].
  by rewrite KickIdentOffExit_unfold.
Qed.

Lemma GetIPForIdent_snode_frame pk now s :
  m_SNodeKeys (GetIPForIdent pk now s).2 = m_SNodeKeys s
  ∧ m_SNodeSessions (GetIPForIdent pk now s).2 = m_SNodeSessions s.
Proof.
  unfold GetIPForIdent. destruct (HasLocalMappedAddrFor pk s); simpl.
  - by destruct (subscript 0 pk (m_KeyToIP s)).
  - destruct (AllocateNewAddress_snode_frame s) as [Ek Es].
    destruct (AllocateNewAddress s) as [found s1]. simpl in *.
    destruct (emplace pk found (m_KeyToIP s1)) as [[] k1]; simpl; [|done].
    destruct (emplace found pk (m_IPToKey s1)) as [[] i1]; simpl; [|done].
    by destruct (HasLocalMappedAddrFor pk _).
Qed.

(** Asked twice for the same key, GetIPForIdent gives the same address. *)
Lemma GetIPForIdent_twice pk now now' s :
  (GetIPForIdent pk now' (GetIPForIdent pk now s).2).1
  = (GetIPForIdent pk now s).1.
Proof.
  by rewrite (GetIPForIdent_known pk now' _ _ (GetIPForIdent_mapped pk now s)).
Qed.

Lemma ObtainServiceNodeIP_new r now s :
  r ∉ m_SNodeKeys s →
  let gi := GetIPForIdent r now s in
  ObtainServiceNodeIP r now s =
  (gi.1,
   set_SNodeSessions
     (emplace r (new_snode_session r gi.1) (m_SNodeSessions s)).2
     (set_SNodeKeys ({[r]} ∪ m_SNodeKeys s) gi.2)).
Proof.
  intros Hr. unfold ObtainServiceNodeIP. simpl.
  destruct (GetIPForIdent_snode_frame r now s) as [Ek Es].
  destruct (GetIPForIdent r now s) as [ip s1]. simpl in *.
  rewrite Ek, Es. by rewrite bool_decide_eq_true_2.
Qed.

(** C8.  A type A query whose name parses as the key r.  While r is not in
    m_SNodeKeys, the reply carries the address that ObtainServiceNodeIP
    returns; r is then in m_SNodeKeys and mapped to that address, and, where
    m_SNodeSessions had no session for r, it has gained exactly one session,
    filed under r: its remote key is r, the address bound into its packet
    callback is the address of the reply, and it was made with 2 paths of
    hop length 1 and the router contact bundled, as the constructor call
    says; the sessions of every other key are as before.  The same query put
    again leaves the endpoint as it is (no second session) and replies with
    the same address; and GetIPForIdent asked twice for a key gives the same
    address.  When the name does not parse, the reply is NXDOMAIN and the
    endpoint is unchanged. *)
Theorem HandleHookedDNSMessage_snode_query msg q rest now s :
  questions msg = q :: rest → qtype q = qTypeA →
  (∀ r, RouterID_FromString (qname q) = Some r → r ∉ m_SNodeKeys s →
     ∃ ip s1,
       ObtainServiceNodeIP r now s = (ip, s1)
       ∧ HandleHookedDNSMessage msg now s
         = Some (true, s1, Some (add_answer (INReply ip) msg))
       ∧ r ∈ m_SNodeKeys s1
       ∧ m_KeyToIP s1 !! r = Some ip
       ∧ (m_SNodeSessions s !! r = None →
          m_SNodeSessions s1
          = <[r := new_snode_session r ip]> (m_SNodeSessions s))
       ∧ (m_SNodeSessions s !! r = None →
          ∃ x, m_SNodeSessions s1 !! r = Some x
               ∧ sn_remote x = r ∧ sn_from x = ip
               ∧ sn_numpaths x = 2 ∧ sn_hoplen x = 1 ∧ sn_bundleRC x = true
               ∧ sn_link x = sn_link_new r ip
               ∧ ∀ k, k ≠ r →
                      m_SNodeSessions s1 !! k = m_SNodeSessions s !! k)
       ∧ (∀ later, HandleHookedDNSMessage msg later s1
                   = Some (true, s1, Some (add_answer (INReply ip) msg))))
  ∧ (∀ pk later, (GetIPForIdent pk later (GetIPForIdent pk now s).2).1
                 = (GetIPForIdent pk now s).1)
  ∧ (RouterID_FromString (qname q) = None →
     HandleHookedDNSMessage msg now s
     = Some (true, s, Some (add_answer NXReply msg))).
Proof.
  intros Hq Ha.
  assert (bool_decide (qtype q = qTypePTR) = false) as Hptr.
  { apply bool_decide_eq_false. rewrite Ha. discriminate. }
  assert (bool_decide (qtype q = qTypeA) = true) as HA
    by by apply bool_decide_eq_true.
  split; [|split].
  - intros r Hr Hnew.
    pose proof (ObtainServiceNodeIP_new r now s Hnew) as Ho. simpl in Ho.
    pose proof (GetIPForIdent_mapped r now s) as Hm.
    set (ip := (GetIPForIdent r now s).1) in *.
    eexists ip, _. split; [exact Ho|].
    split.
    { unfold HandleHookedDNSMessage. rewrite Hq, Hptr, HA, Hr.
      rewrite bool_decide_eq_true_2 by done. by rewrite Ho. }
    simpl. split; [set_solver|]. split; [done|]. split.
    { intros Hnone. by rewrite (emplace_absent _ _ _ Hnone). }
    split.
    { intros Hnone. rewrite (emplace_absent _ _ _ Hnone). simpl.
      exists (new_snode_session r ip). split; [apply lookup_insert_eq|].
      split; [done|]. split; [done|]. split; [done|]. split; [done|].
      split; [done|]. split; [done|].
      intros k Hk. by rewrite lookup_insert_ne. }
    intros later. unfold HandleHookedDNSMessage. rewrite Hq, Hptr, HA, Hr.
    simpl. rewrite bool_decide_eq_false_2 by set_solver.
    by rewrite Hm.
  - intros pk later. apply GetIPForIdent_twice.
  - intros Hr. unfold HandleHookedDNSMessage. by rewrite Hq, Hptr, HA, Hr.
Qed.
End snode_names.

(** ** Runs on the sample link layer *)

Module SampleRuns.
Import Sample.

Lemma KickIdentOffExit_effect_witness :
  m_KeyToIP two_clients !! PK_A = Some 0x0A000002
  ∧ m_IPToKey (KickIdentOffExit PK_A two_clients) !! 0x0A000002 = None
  ∧ m_IPToKey (KickIdentOffExit PK_A two_clients) !! 0x0A000003 = Some PK_B
  ∧ ¬ m_NextAddr two_clients < m_HigestAddr two_clients
  ∧ m_IPToKey two_clients !! (AllocateNewAddress two_clients).1 = Some PK_A
  ∧ (AllocateNewAddress two_clients).2 = KickIdentOffExit PK_A two_clients.
Proof.
  destruct (KickIdentOffExit_effect PK_A two_clients)
    as (_ & _ & Hip & _ & _ & _ & Hev).
  assert (m_KeyToIP two_clients !! PK_A = Some 0x0A000002) as Hk
    by (vm_compute; reflexivity).
  assert (¬ m_NextAddr two_clients < m_HigestAddr two_clients) as Hge
    by (vm_compute; discriminate).
  assert (m_IPToKey two_clients !! (AllocateNewAddress two_clients).1
          = Some PK_A) as Hb by (vm_compute; reflexivity).
  destruct (Hip _ Hk) as [Hnone Hother].
  split; [exact Hk|]. split; [exact Hnone|].
  split; [rewrite Hother by discriminate; vm_compute; reflexivity|].
  split; [exact Hge|]. split; [exact Hb|].
  exact (Hev Hge PK_A Hb).
Defined.

Lemma AllocateNewExit_spec_witness :
  m_PermitExit lan30 = false
  ∧ AllocateNewExit PK_A 20%N true 1 lan30 = (false, lan30)
  ∧ (AllocateNewExit PK_A 20%N false 1 lan30).1 = true
  ∧ ∃ s', AllocateNewExit PK_A 20%N false 1 lan30 = (true, s')
          ∧ m_KeyToIP s' !! PK_A = Some 0x0A000002
          ∧ m_Paths s' !! 20%N = Some PK_A.
Proof.
  assert (m_PermitExit lan30 = false) as Hp by reflexivity.
  destruct (AllocateNewExit_spec PK_A 20%N true 1 lan30) as (Hno & _ & _).
  destruct (AllocateNewExit_spec PK_A 20%N false 1 lan30) as (_ & Hyes & Hin).
  split; [exact Hp|]. split; [exact (Hno eq_refl Hp)|].
  split; [exact (Hin Hp)|].
  destruct (Hyes eq_refl) as (ip & s1 & s' & Hg & Ha & _ & Hk & _ & _ & Hpath).
  exists s'. split; [exact Ha|]. split; [|exact Hpath].
  rewrite Hk. f_equal.
  change ip with (ip, s1).1. rewrite <- Hg. vm_compute. reflexivity.
Defined.

Lemma AllocateNewAddress_spec_witness :
  (m_NextAddr lan30 < m_HigestAddr lan30
   ∧ pool_ok lan30
   ∧ (AllocateNewAddress lan30).1 = 0x0A000002
   ∧ ¬ known_address (AllocateNewAddress lan30).1 lan30)
  ∧ (¬ m_NextAddr two_clients < m_HigestAddr two_clients
     ∧ (AllocateNewAddress two_clients).1 = 0x0A000002
     ∧ (AllocateNewAddress two_clients).2 = KickIdentOffExit PK_A two_clients).
Proof.
  split.
  - assert (m_NextAddr lan30 < m_HigestAddr lan30) as Hlt
      by (vm_compute; reflexivity).
    assert (pool_ok lan30) as Hok.
    { apply SetOption_ifaddr_pool_ok.
      - vm_compute. split; [discriminate | reflexivity].
      - vm_compute. split; [discriminate | reflexivity].
      - repeat split. }
    destruct (AllocateNewAddress_spec lan30) as [Hinc _].
    destruct (Hinc Hlt Hok) as (Hv & _ & _ & Hfresh).
    split; [exact Hlt|]. split; [exact Hok|]. split; [|exact Hfresh].
    rewrite Hv. vm_compute. reflexivity.
  - assert (¬ m_NextAddr two_clients < m_HigestAddr two_clients) as Hge
      by (vm_compute; discriminate).
    destruct (AllocateNewAddress_spec two_clients) as [_ Hev].
    assert (m_IPActivity two_clients
            = [] ++ (0x0A000002, 1) :: [(0x0A000003, 2)]) as Hl
      by (vm_compute; reflexivity).
    destruct (Hev Hge [] 0x0A000002 1 [(0x0A000003, 2)] Hl) as [Hip Hkick].
    + intros x Hx. by apply elem_of_nil in Hx.
    + intros x Hx. apply list_elem_of_singleton in Hx. subst x. simpl. lia.
    + vm_compute. reflexivity.
    + split; [exact Hge|]. split; [exact Hip|].
      apply Hkick. vm_compute. reflexivity.
Defined.

Lemma AllocateNewAddress_tie_follows_iteration_order :
  m_IPActivity tie_low_first = [(0x0A000002, 5); (0x0A000003, 5)]
  ∧ m_IPActivity tie_high_first = [(0x0A000003, 5); (0x0A000002, 5)]
  ∧ m_IPToKey tie_high_first = m_IPToKey tie_low_first
  ∧ m_KeyToIP tie_high_first = m_KeyToIP tie_low_first
  ∧ (AllocateNewAddress tie_low_first).1 = 0x0A000002
  ∧ (AllocateNewAddress tie_high_first).1 = 0x0A000003
  ∧ m_NextAddr lan32 = m_HigestAddr lan32
  ∧ m_IPActivity lan32 = []
  ∧ (AllocateNewAddress lan32).1 = 0.
Proof.
  split; [vm_compute; reflexivity|]. split; [vm_compute; reflexivity|].
  split; [vm_compute; reflexivity|]. split; [vm_compute; reflexivity|].
  split; [vm_compute; reflexivity|]. split; [vm_compute; reflexivity|].
  split; [vm_compute; reflexivity|]. split; vm_compute; reflexivity.
Qed.


Lemma Tick_chooses_latest_alive_witness :
  NoDup (addrs (m_ActiveExits two_sessions))
  ∧ (∃ e, (PK_A, e) ∈ m_ActiveExits two_sessions
          ∧ ep_IsExpired e 30 = false ∧ ep_LooksDead e 30 = false)
  ∧ (∃ s' c, Tick 30 two_sessions = Some s'
             ∧ m_ChosenExits s' !! PK_A = Some (ep_addr c)
             ∧ (PK_A, c) ∈ m_ActiveExits s'
             ∧ ep_LooksDead c 30 = false)
  ∧ m_ChosenExits (default blank (Tick 30 two_sessions)) !! PK_A = Some 2%N
  ∧ (∃ s', Tick 1500 two_sessions = Some s'
           ∧ m_ChosenExits s' !! PK_A = None).
Proof.
  assert (m_ActiveExits two_sessions
          = [(PK_A, new_endpoint 2%N PK_A 21%N true 0x0A000002 20);
             (PK_A, new_endpoint 1%N PK_A 20%N true 0x0A000002 10)]) as Hae
    by (vm_compute; reflexivity).
  assert (NoDup (addrs (m_ActiveExits two_sessions))) as Hnd.
  { rewrite Hae. unfold addrs. cbn [map snd ep_addr new_endpoint].
    apply NoDup_cons. split.
    - intros Hin. apply list_elem_of_singleton in Hin. discriminate.
    - apply NoDup_singleton. }
  assert (∀ now (e : Endpoint link),
            ep_LooksDead (with_ep_link e (ep_Tick e now)) now
            = ep_LooksDead e now) as Hstable by reflexivity.
  assert (∃ e, (PK_A, e) ∈ m_ActiveExits two_sessions
               ∧ ep_IsExpired e 30 = false ∧ ep_LooksDead e 30 = false) as Hal.
  { exists (new_endpoint 2%N PK_A 21%N true 0x0A000002 20).
    rewrite Hae. split; [left|]. split; reflexivity. }
  split; [exact Hnd|]. split; [exact Hal|].
  split; [|split].
  - destruct (Tick_chooses_latest_alive 30 two_sessions PK_A Hnd (Hstable 30))
      as (s' & Ht & Hsome & _).
    destruct (Hsome Hal) as (c & Hc & Hin & Hd & _).
    exists s', c. split; [exact Ht|]. split; [exact Hc|].
    split; [exact Hin | exact Hd].
  - vm_compute. reflexivity.
  - destruct (Tick_chooses_latest_alive 1500 two_sessions PK_A Hnd (Hstable 1500))
      as (s' & Ht & _ & Hnone).
    exists s'. split; [exact Ht|]. apply Hnone.
    intros e He _. rewrite Hae in He.
    apply elem_of_cons in He as [He | He].
    + injection He as ->. reflexivity.
    + apply list_elem_of_singleton in He. injection He as ->. reflexivity.
Defined.


Lemma ShouldHookDNSMessage_spec_witness :
  (String.length "aaaa.snode." ≠ 6%nat
   ∧ string_size "aaaa.snode." < SIZE_MOD
   ∧ ShouldHookDNSMessage (query_A "aaaa.snode.") lan30 = true)
  ∧ (String.length "2.0.0.10.in-addr.arpa." ≠ 6%nat
     ∧ ShouldHookDNSMessage (query_PTR "2.0.0.10.in-addr.arpa.") lan30
       = true)
  ∧ ShouldHookDNSMessage (mkMessage [] []) lan30 = false.
Proof.
  assert (String.length "aaaa.snode." ≠ 6%nat) as H6 by discriminate.
  assert (string_size "aaaa.snode." < SIZE_MOD) as Hs by reflexivity.
  assert (String.length "2.0.0.10.in-addr.arpa." ≠ 6%nat) as H6' by discriminate.
  assert (string_size "2.0.0.10.in-addr.arpa." < SIZE_MOD) as Hs' by reflexivity.
  split; [|split].
  - destruct (ShouldHookDNSMessage_spec (query_A "aaaa.snode.") lan30)
      as [_ Hq].
    split; [exact H6|]. split; [exact Hs|].
    apply (Hq (mkQuestion "aaaa.snode." qTypeA) [] eq_refl H6 Hs).
    right. split; [reflexivity|]. exists "aaaa". split; reflexivity.
  - destruct (ShouldHookDNSMessage_spec
                (query_PTR "2.0.0.10.in-addr.arpa.") lan30) as [_ Hq].
    split; [exact H6'|].
    apply (Hq (mkQuestion "2.0.0.10.in-addr.arpa." qTypePTR) [] eq_refl H6' Hs').
    left. split; [reflexivity|]. exists 0x0A000002.
    split; [reflexivity | vm_compute; reflexivity].
  - destruct (ShouldHookDNSMessage_spec (mkMessage [] []) lan30) as [Hn _].
    exact (Hn eq_refl).
Defined.

Lemma HandleHookedDNSMessage_snode_query_witness :
  questions (query_A "aaaa.snode.") = [mkQuestion "aaaa.snode." qTypeA]
  ∧ RouterID_FromString "aaaa.snode." = Some 7%N
  ∧ (7%N ∉ m_SNodeKeys lan30)
  ∧ m_SNodeSessions lan30 !! 7%N = None
  ∧ (∃ s1, HandleHookedDNSMessage (query_A "aaaa.snode.") 1 lan30
           = Some (true, s1,
                   Some (add_answer (INReply 0x0A000002) (query_A "aaaa.snode.")))
           ∧ m_SNodeSessions s1 !! 7%N = Some (new_snode_session 7%N 0x0A000002)
           ∧ (∃ x, m_SNodeSessions s1 !! 7%N = Some x
                   ∧ sn_remote x = 7%N ∧ sn_from x = 0x0A000002
                   ∧ sn_numpaths x = 2 ∧ sn_hoplen x = 1
                   ∧ sn_bundleRC x = true)
           ∧ HandleHookedDNSMessage (query_A "aaaa.snode.") 2 s1
             = Some (true, s1,
                     Some (add_answer (INReply 0x0A000002)
                                      (query_A "aaaa.snode."))))
  ∧ RouterID_FromString "zzzz.snode." = None
  ∧ HandleHookedDNSMessage (query_A "zzzz.snode.") 1 lan30
    = Some (true, lan30, Some (add_answer NXReply (query_A "zzzz.snode."))).
Proof.
  assert (7%N ∉ m_SNodeKeys lan30) as Hnew.
  { apply (bool_decide_unpack _). vm_compute. exact I. }
  assert (m_SNodeSessions lan30 !! 7%N = None) as Hnone by reflexivity.
  split; [reflexivity|]. split; [reflexivity|]. split; [exact Hnew|].
  split; [exact Hnone|]. split; [|split; [reflexivity|]].
  - destruct (HandleHookedDNSMessage_snode_query
                (query_A "aaaa.snode.") (mkQuestion "aaaa.snode." qTypeA) []
                1 lan30 eq_refl eq_refl) as (Hfirst & _ & _).
    destruct (Hfirst 7%N eq_refl Hnew)
      as (ip & s1 & Ho & Hh & _ & _ & Hsess & Hmade & Hagain).
    assert (ip = 0x0A000002) as ->.
    { change ip with (ip, s1).1. rewrite <- Ho. vm_compute. reflexivity. }
    exists s1. split; [exact Hh|].
    split; [rewrite (Hsess Hnone); apply lookup_insert_eq|].
    split; [|exact (Hagain 2)].
    destruct (Hmade Hnone) as (x & Hx & H1 & H2 & H3 & H4 & H5 & _).
    exists x. split; [exact Hx|]. split; [exact H1|]. split; [exact H2|].
    split; [exact H3|]. split; [exact H4 | exact H5].
  - destruct (HandleHookedDNSMessage_snode_query
                (query_A "zzzz.snode.") (mkQuestion "zzzz.snode." qTypeA) []
                1 lan30 eq_refl eq_refl) as (_ & _ & Hnx).
    exact (Hnx eq_refl).
Defined.

(** C1 (defect).  On 10.0.0.1/30 two clients take the two addresses, each
    with an exit session, and Tick chooses their sessions.  A third client
    arrives and the first is kicked; the first comes back and the second is
    kicked.  m_IPToKey now maps 10.0.0.3 to the first client, whose entry of
    m_ChosenExits is still the pointer that Tick stored, and the session it
    pointed at was erased when the client was kicked; the client's new
    session lives elsewhere.  On a packet for 10.0.0.3 the handler of Flush
    calls QueueInboundTraffic through that pointer: the packet is neither
    delivered nor dropped with a warning, and Flush does not hand the
    endpoint on.  The next Tick would have rebuilt m_ChosenExits. *)
Theorem Flush_dereferences_erased_session :
  reachable first_returns
  ∧ m_IPToKey first_returns !! pkt_dst pkt_first = Some PK_A
  ∧ (PK_A ∉ m_SNodeKeys first_returns)
  ∧ m_ChosenExits first_returns !! PK_A = Some 1%N
  ∧ 1%N ≠ nullptr
  ∧ exit_at 1%N (m_ActiveExits first_returns) = None
  ∧ map (λ x, (x.1, ep_addr x.2)) (m_ActiveExits first_returns)
    = [(PK_A, 4%N); (PK_C, 3%N)]
  ∧ HandleInetPacket pkt_first first_returns = None
  ∧ m_InetToNetwork (OnInetPacket (Some pkt_first) first_returns)
    = [pkt_first]
  ∧ Flush (OnInetPacket (Some pkt_first) first_returns) = None
  ∧ is_Some (Tick 6 first_returns ≫= HandleInetPacket pkt_first).
Proof.
  split.
  { apply reach_AllocateNewExit, reach_AllocateNewExit.
    apply (reach_Tick 3 two_clients two_ticked); [|vm_compute; reflexivity].
    apply reach_AllocateNewExit, reach_AllocateNewExit, reach_configured.
    - repeat split.
    - vm_compute. split; [discriminate | reflexivity].
    - vm_compute. split; [discriminate | reflexivity]. }
  split; [vm_compute; reflexivity|].
  split; [vm_compute; set_solver|].
  split; [vm_compute; reflexivity|]. split; [discriminate|].
  split; [vm_compute; reflexivity|]. split; [vm_compute; reflexivity|].
  split; [vm_compute; reflexivity|]. split; [vm_compute; reflexivity|].
  split; [vm_compute; reflexivity|]. vm_compute. eauto.
Qed.

(** C7 (defect).  ShouldHookDNSMessage tests a type A name for the suffix
    with find(".snode.") == size() - 7, on names as they arrive, with the
    closing dot.  On a name of six characters, such as "a.com." or "fb.me.",
    find misses and returns npos, and size() - 7 wraps around to the same
    value: the query is hooked, and HandleHookedDNSMessage answers it with
    NXDOMAIN instead of its being forwarded.  On a name in which ".snode."
    occurs before the end as well, such as "a.snode.b.snode.", find returns
    the first place: the name ends in ".snode." and the query is not
    hooked. *)
Theorem ShouldHookDNSMessage_misjudges_names :
  reachable lan30
  ∧ String.length "a.com." = 6%nat
  ∧ ¬ ends_in ".snode." "a.com."
  ∧ string_find ".snode." "a.com." = npos
  ∧ (string_size "a.com." - 7) mod SIZE_MOD = npos
  ∧ ShouldHookDNSMessage (query_A "a.com.") lan30 = true
  ∧ HandleHookedDNSMessage (query_A "a.com.") 1 lan30
    = Some (true, lan30, Some (add_answer NXReply (query_A "a.com.")))
  ∧ ShouldHookDNSMessage (query_A "fb.me.") lan30 = true
  ∧ ends_in ".snode." "a.snode.b.snode."
  ∧ string_find ".snode." "a.snode.b.snode." = 1
  ∧ (string_size "a.snode.b.snode." - 7) mod SIZE_MOD = 9
  ∧ ShouldHookDNSMessage (query_A "a.snode.b.snode.") lan30 = false.
Proof.
  split.
  { apply reach_configured.
    - repeat split.
    - vm_compute. split; [discriminate | reflexivity].
    - vm_compute. split; [discriminate | reflexivity]. }
  split; [reflexivity|].
  split.
  { intros [base Hb]. apply (f_equal String.length) in Hb.
    rewrite append_length in Hb. simpl in Hb. lia. }
  split; [vm_compute; reflexivity|]. split; [vm_compute; reflexivity|].
  split; [vm_compute; reflexivity|]. split; [vm_compute; reflexivity|].
  split; [vm_compute; reflexivity|].
  split; [by exists "a.snode.b"|].
  split; [vm_compute; reflexivity|]. split; vm_compute; reflexivity.
Qed.

(** C4 (defect).  On 10.0.0.1/30, after GetIPForIdent for two keys,
    KickIdentOffExit of the first and GetIPForIdent for a third, m_KeyToIP
    maps the third key to 10.0.0.2 while m_IPToKey maps 10.0.0.2 to the
    all-zero key, which m_KeyToIP does not hold: the two maps are no longer
    inverses.  The last call ended on its "failed to map" error path. *)
Theorem GetIPForIdent_after_kick_unpairs_maps :
  reachable third_mapped
  ∧ (GetIPForIdent PK_C 3 first_kicked).1 = 0x0A000002
  ∧ m_KeyToIP third_mapped !! PK_C = Some 0x0A000002
  ∧ m_IPToKey third_mapped !! 0x0A000002 = Some zero_pk
  ∧ m_KeyToIP third_mapped !! zero_pk = None
  ∧ last (m_Log third_mapped) = Some (FailedToMapIP 0x0A000002 PK_C)
  ∧ level (FailedToMapIP 0x0A000002 PK_C) = LogError.
Proof.
  split.
  { apply reach_GetIPForIdent, reach_KickIdentOffExit, reach_GetIPForIdent,
      reach_GetIPForIdent, reach_configured.
    - repeat split.
    - vm_compute. split; [discriminate | reflexivity].
    - vm_compute. split; [discriminate | reflexivity]. }
  split; [vm_compute; reflexivity|]. split; [vm_compute; reflexivity|].
  split; [vm_compute; reflexivity|]. split; [vm_compute; reflexivity|].
  split; [vm_compute; reflexivity | reflexivity].
Qed.

(** C9 (defect).  On 10.0.0.1/30, after GetIPForIdent for two keys and
    KickIdentOffExit of the first, 10.0.0.2 still holds its activity
    timestamp although no key is mapped to it: the domain of m_IPActivity is
    larger than the range of m_KeyToIP. *)
Theorem KickIdentOffExit_leaves_activity_entry :
  reachable first_kicked
  ∧ m_IPActivity first_kicked = [(0x0A000002, 1); (0x0A000003, 2)]
  ∧ activity_find 0x0A000002 (m_IPActivity first_kicked) = Some 1
  ∧ m_KeyToIP first_kicked = {[PK_B := 0x0A000003]}
  ∧ m_IPToKey first_kicked !! 0x0A000002 = None.
Proof.
  split.
  { apply reach_KickIdentOffExit, reach_GetIPForIdent, reach_GetIPForIdent,
      reach_configured.
    - repeat split.
    - vm_compute. split; [discriminate | reflexivity].
    - vm_compute. split; [discriminate | reflexivity]. }
  split; [vm_compute; reflexivity|]. split; [vm_compute; reflexivity|].
  split; vm_compute; reflexivity.
Qed.
End SampleRuns.

(** * Further properties *)

(** ** Path index and session removal *)

Section path_index_facts.
Context {EL SL : Type} `{!Collaborators EL SL}.
#[local] Abbreviation State := (ExitEndpoint EL SL).
Implicit Types s : State.
Implicit Types l : list (PubKey * Endpoint EL).

Lemma find_exit_Some pk l e : find_exit pk l = Some e → (pk, e) ∈ l.
Proof.
  induction l as [|[k e0] r IH]; simpl; [done|].
  case_decide as Hk.
  - intros [= <-]. subst. left.
  - intros Hf. right. by apply IH.
Qed.

Lemma find_exit_None pk l : find_exit pk l = None ↔ ∀ e, (pk, e) ∉ l.
Proof.
  induction l as [|[k e0] r IH]; simpl.
  - split; [|done]. intros _ e. apply not_elem_of_nil.
  - case_decide as Hk.
    + split; [done|]. intros Hall. exfalso. apply (Hall e0). subst. left.
    + rewrite IH. split.
      * intros Hall e [[= ? ?] | Hin]%elem_of_cons; [congruence|].
        by apply (Hall e).
      * intros Hall e Hin. apply (Hall e). by right.
Qed.

Lemma find_exit_elem pk l e : (pk, e) ∈ l → is_Some (find_exit pk l).
Proof.
  intros Hin. destruct (find_exit pk l) eqn:E; [eauto|].
  by apply find_exit_None with (e := e) in E.
Qed.

(** X1.  UpdateEndpointPath never overwrites: for a path that m_Paths already
    knows it returns false and leaves the endpoint as it is; for an unknown
    path it returns true, maps the path to the key and changes no other
    path.  After the call the path is known, so a second call for it is
    refused whatever key it names. *)
Theorem UpdateEndpointPath_never_overwrites remote next s :
  (is_Some (m_Paths s !! next) → UpdateEndpointPath remote next s = (false, s))
  ∧ (m_Paths s !! next = None →
     (UpdateEndpointPath remote next s).1 = true
     ∧ m_Paths (UpdateEndpointPath remote next s).2 !! next = Some remote)
  ∧ (∀ p pk, m_Paths s !! p = Some pk →
             m_Paths (UpdateEndpointPath remote next s).2 !! p = Some pk)
  ∧ (∀ p, p ≠ next →
          m_Paths (UpdateEndpointPath remote next s).2 !! p = m_Paths s !! p)
  ∧ (∀ other,
       UpdateEndpointPath other next (UpdateEndpointPath remote next s).2
       = (false, (UpdateEndpointPath remote next s).2)).
Proof.
  unfold UpdateEndpointPath.
  destruct (m_Paths s !! next) as [old|] eqn:E; simpl.
  - split; [done|]. split; [done|]. split; [done|]. split; [done|].
    intros other. by rewrite E.
  - split; [by intros [? ?]|]. split; [by rewrite lookup_insert_eq|].
    split.
    { intros p pk Hp. rewrite lookup_insert_ne; [done|]. intros <-.
      by rewrite E in Hp. }
    split; [intros p Hp; by rewrite lookup_insert_ne|].
    intros other. by rewrite lookup_insert_eq.
Qed.

(** X2.  FindEndpointByPath returns nullptr for a path that m_Paths does not
    know and for a path whose key has no session in m_ActiveExits.  A
    non-null result is the address of a session of m_ActiveExits filed under
    the key of the path, with that key as its PubKey.  The LocalPath of the
    session is not looked at: two paths of one key get the same answer. *)
Theorem FindEndpointByPath_result path s :
  (m_Paths s !! path = None → FindEndpointByPath path s = nullptr)
  ∧ (∀ pk, m_Paths s !! path = Some pk → (∀ e, (pk, e) ∉ m_ActiveExits s) →
           FindEndpointByPath path s = nullptr)
  ∧ (FindEndpointByPath path s ≠ nullptr →
     ∃ pk e, m_Paths s !! path = Some pk ∧ (pk, e) ∈ m_ActiveExits s
             ∧ ep_PubKey e = pk ∧ ep_addr e = FindEndpointByPath path s)
  ∧ (∀ other, m_Paths s !! other = m_Paths s !! path →
              FindEndpointByPath other s = FindEndpointByPath path s).
Proof.
  unfold FindEndpointByPath. split; [by intros ->|]. split.
  { intros pk -> Hno. apply find_exit_None in Hno. by rewrite Hno. }
  split; [|by intros other ->].
  destruct (m_Paths s !! path) as [pk|]; [|done].
  destruct (find_exit pk (m_ActiveExits s)) as [e|] eqn:E; [|done].
  case_decide as Hk; [|done]. intros _. exists pk, e.
  split; [done|]. split; [by apply find_exit_Some|]. done.
Qed.

Lemma GetIPForIdent_exits_keyed pk now s :
  exits_keyed s → exits_keyed (GetIPForIdent pk now s).2.
Proof.
  intros Hk k e Hin. apply Hk.
  destruct (GetIPForIdent_registry_step pk now s) as (Hsub & _).
  clear Hsub. revert Hin. unfold GetIPForIdent.
  destruct (HasLocalMappedAddrFor pk s); simpl.
  - by destruct (subscript 0 pk (m_KeyToIP s)).
  - assert (∀ x, x ∈ m_ActiveExits (AllocateNewAddress s).2 →
                 x ∈ m_ActiveExits s) as Ha.
    { unfold AllocateNewAddress. case_bool_decide; [done|].
      destruct (oldest_scan _ _ _) as [found mn].
      destruct (subscript zero_pk found (m_IPToKey s)) as [old i1].
      rewrite KickIdentOffExit_unfold. simpl. unfold erase_exits.
      intros x Hx. by apply list_elem_of_filter in Hx as [_ ?]. }
    destruct (AllocateNewAddress s) as [found s1]. simpl in Ha.
    destruct (emplace pk found (m_KeyToIP s1)) as [[] k1]; simpl; [|by apply Ha].
    destruct (emplace found pk (m_IPToKey s1)) as [[] i1]; simpl; [|by apply Ha].
    destruct (HasLocalMappedAddrFor pk _); simpl; by apply Ha.
Qed.

Lemma GetIPForIdent_heap_next pk now s :
  heap_next (GetIPForIdent pk now s).2 = heap_next s.
Proof.
  unfold GetIPForIdent. destruct (HasLocalMappedAddrFor pk s); simpl.
  - by destruct (subscript 0 pk (m_KeyToIP s)).
  - assert (heap_next (AllocateNewAddress s).2 = heap_next s) as Ha.
    { unfold AllocateNewAddress. case_bool_decide; [done|].
      destruct (oldest_scan _ _ _) as [found mn].
      destruct (subscript zero_pk found (m_IPToKey s)) as [old i1].
      by rewrite KickIdentOffExit_unfold. }
    destruct (AllocateNewAddress s) as [found s1]. simpl in Ha.
    destruct (emplace pk found (m_KeyToIP s1)) as [[] k1]; simpl; [|done].
    destruct (emplace found pk (m_IPToKey s1)) as [[] i1]; simpl; [|done].
    by destruct (HasLocalMappedAddrFor pk _).
Qed.

(** X3.  After AllocateNewExit has accepted (pk, path), FindEndpointByPath
    for that path returns a session: a non-null address of a session of
    m_ActiveExits under pk.  This holds on an endpoint whose sessions are
    filed under their own keys at non-null addresses and whose next free
    address is not null. *)
Theorem AllocateNewExit_then_FindEndpointByPath pk path wantInternet now s :
  wantInternet && negb (m_PermitExit s) = false →
  exits_keyed s → heap_next s ≠ nullptr →
  let s' := (AllocateNewExit pk path wantInternet now s).2 in
  exits_keyed s'
  ∧ FindEndpointByPath path s' ≠ nullptr
  ∧ ∃ e, (pk, e) ∈ m_ActiveExits s' ∧ ep_PubKey e = pk
         ∧ FindEndpointByPath path s' = ep_addr e.
Proof.
  intros Hacc Hk Hheap. simpl.
  rewrite (AllocateNewExit_accepted _ _ _ _ _ Hacc). simpl.
  rewrite <- (GetIPForIdent_heap_next pk now s) in Hheap.
  pose proof (GetIPForIdent_exits_keyed pk now s Hk) as Hk1.
  destruct (GetIPForIdent pk now s) as [ip s1]. simpl in *.
  set (s2 := if TransitHopPreviousIsRouter path pk
             then set_SNodeKeys ({[pk]} ∪ m_SNodeKeys s1) s1 else s1).
  assert (m_ActiveExits s2 = m_ActiveExits s1 ∧ heap_next s2 = heap_next s1)
    as [Ea Eh] by (unfold s2; by destruct (TransitHopPreviousIsRouter path pk)).
  rewrite Ea, Eh.
  split.
  { intros k e [[= -> ->] | Hin]%elem_of_cons; [done | by apply Hk1]. }
  unfold FindEndpointByPath. simpl. rewrite lookup_insert_eq. simpl.
  rewrite !decide_True by done. split; [done|].
  eexists. split; [left|]. done.
Qed.

(** X4.  DelEndpointInfo forgets the path: FindEndpointByPath then returns
    nullptr for it and answers as before for every other path, no session is
    removed, and UpdateEndpointPath accepts the path again. *)
Theorem DelEndpointInfo_forgets_path path s :
  FindEndpointByPath path (DelEndpointInfo path s) = nullptr
  ∧ (∀ p, p ≠ path →
          FindEndpointByPath p (DelEndpointInfo path s) = FindEndpointByPath p s)
  ∧ m_ActiveExits (DelEndpointInfo path s) = m_ActiveExits s
  ∧ (∀ remote,
       (UpdateEndpointPath remote path (DelEndpointInfo path s)).1 = true
       ∧ m_Paths (UpdateEndpointPath remote path (DelEndpointInfo path s)).2
           !! path = Some remote).
Proof.
  unfold FindEndpointByPath, DelEndpointInfo, UpdateEndpointPath. simpl.
  rewrite lookup_delete_eq. split; [done|]. split.
  { intros p Hp. by rewrite lookup_delete_ne. }
  split; [done|]. intros remote. simpl. by rewrite lookup_insert_eq.
Qed.

Lemma erase_first_exit_absent pk path l :
  (∀ e, (pk, e) ∈ l → ep_LocalPath e ≠ path) →
  erase_first_exit pk path l = l.
Proof.
  induction l as [|[k e] r IH]; simpl; [done|]. intros Hno.
  rewrite decide_False.
  - f_equal. apply IH. intros e' He'. apply Hno. by right.
  - intros [-> Hp]. by apply (Hno e); [left|].
Qed.

Lemma erase_first_exit_split pk path l e :
  (pk, e) ∈ l → ep_LocalPath e = path →
  ∃ l1 e1 l2,
    l = l1 ++ (pk, e1) :: l2 ∧ ep_LocalPath e1 = path
    ∧ (∀ e', (pk, e') ∈ l1 → ep_LocalPath e' ≠ path)
    ∧ erase_first_exit pk path l = l1 ++ l2.
Proof.
  induction l as [|[k e0] r IH]; simpl.
  - by intros ?%elem_of_nil.
  - intros Hin Hp. case_decide as Hm.
    + destruct Hm as [-> Hp0]. exists [], e0, r. split; [done|].
      split; [done|]. split; [|done]. by intros e' ?%elem_of_nil.
    + apply elem_of_cons in Hin as [[= <- <-] | Hin]; [by destruct Hm|].
      destruct (IH Hin Hp) as (l1 & e1 & l2 & -> & Hp1 & Hfirst & ->).
      exists ((k, e0) :: l1), e1, l2. split; [done|]. split; [done|].
      split; [|done].
      intros e' [[= -> ->] | He']%elem_of_cons; [|by apply Hfirst].
      intros Hp'. by apply Hm.
Qed.

(** X5.  RemoveExit(ep) erases one session at most: the first session of
    m_ActiveExits filed under ep's key whose LocalPath is ep's, where there
    is one, and nothing where there is none.  Sessions under another key or
    on another path all stay.  m_ChosenExits, the identity map and the
    address pool are left as they are. *)
Theorem RemoveExit_effect ep s :
  ((∀ e, (ep_PubKey ep, e) ∈ m_ActiveExits s →
         ep_LocalPath e ≠ ep_LocalPath ep) →
   RemoveExit ep s = s)
  ∧ (∀ e, (ep_PubKey ep, e) ∈ m_ActiveExits s →
          ep_LocalPath e = ep_LocalPath ep →
     ∃ l1 e1 l2,
       m_ActiveExits s = l1 ++ (ep_PubKey ep, e1) :: l2
       ∧ ep_LocalPath e1 = ep_LocalPath ep
       ∧ (∀ e', (ep_PubKey ep, e') ∈ l1 → ep_LocalPath e' ≠ ep_LocalPath ep)
       ∧ m_ActiveExits (RemoveExit ep s) = l1 ++ l2)
  ∧ (∀ x, x.1 ≠ ep_PubKey ep ∨ ep_LocalPath x.2 ≠ ep_LocalPath ep →
          x ∈ m_ActiveExits (RemoveExit ep s) ↔ x ∈ m_ActiveExits s)
  ∧ m_ChosenExits (RemoveExit ep s) = m_ChosenExits s
  ∧ pool_view (RemoveExit ep s) = pool_view s.
Proof.
  unfold RemoveExit. split; [|split; [|split]].
  - intros Hno. rewrite (erase_first_exit_absent _ _ _ Hno). by destruct s.
  - intros e Hin Hp. simpl. by apply (erase_first_exit_split _ _ _ e).
  - intros [k e] Hx. simpl in *.
    induction (m_ActiveExits s) as [|[k0 e0] r IH]; simpl; [done|].
    case_decide as Hm.
    + destruct Hm as [-> Hp0]. rewrite elem_of_cons. split; [by right|].
      intros [[= -> ->] | ?]; [|done]. by destruct Hx.
    + by rewrite !elem_of_cons, IH.
  - done.
Qed.

(** X6.  Where no session of pk is on the path yet, RemoveExit of the
    session that AllocateNewExit has just made puts m_ActiveExits back to
    what GetIPForIdent had left, and pk stays mapped to its address:
    RemoveExit releases no address. *)
Theorem RemoveExit_after_AllocateNewExit pk path wantInternet now s :
  wantInternet && negb (m_PermitExit s) = false →
  (∀ e, (pk, e) ∈ m_ActiveExits s → ep_LocalPath e ≠ path) →
  let s1 := (GetIPForIdent pk now s).2 in
  let s' := (AllocateNewExit pk path wantInternet now s).2 in
  ∀ ep, ep_PubKey ep = pk → ep_LocalPath ep = path →
    m_ActiveExits (RemoveExit ep s') = m_ActiveExits s1
    ∧ HasLocalMappedAddrFor pk (RemoveExit ep s') = true
    ∧ m_KeyToIP (RemoveExit ep s') = m_KeyToIP s1.
Proof.
  intros Hacc Hno s1 s' ep Hk Hp. subst s1 s'.
  rewrite (AllocateNewExit_accepted _ _ _ _ _ Hacc). simpl.
  pose proof (GetIPForIdent_mapped pk now s) as Hm.
  destruct (GetIPForIdent pk now s) as [ip s1]. simpl in *.
  set (s2 := if TransitHopPreviousIsRouter path pk
             then set_SNodeKeys ({[pk]} ∪ m_SNodeKeys s1) s1 else s1).
  assert (m_ActiveExits s2 = m_ActiveExits s1 ∧ m_Paths s2 = m_Paths s1
          ∧ m_KeyToIP s2 = m_KeyToIP s1) as (Ea & Epa & Ek)
    by (unfold s2; by destruct (TransitHopPreviousIsRouter path pk)).
  unfold RemoveExit, HasLocalMappedAddrFor. simpl.
  rewrite Hk, Hp, decide_True by done. rewrite Ea, Ek.
  split; [done|]. split; [|done].
  apply bool_decide_eq_true. rewrite Hm. eauto.
Qed.

(** X7.  After KickIdentOffExit(pk), FindEndpointByPath answers nullptr for
    every path of pk, whether or not the path has been taken out of the path
    index, because every session under the key is gone; and it answers as
    before for the paths of every other key. *)
Theorem KickIdentOffExit_then_FindEndpointByPath pk s :
  (∀ path, m_Paths s !! path = Some pk →
     FindEndpointByPath path (KickIdentOffExit pk s) = nullptr
     ∧ FindEndpointByPath path (DelEndpointInfo path (KickIdentOffExit pk s))
       = nullptr)
  ∧ (∀ path other, m_Paths s !! path = Some other → other ≠ pk →
       FindEndpointByPath path (KickIdentOffExit pk s)
       = FindEndpointByPath path s).
Proof.
  rewrite KickIdentOffExit_unfold. unfold FindEndpointByPath. simpl. split.
  - intros path Hp. rewrite lookup_delete_eq, Hp. split; [|done].
    assert (find_exit pk (erase_exits pk (m_ActiveExits s)) = None) as ->; [|done].
    apply find_exit_None. intros e Hin. unfold erase_exits in Hin.
    by apply list_elem_of_filter in Hin as [Hne _].
  - intros path other -> Hne.
    assert (find_exit other (erase_exits pk (m_ActiveExits s))
            = find_exit other (m_ActiveExits s)) as ->; [|done].
    unfold erase_exits.
    induction (m_ActiveExits s) as [|[k e] r IH]; [done|].
    rewrite filter_cons. simpl. destruct (decide (k = other)) as [->|Hko].
    + rewrite decide_True by done. simpl. by rewrite decide_True.
    + destruct (decide (k ≠ pk)); simpl; [by rewrite decide_False|done].
Qed.

(** Sessions at distinct addresses: the address tells the entry. *)
Lemma addrs_unique l x y :
  NoDup (addrs l) → x ∈ l → y ∈ l → ep_addr x.2 = ep_addr y.2 → x = y.
Proof.
  induction l as [|z r IH]; [by intros _ ?%elem_of_nil|].
  unfold addrs. simpl. intros [Hnotin Hnd]%NoDup_cons.
  intros [-> | Hx]%elem_of_cons [-> | Hy]%elem_of_cons Ha; [done| | |by apply IH].
  - exfalso. apply Hnotin. rewrite Ha. apply list_elem_of_fmap. by exists y.
  - exfalso. apply Hnotin. rewrite <- Ha. apply list_elem_of_fmap. by exists x.
Qed.

Lemma exit_at_None p l : exit_at p l = None ↔ p ∉ addrs l.
Proof.
  rewrite eq_None_not_Some, exit_at_is_Some. unfold addrs. split.
  - intros Hno Hin. apply Hno. apply list_elem_of_fmap in Hin as (x & -> & Hx).
    eauto.
  - intros Hno (x & Hx & Ha). apply Hno. apply list_elem_of_fmap. eauto.
Qed.

(** X8.  KickIdentOffExit leaves m_ChosenExits alone.  Where the chosen
    pointer of the kicked key pointed at one of its sessions (sessions living
    at distinct addresses), the pointer is still there after the kick and no
    session of m_ActiveExits lives at it any more; the next Tick rebuilds
    m_ChosenExits with live pointers only. *)
Theorem KickIdentOffExit_leaves_chosen_pointer pk p e s :
  NoDup (addrs (m_ActiveExits s)) →
  m_ChosenExits s !! pk = Some p → p ≠ nullptr →
  (pk, e) ∈ m_ActiveExits s → ep_addr e = p →
  m_ChosenExits (KickIdentOffExit pk s) = m_ChosenExits s
  ∧ exit_at p (m_ActiveExits (KickIdentOffExit pk s)) = None
  ∧ ¬ chosen_live (KickIdentOffExit pk s)
  ∧ ∀ now, ∃ s', Tick now (KickIdentOffExit pk s) = Some s' ∧ chosen_live s'.
Proof.
  intros Hnd Hc Hp Hin Ha.
  assert (exit_at p (m_ActiveExits (KickIdentOffExit pk s)) = None) as Hgone.
  { rewrite KickIdentOffExit_unfold. simpl. apply exit_at_None.
    unfold erase_exits, addrs. intros Hm.
    apply list_elem_of_fmap in Hm as (x & Ha' & Hf).
    apply list_elem_of_filter in Hf as [Hne Hin'].
    assert (x = (pk, e)) as ->; [|done].
    apply (addrs_unique (m_ActiveExits s)); [done..|]. simpl. congruence. }
  assert (m_ChosenExits (KickIdentOffExit pk s) = m_ChosenExits s) as Hsame
    by by rewrite KickIdentOffExit_unfold.
  split; [done|]. split; [done|]. split.
  - intros Hlive. rewrite <- Hsame in Hc.
    destruct (Hlive pk p Hc Hp) as [x Hx]. by rewrite Hgone in Hx.
  - intros now. destruct (Tick_runs now (KickIdentOffExit pk s))
      as (chosen & Ht & _).
    eexists. split; [exact Ht|]. by apply (Tick_chosen_live now _ _ Ht).
Qed.
End path_index_facts.

(** ** Eviction and the gateway address *)



Section eviction.
Context {EL SL : Type} `{!Collaborators EL SL}.
#[local] Abbreviation State := (ExitEndpoint EL SL).
Implicit Types s : State.

Lemma AllocateNewAddress_records s ip :
  known_address ip (AllocateNewAddress s).2 →
  known_address ip s ∨ ip = (AllocateNewAddress s).1.
Proof.
  unfold AllocateNewAddress. case_bool_decide; [by left|].
  destruct (oldest_scan _ _ _) as [found mn].
  destruct (subscript zero_pk found (m_IPToKey s)) as [old i1] eqn:Es. simpl.
  rewrite KickIdentOffExit_unfold. simpl.
  intros [[k Hk] | [[v Hv] | Ha]]; simpl in Hk || simpl in Hv || simpl in Ha.
  - apply lookup_delete_Some in Hk as [_ Hk]. left; left; eauto.
  - apply lookup_delete_Some in Hv as [_ Hv].
    unfold subscript in Es. destruct (m_IPToKey s !! found) eqn:E.
    + injection Es as <- <-. left; right; left; eauto.
    + injection Es as <- <-. apply lookup_insert_Some in Hv as [[<- _] | [_ Hv]].
      * by right.
      * left; right; left; eauto.
  - left; right; by right.
Qed.

Lemma AllocateNewAddress_IfAddr s :
  m_IfAddr (AllocateNewAddress s).2 = m_IfAddr s
  ∧ m_HigestAddr (AllocateNewAddress s).2 = m_HigestAddr s.
Proof.
  unfold AllocateNewAddress. case_bool_decide; [done|].
  destruct (oldest_scan _ _ _) as [found mn].
  destruct (subscript zero_pk found (m_IPToKey s)) as [old i1].
  by rewrite KickIdentOffExit_unfold.
Qed.

(** GetIPForIdent records no address but the one it returns, and moves
    neither end of the range. *)
Lemma GetIPForIdent_records pk now s :
  m_IfAddr (GetIPForIdent pk now s).2 = m_IfAddr s
  ∧ m_HigestAddr (GetIPForIdent pk now s).2 = m_HigestAddr s
  ∧ ∀ ip, known_address ip (GetIPForIdent pk now s).2 →
          known_address ip s ∨ ip = (GetIPForIdent pk now s).1.
Proof.
  unfold GetIPForIdent. destruct (HasLocalMappedAddrFor pk s) eqn:Hm; simpl.
  - apply HasLocalMappedAddrFor_true in Hm as [ip0 Hip].
    rewrite (subscript_present _ _ _ _ Hip). simpl.
    split; [done|]. split; [done|].
    intros ip [Hk | [Hi | [t Ht]]]; simpl in *.
    + left; by left.
    + left; right; by left.
    + apply activity_assign_elem in Ht as [[= -> ->] | Ht]; [by right|].
      left; right; right; eauto.
  - apply HasLocalMappedAddrFor_false in Hm.
    pose proof (AllocateNewAddress_keeps_unmapped pk s Hm) as Hk.
    destruct (AllocateNewAddress_IfAddr s) as [E1 E2].
    pose proof (AllocateNewAddress_records s) as Hrec.
    destruct (AllocateNewAddress s) as [found s1]. simpl in Hk, E1, E2, Hrec.
    rewrite (emplace_absent _ _ _ Hk). simpl.
    unfold emplace. destruct (m_IPToKey s1 !! found) eqn:Ei; simpl.
    + split; [done|]. split; [done|].
      intros ip [[k Hk'] | [Hi | Ha]]; simpl in Hk' || simpl in Hi || simpl in Ha.
      * apply lookup_insert_Some in Hk' as [[_ <-] | [_ Hk']]; [by right|].
        apply Hrec. left; eauto.
      * apply Hrec. right; by left.
      * apply Hrec. right; by right.
    + match goal with
      | |- context [if ?b then log ?x ?t else log ?y ?t] =>
          replace (if b then log x t else log y t)
            with (log (if b then x else y) t) by by destruct b
      end.
      simpl. split; [done|]. split; [done|].
      intros ip [[k Hk'] | [[v Hi] | [t Ht]]];
        simpl in Hk' || simpl in Hi || simpl in Ht.
      * apply lookup_insert_Some in Hk' as [[_ <-] | [_ Hk']]; [by right|].
        apply Hrec. left; eauto.
      * apply lookup_insert_Some in Hi as [[<- _] | [_ Hi]]; [by right|].
        apply Hrec. right; left; eauto.
      * apply activity_assign_elem in Ht as [[= -> ->] | Ht]; [by right|].
        apply Hrec. right; right; eauto.
Qed.

Lemma GetIPForIdent_above_gateway pk now s :
  paired s → pool_ok s → above_gateway s →
  above_gateway (GetIPForIdent pk now s).2.
Proof.
  intros Hp Hok Hab ip Hip.
  destruct (GetIPForIdent_records pk now s) as (E1 & _ & Hrec). rewrite E1.
  destruct (Hrec ip Hip) as [? | ->]; [by apply Hab|].
  destruct (m_KeyToIP s !! pk) as [ip0|] eqn:Hm.
  - rewrite (GetIPForIdent_known _ _ _ _ Hm). simpl. apply Hab. left. eauto.
  - pose proof (GetIPForIdent_mapped pk now s) as Hmap.
    assert ((GetIPForIdent pk now s).1 = (AllocateNewAddress s).1) as ->.
    { unfold GetIPForIdent.
      rewrite (proj2 (HasLocalMappedAddrFor_false pk s) Hm). simpl.
      destruct (AllocateNewAddress s) as [found s1]. simpl.
      destruct (emplace pk found (m_KeyToIP s1)) as [[] k1]; simpl; [|done].
      by destruct (emplace found pk (m_IPToKey s1)) as [[] i1]. }
    destruct Hp as (P1 & P2 & P3 & P4).
    pose proof Hok as (H0 & H1 & H2 & H3 & H4).
    destruct (decide (m_NextAddr s < m_HigestAddr s)) as [Hlt|Hge].
    + unfold AllocateNewAddress. rewrite bool_decide_eq_true_2 by done. simpl.
      rewrite Z.mod_small by (unfold UINT32_MOD in *; lia). lia.
    + rewrite (AllocateNewAddress_evict s Hge). simpl.
      assert (m_IPActivity s ≠ []) as Hne by (intros E; apply Hge, P4, E).
      destruct (oldest_scan_picks _ 0 llarp_time_max Hne P3) as [t Ht].
      apply Hab. right; right. eauto.
Qed.

(** Along GetIPForIdent calls under a clock below the maximum time value,
    the three state predicates hold together. *)
Lemma GetIPForIdent_each_steady calls s :
  paired s → pool_ok s → above_gateway s →
  Forall (λ c, c.2 < llarp_time_max) calls →
  paired (GetIPForIdent_each calls s)
  ∧ pool_ok (GetIPForIdent_each calls s)
  ∧ above_gateway (GetIPForIdent_each calls s)
  ∧ m_IfAddr (GetIPForIdent_each calls s) = m_IfAddr s
  ∧ m_HigestAddr (GetIPForIdent_each calls s) = m_HigestAddr s.
Proof.
  revert s. induction calls as [|[pk now] r IH]; intros s Hp Hok Hab Hall; simpl.
  - done.
  - apply Forall_cons in Hall as [Hnow Hall].
    destruct (GetIPForIdent_records pk now s) as (E1 & E2 & _).
    rewrite <- E1, <- E2. apply IH; [| | |done].
    + by apply GetIPForIdent_paired.
    + by apply GetIPForIdent_pool_ok.
    + by apply GetIPForIdent_above_gateway.
Qed.

Lemma SetOption_ifaddr_above_gateway host mask s :
  unused s → above_gateway (SetOption_ifaddr host mask s).
Proof.
  intros (Hk & Hi & Ha & _) ip [[k Hkk] | [Hii | [t Ht]]]; simpl in *.
  - by rewrite Hk in Hkk.
  - rewrite Hi in Hii. by destruct Hii.
  - rewrite Ha in Ht. by apply elem_of_nil in Ht.
Qed.

(** X9.  On an endpoint configured with room for a client, after any sequence
    of GetIPForIdent calls under a clock below the maximum time value, every
    mapped address lies above the gateway address and at most at
    m_HigestAddr: the gateway address is never given to an identity, and
    distinct keys hold distinct addresses. *)
Theorem GetIPForIdent_each_inside_pool calls host mask s0 :
  unused s0 → 0 ≤ host < UINT32_MOD → 0 ≤ mask < UINT32_MOD →
  host < Z.lor host (Z.lxor mask (UINT32_MOD - 1)) →
  Forall (λ c, c.2 < llarp_time_max) calls →
  let s := GetIPForIdent_each calls (SetOption_ifaddr host mask s0) in
  (∀ pk ip, m_KeyToIP s !! pk = Some ip →
            host < ip ≤ Z.lor host (Z.lxor mask (UINT32_MOD - 1)))
  ∧ (∀ pk pk' ip, m_KeyToIP s !! pk = Some ip → m_KeyToIP s !! pk' = Some ip →
                  pk = pk').
Proof.
  intros Hu Hh Hm Hroom Hall s.
  destruct (GetIPForIdent_each_steady calls (SetOption_ifaddr host mask s0))
    as ((P1 & _) & Hok & Hab & E1 & E2);
    [by apply SetOption_ifaddr_paired | by apply SetOption_ifaddr_pool_ok
    | by apply SetOption_ifaddr_above_gateway | done |].
  fold s in P1, Hok, Hab, E1, E2. simpl in E1, E2. split.
  - intros pk ip Hip. destruct Hok as (_ & _ & H2 & _ & H4).
    assert (known_address ip s) as Hkn by (left; eauto).
    apply Hab in Hkn as Hgt. apply H4 in Hkn. rewrite E1 in Hgt.
    rewrite E2 in H2. lia.
  - intros pk pk' ip H1 H2. apply P1 in H1, H2. congruence.
Qed.

End eviction.

(** ** Reverse queries *)

Section reverse_names.
Context {EL SL : Type} `{!Collaborators EL SL}.
#[local] Abbreviation State := (ExitEndpoint EL SL).
Implicit Types s : State.

Lemma HandleHookedDNSMessage_PTR msg q rest now s :
  questions msg = q :: rest → qtype q = qTypePTR →
  HandleHookedDNSMessage msg now s =
  match DecodePTR (qname q) with
  | None => Some (false, s, None)
  | Some ip =>
      if bool_decide (ip = m_IfAddr s) then
        Some (true, s,
              Some (add_answer
                      (AReply (RouterID_ToString router_pubkey) (Some 300))
                      msg))
      else
        match m_IPToKey s !! ip with
        | Some them =>
            if bool_decide (them ∈ m_SNodeKeys s) then
              Some (true, s,
                    Some (add_answer (AReply (RouterID_ToString them) None) msg))
            else Some (true, s, Some (add_answer NXReply msg))
        | None => Some (true, s, Some (add_answer NXReply msg))
        end
  end.
Proof.
  intros Hq Hp. unfold HandleHookedDNSMessage. rewrite Hq.
  by rewrite (bool_decide_eq_true_2 _ Hp).
Qed.

(** X11.  A type PTR query never changes the endpoint.  When the name does
    not decode, the handler returns false and sends no reply.  Otherwise it
    returns true and replies with the message and one answer more, and that
    answer carries a name only in two cases: the address is the gateway
    address (our own name, ttl 300), or the address is bound to a key of
    m_SNodeKeys (that key's name); the address of any other identity gets
    NXDOMAIN, so the key of a client is never disclosed. *)
Theorem HandleHookedDNSMessage_reverse_query msg q rest now s :
  questions msg = q :: rest → qtype q = qTypePTR →
  ∃ flag reply,
    HandleHookedDNSMessage msg now s = Some (flag, s, reply)
    ∧ (DecodePTR (qname q) = None → flag = false ∧ reply = None)
    ∧ (∀ ip, DecodePTR (qname q) = Some ip →
         ∃ ans, flag = true ∧ reply = Some (add_answer ans msg)
           ∧ (ip = m_IfAddr s →
              ans = AReply (RouterID_ToString router_pubkey) (Some 300))
           ∧ (ip ≠ m_IfAddr s →
              ∀ them, m_IPToKey s !! ip = Some them → them ∈ m_SNodeKeys s →
                      ans = AReply (RouterID_ToString them) None)
           ∧ (∀ name ttl, ans = AReply name ttl →
                ip = m_IfAddr s
                ∨ ∃ them, m_IPToKey s !! ip = Some them
                          ∧ them ∈ m_SNodeKeys s
                          ∧ name = RouterID_ToString them)
           ∧ (∀ a, ans ≠ INReply a)).
Proof.
  intros Hq Hp. rewrite (HandleHookedDNSMessage_PTR _ _ _ _ _ Hq Hp).
  destruct (DecodePTR (qname q)) as [ip|].
  - case_bool_decide as Hgw.
    + eexists _, _. split; [done|]. split; [done|].
      intros ? [= <-]. eexists. split; [done|]. split; [done|].
      split; [done|]. split; [done|]. split; [by left | done].
    + destruct (m_IPToKey s !! ip) as [them|] eqn:Hip.
      * case_bool_decide as Hsn.
        -- eexists _, _. split; [done|]. split; [done|].
           intros ? [= <-]. eexists. split; [done|]. split; [done|].
           split; [done|]. split.
           { intros _ t Ht _. rewrite Hip in Ht. by injection Ht as <-. }
           split; [|done]. intros name ttl [= <- _]. right. by exists them.
        -- eexists _, _. split; [done|]. split; [done|].
           intros ? [= <-]. eexists. split; [done|]. split; [done|].
           split; [done|]. split.
           { intros _ t Ht Hin. rewrite Hip in Ht. by injection Ht as <-. }
           done.
      * eexists _, _. split; [done|]. split; [done|].
        intros ? [= <-]. eexists. split; [done|]. split; [done|].
        split; [done|]. split.
        { intros _ t Ht. by rewrite Hip in Ht. }
        done.
  - eexists _, _. split; [done|]. split; done.
Qed.


(** X13.  KickIdentOffExit leaves m_SNodeKeys and m_SNodeSessions alone.
    Once a key of m_SNodeKeys has been kicked, the type A query for its name
    falls into the branch the source calls the fallback case: the reply is
    NXDOMAIN and the endpoint is left as it is, so every later query gets
    the same reply; the key is still in m_SNodeKeys and the outbound session
    of m_SNodeSessions is still there. *)
Theorem HandleHookedDNSMessage_after_KickIdentOffExit msg q rest r now s :
  questions msg = q :: rest → qtype q = qTypeA →
  RouterID_FromString (qname q) = Some r → r ∈ m_SNodeKeys s →
  HandleHookedDNSMessage msg now (KickIdentOffExit r s)
  = Some (true, KickIdentOffExit r s, Some (add_answer NXReply msg))
  ∧ r ∈ m_SNodeKeys (KickIdentOffExit r s)
  ∧ m_SNodeSessions (KickIdentOffExit r s) = m_SNodeSessions s.
Proof.
  intros Hq HA Hr Hin.
  assert (bool_decide (qtype q = qTypePTR) = false) as Hptr.
  { apply bool_decide_eq_false. rewrite HA. discriminate. }
  rewrite KickIdentOffExit_unfold. simpl. split; [|done].
  unfold HandleHookedDNSMessage. rewrite Hq, Hptr.
  rewrite (bool_decide_eq_true_2 _ HA), Hr. simpl.
  rewrite bool_decide_eq_false_2 by (intros Hn; by apply Hn).
  by rewrite lookup_delete_eq.
Qed.
End reverse_names.

(** ** What a flush leaves alone *)

Section flush_facts.
Context {EL SL : Type} `{!Collaborators EL SL}.
#[local] Abbreviation State := (ExitEndpoint EL SL).
Implicit Types s : State.

Lemma flush_frame_refl s : flush_frame s s.
Proof. unfold flush_frame. repeat split; auto. Qed.

Lemma flush_frame_trans s1 s2 s3 :
  flush_frame s1 s2 → flush_frame s2 s3 → flush_frame s1 s3.
Proof.
  intros (A1 & A2 & A3 & A4 & A5 & A6 & A7 & A8)
         (B1 & B2 & B3 & B4 & B5 & B6 & B7 & B8).
  unfold flush_frame.
  split; [congruence|]. split; [congruence|]. split; [congruence|].
  split; [congruence|]. split; [congruence|]. split; [congruence|].
  split; [congruence|].
  intros k. destruct (A8 k) as [Ea | [Ea1 Ea2]], (B8 k) as [Eb | [Eb1 Eb2]].
  - left. congruence.
  - right. split; congruence.
  - right. split; congruence.
  - congruence.
Qed.

Lemma flush_frame_log e s : flush_frame s (log e s).
Proof. unfold flush_frame. simpl. repeat split; auto. Qed.

Lemma flush_frame_logs (es : list LogEntry) s :
  flush_frame s (foldl (λ a e, log e a) s es).
Proof.
  revert s. induction es as [|e es IH]; intros s; simpl.
  - apply flush_frame_refl.
  - eapply flush_frame_trans; [apply flush_frame_log | apply IH].
Qed.

Lemma exit_ident_exit_store p (l' : EL) (l : list (PubKey * Endpoint EL)) :
  map exit_ident (exit_store p l' l) = map exit_ident l.
Proof.
  unfold exit_store. rewrite map_map. apply map_ext. intros [k e]. simpl.
  by destruct (decide (ep_addr e = p)).
Qed.

Lemma exit_ident_flush_exit (l : list (PubKey * Endpoint EL)) :
  map exit_ident (map fst (map flush_exit l)) = map exit_ident l.
Proof.
  rewrite !map_map. apply map_ext. intros [k e]. unfold flush_exit. simpl.
  by destruct (ep_Flush e).
Qed.

Lemma try_snode_session_flush_frame pk pkt s :
  flush_frame s (try_snode_session pk pkt s).2.
Proof.
  unfold try_snode_session. case_bool_decide; [|apply flush_frame_refl].
  destruct (m_SNodeSessions s !! pk) as [x|] eqn:Ex; [|apply flush_frame_refl].
  destruct (sn_QueueUpstreamTraffic x pkt ExitPadSize) as [ok l]. simpl.
  unfold flush_frame. simpl.
  split; [done|]. split; [done|]. split; [done|]. split; [done|].
  split; [done|]. split; [by apply dom_insert_lookup_L|]. split; [done|auto].
Qed.

Lemma HandleInetPacket_flush_frame pkt s s' :
  HandleInetPacket pkt s = Some s' → flush_frame s s'.
Proof.
  unfold HandleInetPacket. destruct (m_IPToKey s !! pkt_dst pkt) as [pk|].
  - pose proof (try_snode_session_flush_frame pk pkt s) as Ht.
    destruct (try_snode_session pk pkt s) as [sent s1]. simpl in Ht.
    destruct sent; [by intros [= <-]|].
    intros Hs. eapply flush_frame_trans; [exact Ht|]. revert Hs.
    assert (flush_frame s1
              (set_ChosenExits (subscript nullptr pk (m_ChosenExits s1)).2 s1))
      as Hc.
    { unfold flush_frame. simpl.
      split; [done|]. split; [done|]. split; [done|]. split; [done|].
      split; [done|]. split; [done|]. split; [done|].
      intros k. unfold subscript.
      destruct (m_ChosenExits s1 !! pk) eqn:E; simpl; [by left|].
      destruct (decide (k = pk)) as [->|Hne].
      - right. split; [done | apply lookup_insert_eq].
      - left. by rewrite lookup_insert_ne. }
    destruct (subscript nullptr pk (m_ChosenExits s1)) as [ep c1]. simpl in Hc.
    destruct (decide (ep = nullptr)).
    + intros [= <-]. eapply flush_frame_trans; [exact Hc|apply flush_frame_log].
    + destruct (exit_at ep _) as [e|]; [|done].
      destruct (ep_QueueInboundTraffic e (pkt_Buffer pkt)) as [ok l].
      intros [= <-]. eapply flush_frame_trans; [exact Hc|].
      assert (flush_frame (set_ChosenExits c1 s1)
                (set_ActiveExits
                   (exit_store ep l (m_ActiveExits (set_ChosenExits c1 s1)))
                   (set_ChosenExits c1 s1))) as Ha.
      { unfold flush_frame. simpl.
        split; [done|]. split; [done|]. split; [done|]. split; [done|].
        split; [done|]. split; [done|].
        split; [apply exit_ident_exit_store | auto]. }
      destruct ok; [exact Ha|].
      eapply flush_frame_trans; [exact Ha | apply flush_frame_log].
  - intros [= <-]. apply flush_frame_log.
Qed.

Lemma Process_flush_frame q s s' : Process q s = Some s' → flush_frame s s'.
Proof.
  revert s. induction q as [|pkt q IH]; intros s; simpl.
  - intros [= <-]. apply flush_frame_refl.
  - destruct (HandleInetPacket pkt s) as [s1|] eqn:E; [|done].
    intros Hp. eapply flush_frame_trans; [|by apply IH].
    by apply (HandleInetPacket_flush_frame pkt).
Qed.

Lemma flush_sessions_flush_frame s : flush_frame s (flush_sessions s).
Proof.
  unfold flush_sessions.
  set (s1 := set_ActiveExits (map fst (map flush_exit (m_ActiveExits s))) s).
  set (s2 := foldl (λ a e, log e a) s1 _).
  assert (flush_frame s s1) as H1.
  { unfold flush_frame, s1. simpl.
    split; [done|]. split; [done|]. split; [done|]. split; [done|].
    split; [done|]. split; [done|].
    split; [apply exit_ident_flush_exit | auto]. }
  assert (flush_frame s1 s2) as H2 by apply flush_frame_logs.
  eapply flush_frame_trans; [exact H1|].
  eapply flush_frame_trans; [exact H2|].
  eapply flush_frame_trans; [|apply flush_frame_logs].
  unfold flush_frame. simpl.
  split; [done|]. split; [done|]. split; [done|]. split; [done|].
  split; [done|]. split; [apply dom_fmap_L|]. split; [done|auto].
Qed.

(** X14.  A flush that returns has emptied the inbound queue and has left
    the identity map, the activity table, the address pool, the path index,
    m_SNodeKeys and m_PermitExit as they were.  It creates and removes no
    session: m_SNodeSessions holds sessions for the same keys, and
    m_ActiveExits the same sessions in the same order, their link states
    apart.  In m_ChosenExits it changes no entry; the only entries it adds
    are null pointers, for keys that had none. *)
Theorem Flush_keeps_sessions_and_pool s s' :
  Flush s = Some s' →
  m_InetToNetwork s' = []
  ∧ pool_view s' = pool_view s
  ∧ m_Paths s' = m_Paths s ∧ m_SNodeKeys s' = m_SNodeKeys s
  ∧ m_PermitExit s' = m_PermitExit s
  ∧ dom (m_SNodeSessions s') = dom (m_SNodeSessions s)
  ∧ map exit_ident (m_ActiveExits s') = map exit_ident (m_ActiveExits s)
  ∧ (∀ k, m_ChosenExits s' !! k = m_ChosenExits s !! k
          ∨ (m_ChosenExits s !! k = None
             ∧ m_ChosenExits s' !! k = Some nullptr)).
Proof.
  unfold Flush. destruct (Process _ _) as [s1|] eqn:E; [|done]. intros [= <-].
  apply Process_flush_frame in E.
  destruct (flush_frame_trans _ _ _ E (flush_sessions_flush_frame s1))
    as (H1 & H2 & H3 & H4 & H5 & H6 & H7 & H8).
  split; [exact H2|]. split; [exact H1|]. split; [exact H3|].
  split; [exact H4|]. split; [exact H5|]. split; [exact H6|].
  split; [exact H7 | exact H8].
Qed.
End flush_facts.

(** ** A flush can follow a flush *)

Section flush_again.
Context {EL SL : Type} `{!Collaborators EL SL}.
#[local] Abbreviation State := (ExitEndpoint EL SL).
Implicit Types s : State.

Lemma addrs_exit_ident (l l' : list (PubKey * Endpoint EL)) :
  map exit_ident l' = map exit_ident l → addrs l' = addrs l.
Proof.
  intros E. unfold addrs.
  assert (∀ m : list (PubKey * Endpoint EL),
            map (λ x, ep_addr x.2) m
            = map (λ i, i.1.1.1.1.1.2) (map exit_ident m)) as Hm.
  { intros m. rewrite map_map. by apply map_ext. }
  by rewrite !Hm, E.
Qed.

Lemma flush_frame_chosen_live s s' :
  flush_frame s s' → chosen_live s → chosen_live s'.
Proof.
  intros (_ & _ & _ & _ & _ & _ & Hid & Hc) Hlive k p Hk Hp.
  apply addrs_exit_ident in Hid.
  destruct (exit_at p (m_ActiveExits s')) eqn:E; [eauto|].
  apply exit_at_None in E. rewrite Hid in E. apply exit_at_None in E.
  destruct (Hc k) as [Ek | [_ Ek]]; [|congruence].
  rewrite Ek in Hk. destruct (Hlive k p Hk Hp) as [x Hx]. congruence.
Qed.

Lemma OnInetPacket_each_chosen_live (loads : list (option Pkt_t)) s :
  chosen_live s → chosen_live (foldl (λ a l, OnInetPacket l a) s loads).
Proof.
  revert s. induction loads as [|l r IH]; intros s Hlive; simpl; [done|].
  apply IH. by destruct l.
Qed.

(** X15.  Where every non-null pointer of m_ChosenExits points at a session
    of m_ActiveExits, whatever packets OnInetPacket has queued, Flush
    returns, and the same holds of the endpoint it leaves: packet handling
    and flushing never leave a pointer dangling, so flushes can follow one
    another.  (Tick puts the endpoint in that condition; KickIdentOffExit
    can take it out of it, see X8.) *)
Theorem Flush_can_be_repeated (loads : list (option Pkt_t)) s :
  chosen_live s →
  ∃ s', Flush (foldl (λ a l, OnInetPacket l a) s loads) = Some s'
        ∧ chosen_live s' ∧ m_InetToNetwork s' = [].
Proof.
  intros Hlive.
  apply (OnInetPacket_each_chosen_live loads) in Hlive.
  set (t := foldl (λ a l, OnInetPacket l a) s loads) in *.
  destruct (Flush_total t Hlive) as [s' Hs']. exists s'. split; [done|].
  unfold Flush in Hs'. destruct (Process _ _) as [s1|] eqn:E; [|done].
  injection Hs' as <-. apply Process_flush_frame in E.
  pose proof (flush_frame_trans _ _ _ E (flush_sessions_flush_frame s1)) as Hf.
  split.
  - by apply (flush_frame_chosen_live (set_InetToNetwork [] t)).
  - by destruct Hf as (_ & -> & _).
Qed.
End flush_again.

(** ** Ranges *)

Section ranges.
Import IPRangeOps IPRangeMore.

Lemma land_prefix_mask (x k : Z) :
  0 ≤ x < 2 ^ 128 → 0 ≤ k ≤ 128 →
  Z.land x (2 ^ 128 - 2 ^ k) = 2 ^ k * (x / 2 ^ k).
Proof.
  intros Hx Hk.
  assert (2 ^ 128 - 2 ^ k = Z.shiftl (Z.ones (128 - k)) k) as ->.
  { rewrite Z.shiftl_mul_pow2, Z.ones_equiv by lia.
    replace (2 ^ 128) with (2 ^ (128 - k) * 2 ^ k)
      by (rewrite <- Z.pow_add_r by lia; f_equal; lia).
    lia. }
  rewrite Z.mul_comm, <- Z.shiftr_div_pow2, <- Z.shiftl_mul_pow2 by lia.
  apply Z.bits_inj'. intros i Hi.
  rewrite Z.land_spec, !Z.shiftl_spec by lia.
  destruct (Z.lt_ge_cases i k) as [Hlt|Hge].
  - rewrite !(Z.testbit_neg_r _ (i - k)) by lia. apply andb_false_r.
  - rewrite Z.shiftr_spec by lia. replace (i - k + k) with i by lia.
    destruct (Z.lt_ge_cases i 128) as [Hlt'|Hge'].
    + rewrite Z.ones_spec_low by lia. apply andb_true_r.
    + rewrite Z.ones_spec_high by lia. rewrite andb_false_r.
      symmetry. destruct (Z.eq_dec x 0) as [->|Hne]; [apply Z.bits_0|].
      apply Z.bits_above_log2; [lia|].
      assert (Z.log2 x < 128); [|lia]. apply Z.log2_lt_pow2; lia.
Qed.

Lemma pow2_pos (k : Z) : 0 ≤ k → 0 < 2 ^ k.
Proof. intros. by apply Z.pow_pos_nonneg. Qed.

Lemma base_prefix (r : IPRange) (n : Z) :
  0 ≤ addr r < UINT128_MOD → 0 ≤ n ≤ 128 → netmask_bits r = prefix_mask n →
  base r = 2 ^ (128 - n) * (addr r / 2 ^ (128 - n)).
Proof.
  intros Ha Hn Hm. unfold base. rewrite Hm. unfold prefix_mask.
  apply land_prefix_mask; [done | lia].
Qed.

Lemma Contains_prefix (r : IPRange) (n ip : Z) :
  0 ≤ addr r < UINT128_MOD → 0 ≤ ip < UINT128_MOD → 0 ≤ n ≤ 128 →
  netmask_bits r = prefix_mask n →
  Contains r ip = true ↔ base r ≤ ip < base r + 2 ^ (128 - n).
Proof.
  intros Ha Hi Hn Hm. rewrite (base_prefix r n Ha Hn Hm).
  unfold Contains. rewrite bool_decide_eq_true, Hm. unfold prefix_mask.
  rewrite !land_prefix_mask by (done || lia).
  pose proof (pow2_pos (128 - n) ltac:(lia)) as HK.
  set (K := 2 ^ (128 - n)) in *.
  pose proof (Z.div_mod ip K ltac:(lia)) as E.
  pose proof (Z.mod_pos_bound ip K HK) as B.
  split.
  - intros ->. lia.
  - intros [H1 H2]. f_equal.
    apply Z.le_antisymm.
    + apply Z.div_le_lower_bound; lia.
    + assert (ip / K < addr r / K + 1); [|lia].
      apply Z.div_lt_upper_bound; lia.
Qed.

Lemma base_block (r : IPRange) (n : Z) :
  0 ≤ addr r < UINT128_MOD → 0 ≤ n ≤ 128 → netmask_bits r = prefix_mask n →
  0 ≤ base r ≤ addr r ∧ addr r < base r + 2 ^ (128 - n)
  ∧ base r + 2 ^ (128 - n) ≤ UINT128_MOD.
Proof.
  intros Ha Hn Hm. rewrite (base_prefix r n Ha Hn Hm).
  pose proof (pow2_pos (128 - n) ltac:(lia)) as HK.
  assert (UINT128_MOD = 2 ^ (128 - n) * 2 ^ n) as E.
  { unfold UINT128_MOD. rewrite <- Z.pow_add_r by lia. f_equal. lia. }
  set (K := 2 ^ (128 - n)) in *.
  pose proof (Z.div_mod (addr r) K ltac:(lia)) as D.
  pose proof (Z.mod_pos_bound (addr r) K HK) as B.
  assert (0 ≤ addr r / K) by (apply Z.div_pos; lia).
  assert (addr r / K < 2 ^ n) by (apply Z.div_lt_upper_bound; lia).
  split; [nia|]. split; [lia|]. rewrite E. nia.
Qed.

Lemma HighestAddr_prefix cb (r : IPRange) (n : Z) :
  0 ≤ addr r < UINT128_MOD → 1 ≤ n ≤ 128 → netmask_bits r = prefix_mask n →
  cb (netmask_bits r) = n →
  HighestAddr cb r = base r + 2 ^ (128 - n) - 1.
Proof.
  intros Ha Hn Hm Hc.
  destruct (base_block r n Ha ltac:(lia) Hm) as (B1 & B2 & B3).
  unfold HighestAddr. fold (base r). rewrite Hc.
  rewrite Z.shiftl_1_l.
  pose proof (pow2_pos (128 - n) ltac:(lia)) as HK.
  assert (2 ^ (128 - n) < UINT128_MOD) as HK'.
  { unfold UINT128_MOD. apply Z.pow_lt_mono_r; lia. }
  rewrite (Z.mod_small (2 ^ (128 - n))) by lia.
  destruct (Z.eq_dec (base r + 2 ^ (128 - n)) UINT128_MOD) as [E|E].
  - rewrite E, Z.mod_same by (unfold UINT128_MOD; lia).
    assert ((0 - 1) mod UINT128_MOD = UINT128_MOD - 1) as ->
      by (vm_compute; reflexivity).
    lia.
  - rewrite (Z.mod_small (base r + _)) by lia. rewrite Z.mod_small; lia.
Qed.

(** X16.  For a range whose netmask is an n-bit prefix (n at least 1, which
    count_bits_128 counts), Contains(ip) holds exactly of the addresses from
    the first address of the range to HighestAddr(), and the range's own
    address is one of them. *)
Theorem Contains_is_interval cb (r : IPRange) (n ip : Z) :
  0 ≤ addr r < UINT128_MOD → 0 ≤ ip < UINT128_MOD → 1 ≤ n ≤ 128 →
  netmask_bits r = prefix_mask n → cb (netmask_bits r) = n →
  (Contains r ip = true ↔ base r ≤ ip ≤ HighestAddr cb r)
  ∧ Contains r (addr r) = true
  ∧ Contains r (HighestAddr cb r) = true
  ∧ Contains r (base r) = true.
Proof.
  intros Ha Hi Hn Hm Hc.
  destruct (base_block r n Ha ltac:(lia) Hm) as (B1 & B2 & B3).
  pose proof (HighestAddr_prefix cb r n Ha Hn Hm Hc) as Hh.
  pose proof (pow2_pos (128 - n) ltac:(lia)) as HK.
  split; [|split; [|split]].
  - rewrite (Contains_prefix r n ip Ha Hi ltac:(lia) Hm), Hh. lia.
  - apply (Contains_prefix r n); [done | done | lia | done | lia].
  - apply (Contains_prefix r n); [done | lia | lia | done | lia].
  - apply (Contains_prefix r n); [done | lia | lia | done | lia].
Qed.

(** X17.  Contains(other) for two prefix ranges.  When the prefix of the
    other range is at least as long, or the other range is given by its
    first address, the answer is exact: true if and only if every address of
    the other range is in this range.  When the other range has the shorter
    prefix and is given by an address inside this range, the answer is true
    as soon as the two ranges end at the same address, although the other
    range starts below this one. *)
Theorem Contains_range_exact cb (r other : IPRange) (n m : Z) :
  0 ≤ addr r < UINT128_MOD → 0 ≤ addr other < UINT128_MOD →
  1 ≤ n ≤ 128 → 1 ≤ m ≤ 128 →
  netmask_bits r = prefix_mask n → netmask_bits other = prefix_mask m →
  cb (netmask_bits r) = n → cb (netmask_bits other) = m →
  (n ≤ m ∨ addr other = base other →
   Contains_range cb r other = true
   ↔ base r ≤ base other ∧ HighestAddr cb other ≤ HighestAddr cb r)
  ∧ (m < n → Contains r (addr other) = true →
     HighestAddr cb other = HighestAddr cb r →
     Contains_range cb r other = true ∧ base other < base r).
Proof.
  intros Ha Hb Hn Hm Mn Mm Cn Cm.
  destruct (base_block r n Ha ltac:(lia) Mn) as (A1 & A2 & A3).
  destruct (base_block other m Hb ltac:(lia) Mm) as (B1 & B2 & B3).
  pose proof (HighestAddr_prefix cb r n Ha Hn Mn Cn) as Hr.
  pose proof (HighestAddr_prefix cb other m Hb Hm Mm Cm) as Ho.
  pose proof (pow2_pos (128 - n) ltac:(lia)) as HK.
  pose proof (pow2_pos (128 - m) ltac:(lia)) as HL.
  pose proof (Contains_prefix r n (addr other) Ha Hb ltac:(lia) Mn) as Ca.
  pose proof (Contains_prefix r n (HighestAddr cb other) Ha
                ltac:(rewrite Ho; lia) ltac:(lia) Mn) as Ch.
  unfold Contains_range. rewrite andb_true_iff, Ca, Ch, Hr, Ho.
  pose proof (base_prefix r n Ha ltac:(lia) Mn) as Er.
  pose proof (base_prefix other m Hb ltac:(lia) Mm) as Eo.
  set (K := 2 ^ (128 - n)) in *. set (L := 2 ^ (128 - m)) in *.
  split.
  - intros [Hnm | Hbase].
    + assert (K = L * 2 ^ (m - n)) as EK.
      { unfold K, L. rewrite <- Z.pow_add_r by lia. f_equal. lia. }
      pose proof (pow2_pos (m - n) ltac:(lia)) as HD.
      set (D := 2 ^ (m - n)) in *. set (q := addr r / K) in *.
      split; [|lia]. intros [[H1 H2] _].
      assert (D * q ≤ addr other / L)
        by (apply Z.div_le_lower_bound; [lia|]; nia).
      assert (addr other / L < D * q + D)
        by (apply Z.div_lt_upper_bound; [lia|]; nia).
      split; nia.
    + rewrite Hbase in *. split; [|lia]. intros [[H1 H2] [H3 H4]]. lia.
  - intros Hmn Hc Hh.
    assert (L = K * 2 ^ (n - m)) as EL.
    { unfold K, L. rewrite <- Z.pow_add_r by lia. f_equal. lia. }
    assert (2 ≤ 2 ^ (n - m)).
    { change 2 with (2 ^ 1) at 1. apply Z.pow_le_mono_r; lia. }
    split; [lia | nia].
Qed.

(** X18.  The operator< of IPRange holds of no range and itself, but it can
    hold both ways between two ranges: exactly when one of them has the
    smaller first address and the other the smaller netmask.  Between
    ranges of one netmask it is the order of their first addresses. *)
Theorem IPRange_lt_both_ways (a b : IPRange) :
  lt a a = false
  ∧ (lt a b = true ∧ lt b a = true
     ↔ (base a < base b ∧ netmask_bits b < netmask_bits a)
       ∨ (base b < base a ∧ netmask_bits a < netmask_bits b))
  ∧ (netmask_bits a = netmask_bits b →
     (lt a b = true ↔ base a < base b))
  ∧ (∃ x y, lt x y = true ∧ lt y x = true).
Proof.
  unfold lt, base. split; [|split; [|split]].
  - rewrite !bool_decide_eq_false_2 by lia. done.
  - rewrite !orb_true_iff, !bool_decide_eq_true. lia.
  - intros E. rewrite orb_true_iff, !bool_decide_eq_true. lia.
  - exists (mkIPRange 1 (prefix_mask 128)), (mkIPRange (2 ^ 64) (prefix_mask 64)).
    by vm_compute.
Qed.
End ranges.

(** ** Router versions *)

Lemma Version_lt_spec (a b : Z * Z * Z) :
  Version_lt a b = true
  ↔ a.1.1 < b.1.1
    ∨ (a.1.1 = b.1.1 ∧ (a.1.2 < b.1.2 ∨ (a.1.2 = b.1.2 ∧ a.2 < b.2))).
Proof.
  destruct a as [[a0 a1] a2], b as [[b0 b1] b2]. unfold Version_lt. simpl.
  rewrite !orb_true_iff, !andb_true_iff, !orb_true_iff, !andb_true_iff,
    !bool_decide_eq_true.
  done.
Qed.

(** X19.  The operator< of RouterVersion holds of no version and itself, but
    it can hold both ways: exactly when one side has the lower protocol
    version and the other the lower version triple.  With equal protocol
    versions it is the dictionary order of the triples, and with equal
    triples the order of the protocol versions. *)
Theorem RouterVersion_lt_both_ways (a b : RouterVersion) :
  RouterVersion_lt a a = false
  ∧ (RouterVersion_lt a b = true ∧ RouterVersion_lt b a = true
     ↔ (m_ProtoVersion a < m_ProtoVersion b
        ∧ Version_lt (m_Version b) (m_Version a) = true)
       ∨ (m_ProtoVersion b < m_ProtoVersion a
          ∧ Version_lt (m_Version a) (m_Version b) = true))
  ∧ (m_ProtoVersion a = m_ProtoVersion b →
     RouterVersion_lt a b = Version_lt (m_Version a) (m_Version b))
  ∧ (m_Version a = m_Version b →
     (RouterVersion_lt a b = true ↔ m_ProtoVersion a < m_ProtoVersion b))
  ∧ (∃ x y, RouterVersion_lt x y = true ∧ RouterVersion_lt y x = true).
Proof.
  unfold RouterVersion_lt. split; [|split; [|split; [|split]]].
  - apply orb_false_iff. split; [apply bool_decide_eq_false; lia|].
    apply not_true_is_false. rewrite Version_lt_spec. lia.
  - rewrite !orb_true_iff, !bool_decide_eq_true, !Version_lt_spec. lia.
  - intros ->. by rewrite bool_decide_eq_false_2 by lia.
  - intros ->. rewrite orb_true_iff, bool_decide_eq_true, Version_lt_spec. lia.
  - exists (mkRouterVersion (0, 9, 0) 1), (mkRouterVersion (0, 8, 0) 2).
    by vm_compute.
Qed.

(** ** Chunked writes *)

Section tcp_facts.
Context {C : Type}.
Variable EV_WRITE_BUF_SZ : Z.
Variable write : C → list Z → Z * C.
Variable close : C → C.
#[local] Abbreviation write_loop := (write_loop EV_WRITE_BUF_SZ write close).
#[local] Abbreviation well_behaved := (well_behaved write).

Lemma bytes_at_in_range data cur n :
  0 ≤ cur → cur ≤ Z.of_nat (length data) →
  bytes_at data cur n = take (Z.to_nat n) (drop (Z.to_nat cur) data).
Proof.
  intros H0 H1. unfold bytes_at. case_bool_decide as Hin; [done|].
  rewrite drop_ge by lia. by rewrite take_nil.
Qed.

Lemma accepted_app a b : accepted (a ++ b) = accepted a ++ accepted b.
Proof. unfold accepted. by rewrite map_app, concat_app. Qed.

(** The loop, entered with [cur] bytes accepted and [sz] bytes left. *)
Lemma write_loop_spec fuel data cur sz c calls :
  0 < EV_WRITE_BUF_SZ → well_behaved →
  Z.of_nat (length data) < SIZE_MOD →
  0 ≤ cur → 0 ≤ sz → cur + sz = Z.of_nat (length data) →
  (Z.to_nat sz ≤ fuel)%nat →
  ∃ ok new,
    run_end (write_loop fuel data cur sz c calls) = Wrote ok
    ∧ run_calls (write_loop fuel data cur sz c calls) = calls ++ new
    ∧ Forall (λ call, Z.of_nat (length call.1) ≤ EV_WRITE_BUF_SZ) new
    ∧ (∃ k, (k ≤ Z.to_nat sz)%nat ∧
            accepted new = take k (drop (Z.to_nat cur) data))
    ∧ (ok = true ↔ Forall (λ call, 0 < call.2) new)
    ∧ (run_closed (write_loop fuel data cur sz c calls) = true → ok = false).
Proof.
  intros Hev Hwb Hlen.
  assert (∀ fuel cur sz c calls,
            ¬ EV_WRITE_BUF_SZ < sz → 0 ≤ cur → 0 ≤ sz →
            cur + sz = Z.of_nat (length data) →
            ∃ ok new,
              run_end (write_loop fuel data cur sz c calls) = Wrote ok
              ∧ run_calls (write_loop fuel data cur sz c calls) = calls ++ new
              ∧ Forall (λ call, Z.of_nat (length call.1) ≤ EV_WRITE_BUF_SZ) new
              ∧ (∃ k, (k ≤ Z.to_nat sz)%nat ∧
                      accepted new = take k (drop (Z.to_nat cur) data))
              ∧ (ok = true ↔ Forall (λ call, 0 < call.2) new)
              ∧ (run_closed (write_loop fuel data cur sz c calls) = true →
                 ok = false)) as Hfinal.
  { intros f cu z c0 cl Hsmall Hcur Hsz Hsum.
    assert (write_loop f data cu z c0 cl
            = let chunk := take (Z.to_nat z) (drop (Z.to_nat cu) data) in
              mkRun (Wrote (bool_decide (0 < (write c0 chunk).1)))
                    (write c0 chunk).2
                    (cl ++ [(chunk, (write c0 chunk).1)]) false) as ->.
    { destruct f; simpl; rewrite bool_decide_eq_false_2 by done;
        rewrite bytes_at_in_range by lia; by destruct (write c0 _). }
    simpl.
    set (chunk := take (Z.to_nat z) (drop (Z.to_nat cu) data)).
    assert (Z.of_nat (length chunk) = z) as Hcl.
    { unfold chunk. rewrite length_take, length_drop. lia. }
    pose proof (Hwb c0 chunk) as Hb.
    exists (bool_decide (0 < (write c0 chunk).1)), [(chunk, (write c0 chunk).1)].
    split; [done|]. split; [done|].
    split; [repeat constructor; simpl; lia|].
    split.
    { exists (Z.to_nat (write c0 chunk).1 `min` Z.to_nat z)%nat. split; [lia|].
      unfold accepted. simpl. rewrite app_nil_r. unfold chunk.
      by rewrite take_take. }
    split; [|done]. rewrite bool_decide_eq_true.
    split; [intros; repeat constructor; done|]. by intros [? _]%Forall_cons. }
  revert cur sz c calls.
  induction fuel as [|fuel IH]; intros cur sz c calls Hcur Hsz Hsum Hfuel.
  - apply Hfinal; lia.
  - destruct (decide (EV_WRITE_BUF_SZ < sz)) as [Hbig|Hsmall];
      [|by apply Hfinal].
    simpl. rewrite bool_decide_eq_true_2 by done.
    rewrite bytes_at_in_range by lia.
    set (chunk := take (Z.to_nat EV_WRITE_BUF_SZ) (drop (Z.to_nat cur) data)).
    assert (Z.of_nat (length chunk) = EV_WRITE_BUF_SZ) as Hcl.
    { unfold chunk. rewrite length_take, length_drop. lia. }
    destruct (write c chunk) as [amount c1] eqn:Ew.
    pose proof (Hwb c chunk) as Hb. rewrite Ew in Hb. simpl in Hb.
    case_bool_decide as Hfail; simpl.
    + exists false, [(chunk, amount)].
      split; [done|]. split; [done|].
      split; [repeat constructor; simpl; lia|].
      split.
      { exists 0%nat. split; [lia|]. unfold accepted. simpl.
        replace (Z.to_nat amount) with 0%nat by lia. done. }
      split; [|done]. split; [done|].
      intros [? _]%Forall_cons. simpl in *. lia.
    + rewrite Z.mod_small by lia.
      destruct (IH (cur + amount) (sz - amount) c1 (calls ++ [(chunk, amount)]))
        as (ok & new & H1 & H2 & H3 & (k & Hk & H4) & H5 & H6); [lia..|].
      exists ok, ((chunk, amount) :: new).
      split; [done|]. split; [by rewrite H2, <- app_assoc|].
      split; [constructor; [simpl; lia | done]|].
      split.
      { exists (Z.to_nat amount + k)%nat. split; [lia|].
        change (accepted ((chunk, amount) :: new))
          with (take (Z.to_nat amount) chunk ++ accepted new).
        rewrite H4. unfold chunk. rewrite take_take.
        replace (Z.to_nat amount `min` Z.to_nat EV_WRITE_BUF_SZ)%nat
          with (Z.to_nat amount) by lia.
        replace (Z.to_nat (cur + amount))
          with (Z.to_nat cur + Z.to_nat amount)%nat by lia.
        rewrite <- drop_drop. apply take_take_drop. }
      split; [|done]. rewrite H5, Forall_cons. simpl. split; [|tauto].
      intros ?. split; [lia | done].
Qed.

(** A callback that reports 2^62 bytes whatever it is given: the count of
    bytes left wraps around and is back at its first value after four
    calls. *)
Lemma write_loop_greedy fuel data cur sz c calls :
  (∀ c chunk, (write c chunk).1 = 2 ^ 62) →
  EV_WRITE_BUF_SZ < Z.of_nat (length data) →
  Z.of_nat (length data) < 2 ^ 62 →
  (∃ j, 0 ≤ j < 4 ∧ sz = Z.of_nat (length data) + j * 2 ^ 62) →
  run_end (write_loop fuel data cur sz c calls) = NoFuel
  ∧ length (run_calls (write_loop fuel data cur sz c calls))
    = (length calls + fuel)%nat
  ∧ run_closed (write_loop fuel data cur sz c calls) = false.
Proof.
  intros Hw Hbig Hlen. revert cur sz c calls.
  induction fuel as [|fuel IH]; intros cur sz c calls (j & Hj & ->); simpl.
  - rewrite bool_decide_eq_true_2 by lia. simpl. split; [done|].
    split; [lia | done].
  - rewrite bool_decide_eq_true_2 by lia.
    pose proof (Hw c (bytes_at data cur EV_WRITE_BUF_SZ)) as Ha.
    destruct (write c (bytes_at data cur EV_WRITE_BUF_SZ)) as [amount c1].
    simpl in Ha. subst amount.
    rewrite bool_decide_eq_false_2 by lia.
    destruct (IH (cur + 2 ^ 62)
                ((Z.of_nat (length data) + j * 2 ^ 62 - 2 ^ 62) mod SIZE_MOD)
                c1 (calls ++ [(bytes_at data cur EV_WRITE_BUF_SZ, 2 ^ 62)]))
      as (H1 & H2 & H3).
    + unfold SIZE_MOD. destruct (decide (j = 0)) as [->|Hne].
      * exists 3. split; [lia|].
        rewrite <- (Z.mod_add _ 1) by lia. rewrite Z.mod_small; lia.
      * exists (j - 1). split; [lia|]. rewrite Z.mod_small; lia.
    + split; [exact H1|]. split; [|exact H3].
      rewrite H2, length_app. simpl. lia.
Qed.

(** X20.  llarp_tcp_conn_async_write need not end.  The loop takes what
    the write callback reports on trust: with a buffer longer than
    EV_WRITE_BUF_SZ (and shorter than 2^62 bytes) and a callback that reports
    2^62 bytes on every call, the count of bytes left wraps around modulo
    2^64 and is above EV_WRITE_BUF_SZ at every turn, so the loop makes call
    after call, however many turns it is given, and neither returns nor
    closes the connection. *)
Theorem llarp_tcp_conn_async_write_need_not_end (c : C) (data : list Z) :
  (∀ c chunk, (write c chunk).1 = 2 ^ 62) →
  EV_WRITE_BUF_SZ < Z.of_nat (length data) →
  Z.of_nat (length data) < 2 ^ 62 →
  ∀ fuel,
    run_end (write_loop fuel data 0 (Z.of_nat (length data)) c []) = NoFuel
    ∧ length (run_calls
                (write_loop fuel data 0 (Z.of_nat (length data)) c []))
      = fuel
    ∧ run_closed (write_loop fuel data 0 (Z.of_nat (length data)) c [])
      = false.
Proof.
  intros Hw Hbig Hlen fuel.
  apply (write_loop_greedy fuel data 0 (Z.of_nat (length data)) c []);
    [done | done | done |].
  exists 0. split; lia.
Qed.

(** X21.  llarp_tcp_conn_async_write with a write callback that reports no
    more bytes than it was given.  The run returns a flag.  No call is handed
    more than EV_WRITE_BUF_SZ bytes; the bytes the calls took, in the order
    of the calls, are a prefix of the buffer; the flag is true exactly when
    every call returned a positive count; and the connection is closed only
    on a run that returns false. *)
Theorem llarp_tcp_conn_async_write_chunks (c : C) (data : list Z) :
  0 < EV_WRITE_BUF_SZ → well_behaved →
  Z.of_nat (length data) < SIZE_MOD →
  ∃ ok,
    run_end (llarp_tcp_conn_async_write EV_WRITE_BUF_SZ write close c data)
    = Wrote ok
    ∧ Forall (λ call, Z.of_nat (length call.1) ≤ EV_WRITE_BUF_SZ)
        (run_calls
           (llarp_tcp_conn_async_write EV_WRITE_BUF_SZ write close c data))
    ∧ accepted
        (run_calls
           (llarp_tcp_conn_async_write EV_WRITE_BUF_SZ write close c data))
      `prefix_of` data
    ∧ (ok = true
       ↔ Forall (λ call, 0 < call.2)
           (run_calls
              (llarp_tcp_conn_async_write EV_WRITE_BUF_SZ write close c data)))
    ∧ (run_closed
         (llarp_tcp_conn_async_write EV_WRITE_BUF_SZ write close c data) = true
       → ok = false).
Proof.
  intros Hev Hwb Hlen. unfold llarp_tcp_conn_async_write.
  destruct (write_loop_spec (length data) data 0 (Z.of_nat (length data)) c [])
    as (ok & new & H1 & H2 & H3 & (k & Hk & H4) & H5 & H6);
    [done | done | done | lia | lia | lia | lia |].
  exists ok. rewrite H2. simpl.
  split; [done|]. split; [done|]. split; [|done].
  rewrite H4. simpl. exists (drop k data). by rewrite take_drop.
Qed.

(** X22.  A buffer of at most EV_WRITE_BUF_SZ bytes, the empty one too, is
    handed to the write callback in one call, whatever the callback does.
    The flag is whether that call returned a positive count: a call that took
    only part of the buffer still gives true, and a failed call gives false
    without closing the connection. *)
Theorem llarp_tcp_conn_async_write_one_call (c : C) (data : list Z) :
  Z.of_nat (length data) ≤ EV_WRITE_BUF_SZ →
  llarp_tcp_conn_async_write EV_WRITE_BUF_SZ write close c data
  = mkRun (Wrote (bool_decide (0 < (write c data).1))) (write c data).2
          [(data, (write c data).1)] false.
Proof.
  intros Hsmall. unfold llarp_tcp_conn_async_write.
  assert (bytes_at data 0 (Z.of_nat (length data)) = data) as Hs.
  { rewrite bytes_at_in_range by lia. simpl. rewrite Nat2Z.id.
    by rewrite firstn_all. }
  destruct (length data) eqn:E; simpl;
    rewrite bool_decide_eq_false_2 by lia; rewrite Hs;
    by destruct (write c data).
Qed.
End tcp_facts.

(** ** Configuration *)

Lemma substring_all (a : string) : String.substring 0 (String.length a) a = a.
Proof. induction a as [|c a IH]; simpl; [done|]. by rewrite IH. Qed.

Lemma substring_append_l (a b : string) :
  String.substring 0 (String.length a) (a +:+ b) = a.
Proof.
  induction a as [|c a IH]; simpl; [by destruct b|]. by rewrite IH.
Qed.

Lemma substring_append_r (a b : string) :
  String.substring (String.length a) (String.length b) (a +:+ b) = b.
Proof. induction a as [|c a IH]; simpl; [apply substring_all | done]. Qed.

Lemma substr_to_append (a b : string) : substr_to (String.length a) (a +:+ b) = a.
Proof. apply substring_append_l. Qed.

Lemma substr_from_append (a : string) (c : Ascii.ascii) (b : string) :
  substr_from (S (String.length a)) (a +:+ String c b) = b.
Proof.
  unfold substr_from. rewrite append_length. simpl.
  replace (String.length a + S (String.length b) - S (String.length a))%nat
    with (String.length b) by lia.
  induction a as [|x a IH]; simpl; [apply substring_all | exact IH].
Qed.

(** The first occurrence of a one-character pattern. *)
Lemma str_find_char (pat : string) (c : Ascii.ascii) (a b : string) :
  pat = String c "" → str_find pat a = None →
  str_find pat (a +:+ pat +:+ b) = Some (String.length a).
Proof.
  intros ->. change (String c "" +:+ b) with (String c b).
  induction a as [|x a IH]; simpl.
  - intros _. destruct (Ascii.ascii_dec c c); [|done]. by destruct b.
  - destruct (Ascii.ascii_dec c x) as [->|Hne].
    + by destruct a.
    + destruct (str_find (String c "") a) eqn:E; [done|]. intros _.
      by rewrite IH.
Qed.

Lemma substr_from_separator (pat : string) (c : Ascii.ascii) (a b : string) :
  pat = String c "" →
  substr_from (S (String.length a)) (a +:+ pat +:+ b) = b.
Proof. intros ->. apply substr_from_append. Qed.

Section configuration_facts.
Context {EL SL : Type} `{!Platform}.
Implicit Types h : Handler EL SL.

Lemma SetOption_type_null h :
  SetOption "type" "null" h
  = (true, mkHandler (endpoint h) false (m_Tun h) (m_LocalResolverAddr h)
             (m_UpstreamResolvers h) (m_ConfigLog h)).
Proof. done. Qed.

Lemma SetOption_type_other (v : string) h :
  v ≠ "null" → SetOption "type" v h = (true, h).
Proof.
  intros Hv. unfold SetOption.
  rewrite (bool_decide_eq_false_2 (v = "null")) by done. done.
Qed.

Lemma SetOption_exit (v : string) h :
  SetOption "exit" v h
  = (true, mkHandler (set_PermitExit (IsTrueValue v) (endpoint h))
             (m_ShouldInitTun h) (m_Tun h) (m_LocalResolverAddr h)
             (m_UpstreamResolvers h) (m_ConfigLog h)).
Proof. done. Qed.

Lemma SetOption_local_dns (v : string) h :
  SetOption "local-dns" v h
  = (true,
     config_log (LocalDnsSetTo (host_port v).1 (host_port v).2)
       (mkHandler (endpoint h) (m_ShouldInitTun h) (m_Tun h)
          (host_port v) (m_UpstreamResolvers h) (m_ConfigLog h))).
Proof. done. Qed.

Lemma SetOption_upstream_dns (v : string) h :
  SetOption "upstream-dns" v h
  = (true,
     config_log (AddingUpstreamDns (host_port v).1 (host_port v).2)
       (mkHandler (endpoint h) (m_ShouldInitTun h) (m_Tun h)
          (m_LocalResolverAddr h) (m_UpstreamResolvers h ++ [host_port v])
          (m_ConfigLog h))).
Proof. done. Qed.

Lemma SetOption_ifaddr_no_slash (v : string) h :
  str_find "/" v = None →
  SetOption "ifaddr" v h = (false, config_log (IfaddrNotCidr v) h).
Proof. intros E. unfold SetOption. simpl. by rewrite E. Qed.

Lemma SetOption_ifaddr_slash (v : string) (pos : nat) h :
  str_find "/" v = Some pos →
  SetOption "ifaddr" v h
  = (true,
     let tun := mkTun (strncpy (substr_to pos v) (sizeof_ifaddr - 1))
                  (atoi (substr_from (1 + pos) v)) (tun_ifname (m_Tun h)) in
     let s := SetOption_ifaddr (Addr_xtohl (substr_to pos v))
                (netmask_ipv4_bits (tun_netmask tun)) (endpoint h) in
     config_log
       (SetIfaddrRange (tun_ifaddr tun) (tun_netmask tun)
          (m_IfAddr s) (m_HigestAddr s))
       (mkHandler s (m_ShouldInitTun h) tun (m_LocalResolverAddr h)
          (m_UpstreamResolvers h) (m_ConfigLog h))).
Proof. intros E. unfold SetOption. simpl. by rewrite E. Qed.

Lemma SetOption_ifname (v : string) h :
  SetOption "ifname" v h
  = (true,
     config_log (SetIfname (strncpy v (sizeof_ifname - 1)))
       (mkHandler (endpoint h) (m_ShouldInitTun h)
          (mkTun (tun_ifaddr (m_Tun h)) (tun_netmask (m_Tun h))
             (strncpy v (sizeof_ifname - 1)))
          (m_LocalResolverAddr h) (m_UpstreamResolvers h) (m_ConfigLog h))).
Proof. done. Qed.

Lemma SetOption_unknown (k v : string) h :
  k ≠ "type" → k ≠ "exit" → k ≠ "local-dns" → k ≠ "upstream-dns" →
  k ≠ "ifaddr" → k ≠ "ifname" →
  SetOption k v h = (true, h).
Proof.
  intros H1 H2 H3 H4 H5 H6. unfold SetOption.
  rewrite (bool_decide_eq_false_2 (k = "type")) by done.
  rewrite (bool_decide_eq_false_2 (k = "exit")) by done.
  rewrite (bool_decide_eq_false_2 (k = "local-dns")) by done.
  rewrite (bool_decide_eq_false_2 (k = "upstream-dns")) by done.
  rewrite (bool_decide_eq_false_2 (k = "ifaddr")) by done.
  rewrite (bool_decide_eq_false_2 (k = "ifname")) by done.
  simpl. by repeat case_bool_decide.
Qed.

(** X23.  SetOption returns false in one case only: the option ifaddr with a
    value without a slash, and then nothing but the log has changed.  An
    option it does not know is accepted and changes nothing.  No option
    touches the identity map, the activity table or a session, and only exit
    and ifaddr touch the endpoint at all: exit sets m_PermitExit and nothing
    else. *)
Theorem SetOption_refuses_only_bad_ifaddr (k v : string) h :
  ((SetOption k v h).1 = false ↔ k = "ifaddr" ∧ str_find "/" v = None)
  ∧ ((SetOption k v h).1 = false →
     (SetOption k v h).2 = config_log (IfaddrNotCidr v) h)
  ∧ (k ∉ ["type"; "exit"; "local-dns"; "upstream-dns"; "ifaddr"; "ifname"] →
     SetOption k v h = (true, h))
  ∧ (k ≠ "exit" → k ≠ "ifaddr" →
     endpoint (SetOption k v h).2 = endpoint h)
  ∧ (k = "exit" →
     endpoint (SetOption k v h).2
     = set_PermitExit (IsTrueValue v) (endpoint h))
  ∧ m_KeyToIP (endpoint (SetOption k v h).2) = m_KeyToIP (endpoint h)
  ∧ m_IPToKey (endpoint (SetOption k v h).2) = m_IPToKey (endpoint h)
  ∧ m_IPActivity (endpoint (SetOption k v h).2) = m_IPActivity (endpoint h)
  ∧ m_ActiveExits (endpoint (SetOption k v h).2) = m_ActiveExits (endpoint h)
  ∧ m_SNodeSessions (endpoint (SetOption k v h).2)
    = m_SNodeSessions (endpoint h).
Proof.
  destruct (decide (k = "type")) as [->|H1].
  { destruct (decide (v = "null")) as [->|Hv].
    - rewrite SetOption_type_null. simpl.
      split; [split; [done | by intros [? ?]]|]. split; [done|].
      split; [intros Hn; exfalso; apply Hn; repeat constructor|]. done.
    - rewrite (SetOption_type_other v h Hv). simpl.
      split; [split; [done | by intros [? ?]]|]. done. }
  destruct (decide (k = "exit")) as [->|H2].
  { rewrite SetOption_exit. simpl.
    split; [split; [done | by intros [? ?]]|]. split; [done|].
    split; [intros Hn; exfalso; apply Hn; repeat constructor|]. done. }
  destruct (decide (k = "local-dns")) as [->|H3].
  { rewrite SetOption_local_dns. simpl.
    split; [split; [done | by intros [? ?]]|]. split; [done|].
    split; [intros Hn; exfalso; apply Hn; repeat constructor|]. done. }
  destruct (decide (k = "upstream-dns")) as [->|H4].
  { rewrite SetOption_upstream_dns. simpl.
    split; [split; [done | by intros [? ?]]|]. split; [done|].
    split; [intros Hn; exfalso; apply Hn; repeat constructor|]. done. }
  destruct (decide (k = "ifaddr")) as [->|H5].
  { destruct (str_find "/" v) as [pos|] eqn:Ef.
    - rewrite (SetOption_ifaddr_slash v pos h Ef). simpl.
      split; [split; [done | by intros [? ?]]|]. split; [done|].
      split; [intros Hn; exfalso; apply Hn; repeat constructor|]. done.
    - rewrite (SetOption_ifaddr_no_slash v h Ef). simpl.
      split; [done|]. split; [done|].
      split; [intros Hn; exfalso; apply Hn; repeat constructor|]. done. }
  destruct (decide (k = "ifname")) as [->|H6].
  { rewrite SetOption_ifname. simpl.
    split; [split; [done | by intros [? ?]]|]. split; [done|].
    split; [intros Hn; exfalso; apply Hn; repeat constructor|]. done. }
  rewrite SetOption_unknown by done. simpl.
  split; [split; [done | by intros [? ?]]|]. done.
Qed.

(** X24.  The option ifaddr splits its value at the first slash.  For a value
    host/bits, where host holds no slash, SetOption returns true, copies the
    host into the array of the tun device (as many characters as fit, up to
    a zero character), stores atoi(bits) as the netmask, and sets the
    address range of the endpoint from the two, as SetOption_ifaddr does;
    the resolvers are left as they were. *)
Theorem SetOption_ifaddr_cidr (host bits : string) h :
  str_find "/" host = None →
  (SetOption "ifaddr" (host +:+ "/" +:+ bits) h).1 = true
  ∧ endpoint (SetOption "ifaddr" (host +:+ "/" +:+ bits) h).2
    = SetOption_ifaddr (Addr_xtohl host) (netmask_ipv4_bits (atoi bits))
        (endpoint h)
  ∧ m_Tun (SetOption "ifaddr" (host +:+ "/" +:+ bits) h).2
    = mkTun (strncpy host (sizeof_ifaddr - 1)) (atoi bits)
        (tun_ifname (m_Tun h))
  ∧ m_UpstreamResolvers (SetOption "ifaddr" (host +:+ "/" +:+ bits) h).2
    = m_UpstreamResolvers h
  ∧ m_LocalResolverAddr (SetOption "ifaddr" (host +:+ "/" +:+ bits) h).2
    = m_LocalResolverAddr h.
Proof.
  intros Hhost.
  rewrite (SetOption_ifaddr_slash _ _ h
             (str_find_char "/" _ host bits eq_refl Hhost)).
  change (1 + String.length host)%nat with (S (String.length host)).
  rewrite (substr_from_separator "/" _ host bits eq_refl), substr_to_append.
  done.
Qed.

(** X25.  The two dns options read host:port from their value: without a
    colon the value is the host and the port is 53; otherwise the host is
    what stands before the first colon and the port is atoi of the rest, as
    a 16-bit number.  upstream-dns appends the pair to m_UpstreamResolvers
    and local-dns replaces m_LocalResolverAddr by it; both return true and
    leave the endpoint and the tun device as they were. *)
Theorem SetOption_dns_host_port (v : string) h :
  (str_find ":" v = None → host_port v = (v, 53))
  ∧ (∀ host port, str_find ":" host = None → v = host +:+ ":" +:+ port →
       host_port v = (host, atoi port mod 2 ^ 16))
  ∧ SetOption "upstream-dns" v h
    = (true,
       config_log (AddingUpstreamDns (host_port v).1 (host_port v).2)
         (mkHandler (endpoint h) (m_ShouldInitTun h) (m_Tun h)
            (m_LocalResolverAddr h) (m_UpstreamResolvers h ++ [host_port v])
            (m_ConfigLog h)))
  ∧ SetOption "local-dns" v h
    = (true,
       config_log (LocalDnsSetTo (host_port v).1 (host_port v).2)
         (mkHandler (endpoint h) (m_ShouldInitTun h) (m_Tun h)
            (host_port v) (m_UpstreamResolvers h) (m_ConfigLog h))).
Proof.
  split; [|split; [|split]].
  - intros E. unfold host_port. by rewrite E.
  - intros host port Hh ->. unfold host_port. simpl.
    rewrite (str_find_char ":" _ host port eq_refl Hh).
    by rewrite (substr_from_separator ":" _ host port eq_refl), substr_to_append.
  - apply SetOption_upstream_dns.
  - apply SetOption_local_dns.
Qed.

(** X26.  Start.  With m_ShouldInitTun false (after the option type=null) it
    returns true and calls nothing.  Otherwise, while the address or the
    name of the tun device is empty or auto, as on a freshly constructed
    endpoint, it returns false and calls nothing.  Otherwise it calls
    tun_listen; when that fails it returns false and the resolver is not
    started; when it succeeds the resolver is started with the configured
    upstream resolvers, or with 8.8.8.8:53 alone when none is configured,
    and Start returns what the resolver returns. *)
Theorem Start_outcomes h :
  (m_ShouldInitTun h = false → Start h = (true, h, []))
  ∧ (∀ v, Start (SetOption "type" "null" h).2
          = (true, (SetOption "type" "null" h).2, [])
          ∧ (v ≠ "null" → m_ShouldInitTun (SetOption "type" v h).2
                          = m_ShouldInitTun h))
  ∧ (∀ s : ExitEndpoint EL SL,
       (Start (constructed s)).1.1 = false ∧ (Start (constructed s)).2 = [])
  ∧ (m_ShouldInitTun h = true →
     tun_ifaddr (m_Tun h) ∈ [""; "auto"] ∨ tun_ifname (m_Tun h) ∈ [""; "auto"] →
     (Start h).1.1 = false ∧ (Start h).2 = []
     ∧ m_UpstreamResolvers (Start h).1.2 = m_UpstreamResolvers h)
  ∧ (m_ShouldInitTun h = true →
     tun_ifaddr (m_Tun h) ∉ [""; "auto"] → tun_ifname (m_Tun h) ∉ [""; "auto"] →
     (tun_listen (m_Tun h) = false →
      (Start h).1.1 = false ∧ (Start h).2 = [TunListen (m_Tun h)])
     ∧ (tun_listen (m_Tun h) = true →
        let ups := match m_UpstreamResolvers h with
                   | [] => [("8.8.8.8", 53)]
                   | _ => m_UpstreamResolvers h
                   end in
        (Start h).1.1 = Resolver_Start (m_LocalResolverAddr h) ups
        ∧ (Start h).2 = [TunListen (m_Tun h);
                         ResolverStart (m_LocalResolverAddr h) ups]
        ∧ m_UpstreamResolvers (Start h).1.2 = ups)).
Proof.
  split; [|split; [|split; [|split]]].
  - intros E. unfold Start. by rewrite E.
  - intros v. split; [done|]. intros Hv. by rewrite SetOption_type_other.
  - done.
  - intros E Hbad. unfold Start, llarp_ev_add_tun. rewrite E.
    destruct (bool_decide (tun_ifaddr (m_Tun h) = "")
              || bool_decide (tun_ifaddr (m_Tun h) = "auto")) eqn:Ea; [done|].
    destruct (bool_decide (tun_ifname (m_Tun h) = "")
              || bool_decide (tun_ifname (m_Tun h) = "auto")) eqn:En; [done|].
    exfalso. apply orb_false_iff in Ea as [Ea1 Ea2], En as [En1 En2].
    apply bool_decide_eq_false in Ea1, Ea2, En1, En2.
    destruct Hbad as [Hb|Hb];
      repeat (apply elem_of_cons in Hb as [Hb|Hb]; [done|]);
      by apply elem_of_nil in Hb.
  - intros E Ha Hn. unfold Start, llarp_ev_add_tun. rewrite E.
    assert (tun_ifaddr (m_Tun h) ≠ "" ∧ tun_ifaddr (m_Tun h) ≠ "auto")
      as [A1 A2] by (split; intros E'; apply Ha; rewrite E'; repeat constructor).
    assert (tun_ifname (m_Tun h) ≠ "" ∧ tun_ifname (m_Tun h) ≠ "auto")
      as [N1 N2] by (split; intros E'; apply Hn; rewrite E'; repeat constructor).
    rewrite !bool_decide_eq_false_2 by done. simpl. split.
    + intros ->. done.
    + intros ->. simpl. by destruct (m_UpstreamResolvers h).
Qed.
End configuration_facts.

(** ** Ticks, configuration and the address pool *)

Section pool_over_time.
Context {EL SL : Type} `{!Collaborators EL SL}.
#[local] Abbreviation State := (ExitEndpoint EL SL).
Implicit Types s : State.

(** X27.  Tick releases no address.  It always returns, and it leaves the
    identity map, the activity table, the address pool and m_SNodeKeys as
    they were: a key whose sessions have all expired has no session left, but
    it is still mapped, and GetIPForIdent gives it the address it had. *)
Theorem Tick_releases_no_address now s :
  ∃ s', Tick now s = Some s'
    ∧ pool_view s' = pool_view s
    ∧ m_SNodeKeys s' = m_SNodeKeys s
    ∧ (∀ pk, (∀ e, (pk, e) ∈ m_ActiveExits s → ep_IsExpired e now = true) →
             ∀ e, (pk, e) ∉ m_ActiveExits s')
    ∧ (∀ pk ip, m_KeyToIP s !! pk = Some ip →
                HasLocalMappedAddrFor pk s' = true
                ∧ ∀ later, (GetIPForIdent pk later s').1 = ip).
Proof.
  destruct (Tick_runs now s) as (chosen & Ht & _).
  eexists. split; [exact Ht|]. pose proof (Tick_pool_view _ _ _ Ht) as Hv.
  split; [exact Hv|]. split; [done|]. split.
  - intros pk Hexp e Hin. simpl in Hin.
    apply list_elem_of_fmap in Hin as ([k x] & Hx & Hf).
    apply list_elem_of_filter in Hf as [Hlive Hf]. simpl in *.
    unfold tick_exit in Hx. simpl in Hx. injection Hx as -> _.
    rewrite (Hexp x Hf) in Hlive. discriminate.
  - intros pk ip Hip.
    assert (m_KeyToIP
              (set_ActiveExits
                 (map (tick_exit now)
                    (filter (λ x, ep_IsExpired x.2 now = false)
                       (m_ActiveExits s)))
                 (set_ChosenExits chosen
                    (set_SNodeSessions
                       (filter (λ kx, sn_IsExpired kx.2 now = false)
                          (m_SNodeSessions s)) s))) !! pk = Some ip) as Hk
      by exact Hip.
    split.
    + apply HasLocalMappedAddrFor_true. eauto.
    + intros later. by rewrite (GetIPForIdent_known _ _ _ _ Hk).
Qed.

Lemma GetIPForIdent_first host mask pk now s :
  unused s → 0 ≤ host < UINT32_MOD → 0 ≤ mask < UINT32_MOD →
  host < Z.lor host (Z.lxor mask (UINT32_MOD - 1)) →
  (GetIPForIdent pk now (SetOption_ifaddr host mask s)).1 = host + 1.
Proof.
  intros Hu Hh Hm Hroom.
  destruct (SetOption_ifaddr_bounds host mask s Hh Hm) as (_ & _ & _ & Hhi).
  pose proof Hu as (Hk & _).
  assert (m_KeyToIP (SetOption_ifaddr host mask s) !! pk = None) as Hnone.
  { simpl. by rewrite Hk. }
  unfold GetIPForIdent.
  rewrite (proj2 (HasLocalMappedAddrFor_false pk _) Hnone). simpl negb. cbv iota.
  assert (AllocateNewAddress (SetOption_ifaddr host mask s)
          = ((host + 1) mod UINT32_MOD,
             set_NextAddr ((host + 1) mod UINT32_MOD)
               (SetOption_ifaddr host mask s))) as ->.
  { unfold AllocateNewAddress. simpl m_NextAddr. simpl m_HigestAddr.
    by rewrite bool_decide_eq_true_2. }
  simpl in Hhi. rewrite Z.mod_small by lia.
  destruct (emplace pk (host + 1) _) as [[] k1]; simpl; [|done].
  destruct (emplace (host + 1) pk _) as [[] i1]; simpl; done.
Qed.
End pool_over_time.

Section configured_pool.
Context {EL SL : Type} `{!Collaborators EL SL} `{!Platform}.
Implicit Types h : Handler EL SL.

(** X28.  From the configuration text to the first client.  After the
    option ifaddr=host/bits on an endpoint that has recorded nothing yet,
    where the netmask leaves an address above the host address, the first
    GetIPForIdent gives the address after the host address, and the key is
    mapped to it. *)
Theorem SetOption_ifaddr_then_GetIPForIdent (host bits : string) h pk now :
  str_find "/" host = None → unused (endpoint h) →
  0 ≤ Addr_xtohl host < UINT32_MOD →
  0 ≤ netmask_ipv4_bits (atoi bits) < UINT32_MOD →
  Addr_xtohl host
  < Z.lor (Addr_xtohl host)
      (Z.lxor (netmask_ipv4_bits (atoi bits)) (UINT32_MOD - 1)) →
  (GetIPForIdent pk now
     (endpoint (SetOption "ifaddr" (host +:+ "/" +:+ bits) h).2)).1
  = Addr_xtohl host + 1
  ∧ m_KeyToIP
      (GetIPForIdent pk now
         (endpoint (SetOption "ifaddr" (host +:+ "/" +:+ bits) h).2)).2 !! pk
    = Some (Addr_xtohl host + 1).
Proof.
  intros Hhost Hu Hh Hm Hroom.
  assert (endpoint (SetOption "ifaddr" (host +:+ "/" +:+ bits) h).2
          = SetOption_ifaddr (Addr_xtohl host) (netmask_ipv4_bits (atoi bits))
              (endpoint h)) as ->.
  { rewrite (SetOption_ifaddr_slash _ _ h
               (str_find_char "/" _ host bits eq_refl Hhost)).
    change (1 + String.length host)%nat with (S (String.length host)).
    by rewrite (substr_from_separator "/" _ host bits eq_refl), substr_to_append. }
  pose proof (GetIPForIdent_first _ _ pk now _ Hu Hh Hm Hroom) as Hf.
  split; [exact Hf|]. rewrite <- Hf. apply GetIPForIdent_mapped.
Qed.
End configured_pool.

(** ** Forward queries and the gateway address *)

Section forward_names.
Context {EL SL : Type} `{!Collaborators EL SL}.
#[local] Abbreviation State := (ExitEndpoint EL SL).
Implicit Types s : State.

End forward_names.

(** ** Further runs on the sample inputs *)

Module MoreRuns.
Import Sample MoreSamples IPRangeOps IPRangeMore.

Lemma exits_keyed_lan30 : exits_keyed lan30.
Proof.
  intros k e Hin.
  change (m_ActiveExits lan30) with (@nil (PubKey * Endpoint link)) in Hin.
  by apply elem_of_nil in Hin.
Qed.

Lemma no_session_lan30 (pk : PubKey) (path : PathID_t) :
  ∀ e : Endpoint link, (pk, e) ∈ m_ActiveExits lan30 → ep_LocalPath e ≠ path.
Proof.
  intros e Hin.
  change (m_ActiveExits lan30) with (@nil (PubKey * Endpoint link)) in Hin.
  by apply elem_of_nil in Hin.
Qed.

Lemma AllocateNewExit_then_FindEndpointByPath_witness :
  heap_next lan30 = 1%N
  ∧ exits_keyed one_client
  ∧ FindEndpointByPath 20%N one_client ≠ nullptr
  ∧ ∃ e, (PK_A, e) ∈ m_ActiveExits one_client ∧ ep_PubKey e = PK_A
         ∧ FindEndpointByPath 20%N one_client = ep_addr e.
Proof.
  split; [reflexivity|].
  apply (AllocateNewExit_then_FindEndpointByPath PK_A 20%N false 1 lan30
           eq_refl exits_keyed_lan30).
  vm_compute. discriminate.
Defined.

Lemma RemoveExit_after_AllocateNewExit_witness :
  ep_PubKey its_session = PK_A
  ∧ ep_LocalPath its_session = 20%N
  ∧ m_ActiveExits (RemoveExit its_session one_client)
    = m_ActiveExits (GetIPForIdent PK_A 1 lan30).2
  ∧ HasLocalMappedAddrFor PK_A (RemoveExit its_session one_client) = true
  ∧ m_KeyToIP (RemoveExit its_session one_client)
    = m_KeyToIP (GetIPForIdent PK_A 1 lan30).2.
Proof.
  split; [reflexivity|]. split; [reflexivity|].
  exact (RemoveExit_after_AllocateNewExit PK_A 20%N false 1 lan30
           eq_refl (no_session_lan30 PK_A 20%N) its_session eq_refl eq_refl).
Defined.

Lemma KickIdentOffExit_leaves_chosen_pointer_witness :
  m_ChosenExits after_tick !! PK_A = Some 1%N
  ∧ m_ActiveExits after_tick = [(PK_A, ticked_session)]
  ∧ m_ChosenExits (KickIdentOffExit PK_A after_tick) = m_ChosenExits after_tick
  ∧ exit_at 1%N (m_ActiveExits (KickIdentOffExit PK_A after_tick)) = None
  ∧ ¬ chosen_live (KickIdentOffExit PK_A after_tick)
  ∧ ∀ now, ∃ s', Tick now (KickIdentOffExit PK_A after_tick) = Some s'
                 ∧ chosen_live s'.
Proof.
  assert (m_ChosenExits after_tick !! PK_A = Some 1%N) as Hc
    by (vm_compute; reflexivity).
  assert (m_ActiveExits after_tick = [(PK_A, ticked_session)]) as Ha
    by (vm_compute; reflexivity).
  split; [exact Hc|]. split; [exact Ha|].
  apply (KickIdentOffExit_leaves_chosen_pointer PK_A 1%N ticked_session
           after_tick).
  - rewrite Ha. apply NoDup_singleton.
  - exact Hc.
  - discriminate.
  - rewrite Ha. left.
  - reflexivity.
Defined.

Lemma unused_blank : unused blank.
Proof. repeat split. Qed.

Lemma three_calls_in_time : Forall (λ c, c.2 < llarp_time_max) three_calls.
Proof. repeat constructor. Qed.

Lemma GetIPForIdent_each_inside_pool_witness :
  m_KeyToIP (GetIPForIdent_each three_calls lan30) !! PK_C = Some 0x0A000002
  ∧ m_KeyToIP (GetIPForIdent_each three_calls lan30) !! PK_B = Some 0x0A000003
  ∧ 0x0A000001 < 0x0A000002
    ≤ Z.lor 0x0A000001 (Z.lxor 0xFFFFFFFC (UINT32_MOD - 1))
  ∧ (∀ pk, m_KeyToIP (GetIPForIdent_each three_calls lan30) !! pk
           = Some 0x0A000002 → PK_C = pk).
Proof.
  assert (m_KeyToIP (GetIPForIdent_each three_calls lan30) !! PK_C
          = Some 0x0A000002) as Hc by (vm_compute; reflexivity).
  destruct (GetIPForIdent_each_inside_pool three_calls 0x0A000001 0xFFFFFFFC
              blank unused_blank) as [Hin Hone].
  - vm_compute. split; [discriminate | reflexivity].
  - vm_compute. split; [discriminate | reflexivity].
  - vm_compute. reflexivity.
  - exact three_calls_in_time.
  - split; [exact Hc|]. split; [vm_compute; reflexivity|].
    split; [exact (Hin PK_C _ Hc)|].
    intros pk Hpk. exact (Hone PK_C pk _ Hc Hpk).
Defined.




Lemma seven_in_siit_snode : 7%N ∈ m_SNodeKeys siit_snode.
Proof. apply (bool_decide_unpack _). vm_compute. exact I. Qed.

Lemma HandleHookedDNSMessage_reverse_query_witness :
  DecodePTR "2.0.0.10.in-addr.arpa." = Some 0x0A000002
  ∧ m_IPToKey siit_snode !! 0x0A000002 = Some 7%N
  ∧ HandleHookedDNSMessage (query_PTR "2.0.0.10.in-addr.arpa.") 5 siit_snode
    = Some (true, siit_snode,
            Some (add_answer (AReply (RouterID_ToString 7%N) None)
                    (query_PTR "2.0.0.10.in-addr.arpa."))).
Proof.
  assert (m_IPToKey siit_snode !! 0x0A000002 = Some 7%N) as Hk
    by (vm_compute; reflexivity).
  split; [reflexivity|]. split; [exact Hk|].
  destruct (HandleHookedDNSMessage_reverse_query
              (query_PTR "2.0.0.10.in-addr.arpa.")
              (mkQuestion "2.0.0.10.in-addr.arpa." qTypePTR) [] 5 siit_snode
              eq_refl eq_refl) as (flag & reply & Hh & _ & Hd).
  destruct (Hd 0x0A000002 eq_refl) as (ans & -> & -> & _ & Hsn & _).
  rewrite Hh.
  rewrite (Hsn ltac:(vm_compute; discriminate) 7%N Hk seven_in_siit_snode).
  reflexivity.
Defined.


Lemma seven_in_before_tick : 7%N ∈ m_SNodeKeys before_tick.
Proof. apply (bool_decide_unpack _). vm_compute. exact I. Qed.

Lemma HandleHookedDNSMessage_after_KickIdentOffExit_witness :
  m_KeyToIP before_tick !! 7%N = Some 0x0A000003
  ∧ HandleHookedDNSMessage (query_A "aaaa.snode.") 5
      (KickIdentOffExit 7%N before_tick)
    = Some (true, KickIdentOffExit 7%N before_tick,
            Some (add_answer NXReply (query_A "aaaa.snode.")))
  ∧ 7%N ∈ m_SNodeKeys (KickIdentOffExit 7%N before_tick)
  ∧ m_SNodeSessions (KickIdentOffExit 7%N before_tick)
    = m_SNodeSessions before_tick.
Proof.
  split; [vm_compute; reflexivity|].
  exact (HandleHookedDNSMessage_after_KickIdentOffExit
           (query_A "aaaa.snode.") (mkQuestion "aaaa.snode." qTypeA) []
           7%N 5 before_tick eq_refl eq_refl eq_refl seven_in_before_tick).
Defined.

Lemma Flush_keeps_sessions_and_pool_witness :
  Flush queued_two = Some flushed_two
  ∧ m_InetToNetwork queued_two = [pkt_unmapped; pkt_client]
  ∧ m_InetToNetwork flushed_two = []
  ∧ pool_view flushed_two = pool_view queued_two
  ∧ m_Paths flushed_two = m_Paths queued_two
  ∧ m_SNodeKeys flushed_two = m_SNodeKeys queued_two
  ∧ m_PermitExit flushed_two = m_PermitExit queued_two
  ∧ dom (m_SNodeSessions flushed_two) = dom (m_SNodeSessions queued_two)
  ∧ map exit_ident (m_ActiveExits flushed_two)
    = map exit_ident (m_ActiveExits queued_two)
  ∧ (∀ k, m_ChosenExits flushed_two !! k = m_ChosenExits queued_two !! k
          ∨ (m_ChosenExits queued_two !! k = None
             ∧ m_ChosenExits flushed_two !! k = Some nullptr)).
Proof.
  assert (Flush queued_two = Some flushed_two) as Hf
    by (vm_compute; reflexivity).
  split; [exact Hf|]. split; [reflexivity|].
  exact (Flush_keeps_sessions_and_pool queued_two flushed_two Hf).
Defined.

Lemma after_tick_live : chosen_live after_tick.
Proof.
  apply (Tick_chosen_live 3 before_tick). vm_compute. reflexivity.
Qed.

Lemma Flush_can_be_repeated_witness :
  m_ChosenExits after_tick !! PK_A = Some 1%N
  ∧ ∃ s', Flush (foldl (λ a l, OnInetPacket l a) after_tick three_loads)
          = Some s'
          ∧ chosen_live s' ∧ m_InetToNetwork s' = [].
Proof.
  split; [vm_compute; reflexivity|].
  exact (Flush_can_be_repeated three_loads after_tick after_tick_live).
Defined.

Lemma Contains_is_interval_witness :
  popcount_128 (netmask_bits block_4_7) = 126
  ∧ base block_4_7 = 4
  ∧ HighestAddr popcount_128 block_4_7 = 7
  ∧ (Contains block_4_7 6 = true
     ↔ base block_4_7 ≤ 6 ≤ HighestAddr popcount_128 block_4_7)
  ∧ Contains block_4_7 (addr block_4_7) = true
  ∧ Contains block_4_7 (HighestAddr popcount_128 block_4_7) = true
  ∧ Contains block_4_7 (base block_4_7) = true.
Proof.
  assert (popcount_128 (netmask_bits block_4_7) = 126) as Hc
    by (vm_compute; reflexivity).
  split; [exact Hc|]. split; [vm_compute; reflexivity|].
  split; [vm_compute; reflexivity|].
  apply (Contains_is_interval popcount_128 block_4_7 126 6);
    [vm_compute; split; [discriminate | reflexivity]
    |vm_compute; split; [discriminate | reflexivity]
    |lia | reflexivity | exact Hc].
Defined.

Lemma Contains_range_exact_witness :
  Contains block_4_7 (addr block_0_7_at_5) = true
  ∧ HighestAddr popcount_128 block_0_7_at_5 = HighestAddr popcount_128 block_4_7
  ∧ Contains_range popcount_128 block_4_7 block_0_7_at_5 = true
  ∧ base block_0_7_at_5 < base block_4_7.
Proof.
  assert (Contains block_4_7 (addr block_0_7_at_5) = true) as Hc
    by (vm_compute; reflexivity).
  assert (HighestAddr popcount_128 block_0_7_at_5
          = HighestAddr popcount_128 block_4_7) as Hh
    by (vm_compute; reflexivity).
  split; [exact Hc|]. split; [exact Hh|].
  destruct (Contains_range_exact popcount_128 block_4_7 block_0_7_at_5 126 125)
    as [_ Hw];
    [vm_compute; split; [discriminate | reflexivity]
    |vm_compute; split; [discriminate | reflexivity]
    |lia | lia | reflexivity | reflexivity
    |vm_compute; reflexivity | vm_compute; reflexivity |].
  exact (Hw ltac:(lia) Hc Hh).
Defined.

Lemma take_three_well_behaved : well_behaved take_three.
Proof.
  intros c chunk. unfold take_three. simpl. rewrite length_take. lia.
Qed.

Lemma llarp_tcp_conn_async_write_chunks_witness :
  run_calls (llarp_tcp_conn_async_write 4 take_three (λ c, c) [] ten_bytes)
  = [([1; 2; 3; 4], 3); ([4; 5; 6; 7], 3); ([7; 8; 9; 10], 3)]
  ∧ ∃ ok,
      run_end (llarp_tcp_conn_async_write 4 take_three (λ c, c) [] ten_bytes)
      = Wrote ok
      ∧ Forall (λ call, Z.of_nat (length call.1) ≤ 4)
          (run_calls
             (llarp_tcp_conn_async_write 4 take_three (λ c, c) [] ten_bytes))
      ∧ accepted
          (run_calls
             (llarp_tcp_conn_async_write 4 take_three (λ c, c) [] ten_bytes))
        `prefix_of` ten_bytes
      ∧ (ok = true
         ↔ Forall (λ call, 0 < call.2)
             (run_calls
                (llarp_tcp_conn_async_write 4 take_three (λ c, c) []
                   ten_bytes)))
      ∧ (run_closed
           (llarp_tcp_conn_async_write 4 take_three (λ c, c) [] ten_bytes)
         = true → ok = false).
Proof.
  split; [vm_compute; reflexivity|].
  apply (llarp_tcp_conn_async_write_chunks 4 take_three (λ c, c) [] ten_bytes);
    [lia | exact take_three_well_behaved | vm_compute; reflexivity].
Defined.

Lemma llarp_tcp_conn_async_write_one_call_witness :
  llarp_tcp_conn_async_write 4 take_three (λ c, c) [] [1; 2; 3; 4]
  = mkRun (Wrote (bool_decide (0 < (take_three [] [1; 2; 3; 4]).1)))
          (take_three [] [1; 2; 3; 4]).2
          [([1; 2; 3; 4], (take_three [] [1; 2; 3; 4]).1)] false
  ∧ (take_three [] [1; 2; 3; 4]).2 = [1; 2; 3].
Proof.
  split; [|reflexivity].
  apply (llarp_tcp_conn_async_write_one_call 4 take_three (λ c, c) []
           [1; 2; 3; 4]).
  vm_compute. discriminate.
Defined.

Lemma llarp_tcp_conn_async_write_need_not_end_witness :
  (report_huge [] ten_bytes).1 = 2 ^ 62
  ∧ Z.of_nat (length ten_bytes) = 10
  ∧ run_calls (write_loop 4 report_huge (λ c, c) 2 ten_bytes 0 10 [] [])
    = [([1; 2; 3; 4], 2 ^ 62); ([], 2 ^ 62)]
  ∧ ∀ fuel,
      run_end (write_loop 4 report_huge (λ c, c) fuel ten_bytes 0
                 (Z.of_nat (length ten_bytes)) [] []) = NoFuel
      ∧ length (run_calls
                  (write_loop 4 report_huge (λ c, c) fuel ten_bytes 0
                     (Z.of_nat (length ten_bytes)) [] []))
        = fuel
      ∧ run_closed (write_loop 4 report_huge (λ c, c) fuel ten_bytes 0
                      (Z.of_nat (length ten_bytes)) [] [])
        = false.
Proof.
  split; [reflexivity|]. split; [reflexivity|].
  split; [vm_compute; reflexivity|].
  apply (llarp_tcp_conn_async_write_need_not_end 4 report_huge (λ c, c) []
           ten_bytes).
  - intros c chunk. reflexivity.
  - vm_compute. reflexivity.
  - vm_compute. reflexivity.
Defined.

Lemma SetOption_ifaddr_cidr_witness :
  str_find "/" "10.0.0.1" = None
  ∧ (SetOption "ifaddr" "10.0.0.1/30" fresh_handler).1 = true
  ∧ endpoint (SetOption "ifaddr" "10.0.0.1/30" fresh_handler).2
    = SetOption_ifaddr (Addr_xtohl "10.0.0.1") (netmask_ipv4_bits (atoi "30"))
        (endpoint fresh_handler)
  ∧ m_Tun (SetOption "ifaddr" "10.0.0.1/30" fresh_handler).2
    = mkTun (strncpy "10.0.0.1" (sizeof_ifaddr - 1)) (atoi "30")
        (tun_ifname (m_Tun fresh_handler))
  ∧ m_UpstreamResolvers (SetOption "ifaddr" "10.0.0.1/30" fresh_handler).2
    = m_UpstreamResolvers fresh_handler
  ∧ m_LocalResolverAddr (SetOption "ifaddr" "10.0.0.1/30" fresh_handler).2
    = m_LocalResolverAddr fresh_handler.
Proof.
  split; [reflexivity|].
  exact (SetOption_ifaddr_cidr "10.0.0.1" "30" fresh_handler eq_refl).
Defined.

Lemma SetOption_ifaddr_then_GetIPForIdent_witness :
  Addr_xtohl "10.0.0.1" = 0x0A000001
  ∧ netmask_ipv4_bits (atoi "30") = 0xFFFFFFFC
  ∧ (GetIPForIdent PK_A 1
       (endpoint (SetOption "ifaddr" "10.0.0.1/30" fresh_handler).2)).1
    = Addr_xtohl "10.0.0.1" + 1
  ∧ m_KeyToIP
      (GetIPForIdent PK_A 1
         (endpoint (SetOption "ifaddr" "10.0.0.1/30" fresh_handler).2)).2
    !! PK_A
    = Some (Addr_xtohl "10.0.0.1" + 1).
Proof.
  split; [reflexivity|]. split; [vm_compute; reflexivity|].
  apply (SetOption_ifaddr_then_GetIPForIdent "10.0.0.1" "30" fresh_handler
           PK_A 1 eq_refl unused_blank).
  - vm_compute. split; [discriminate | reflexivity].
  - vm_compute. split; [discriminate | reflexivity].
  - vm_compute. reflexivity.
Defined.

End MoreRuns.
